(** * KouranBot: outage parsing, fingerprinting, change detection and dispatch

    A shallow embedding of [bot/ceb_parser.py], [bot/monitor.py], the
    queries and updates of [bot/database.py], the database URL of
    [bot/config.py] and the layouts and the subscription dialogue of
    [bot/handlers.py], with the properties of the pipeline and of the code
    around it stated and proved over it.

    Conventions of the embedding:
    - a Python [str] is the list of its code points ([list N]);
    - a Python exception is a constructor of [exn], and a function that may
      raise returns a [result];
    - the Python runtime (Unicode tables above Latin-1, [json.loads],
      [BeautifulSoup], [datetime.fromisoformat], the host time zone) is not
      code of the repository: it is the interface [PyLib];
    - [ZoneInfo("Indian/Mauritius")] has the rules of the tz database: UTC+4,
      one hour more in the summers of 1982 and 2008, local mean time before
      1907; a [datetime] is held without its [fold], which is 0 on every
      datetime whose offset the code asks for;
    - the storage session is reliable: a statement fails only on a constraint
      of the schema, never for a reason outside the data;
    - the text of a notification is not modelled: the gateway answers for a
      subscriber and an outage. *)

From Stdlib Require Import ZArith NArith Lia String Ascii.
From stdpp Require Import base option list gmap finite.

#[local] Open Scope N_scope.

(** ** Strings *)

Abbreviation str := (list N).

(** Code points of a UTF-8 literal of this file (used to write examples). *)
Fixpoint decode_utf8 (bs : list N) (fuel : nat) : str :=
  match fuel with
  | O => []
  | S fuel =>
      match bs with
      | [] => []
      | b0 :: bs1 =>
          if b0 <? 128 then b0 :: decode_utf8 bs1 fuel
          else match bs1 with
               | b1 :: bs2 =>
                   if b0 <? 224 then
                     ((b0 - 192) * 64 + (b1 - 128)) :: decode_utf8 bs2 fuel
                   else match bs2 with
                        | b2 :: bs3 =>
                            if b0 <? 240 then
                              ((b0 - 224) * 4096 + (b1 - 128) * 64 + (b2 - 128))
                                :: decode_utf8 bs3 fuel
                            else match bs3 with
                                 | b3 :: bs4 =>
                                     ((b0 - 240) * 262144 + (b1 - 128) * 4096
                                      + (b2 - 128) * 64 + (b3 - 128))
                                       :: decode_utf8 bs4 fuel
                                 | [] => []
                                 end
                        | [] => []
                        end
               | [] => []
               end
      end
  end.

Definition bytes_of_literal (s : string) : list N :=
  map N_of_ascii (list_ascii_of_string s).

Definition U (s : string) : str :=
  let bs := bytes_of_literal s in decode_utf8 bs (length bs).

(** ** Exceptions *)

Inductive exn :=
  | ValueError | KeyError | IndexError | OverflowError | UnicodeEncodeError
  | HTTPError | JSONDecodeError | TelegramError (description : str)
  | OtherError.

Inductive result (A : Type) :=
  | Return (a : A)
  | Raise (e : exn).
Arguments Return {A} a.
Arguments Raise {A} e.

Definition rbind {A B} (r : result A) (k : A -> result B) : result B :=
  match r with
  | Return a => k a
  | Raise e => Raise e
  end.

Notation "x <- r ;; k" := (rbind r (fun x => k))
  (at level 100, r at next level, right associativity).

(** ** [str.encode('utf-8')] *)

Definition encode_char (c : N) : result (list N) :=
  if c <? 128 then Return [c]
  else if c <? 2048 then Return [192 + c / 64; 128 + c mod 64]
  else if (55296 <=? c) && (c <=? 57343) then Raise UnicodeEncodeError
  else if c <? 65536 then
    Return [224 + c / 4096; 128 + (c / 64) mod 64; 128 + c mod 64]
  else if c <? 1114112 then
    Return [240 + c / 262144; 128 + (c / 4096) mod 64;
            128 + (c / 64) mod 64; 128 + c mod 64]
  else Raise UnicodeEncodeError.

Fixpoint encode_utf8 (s : str) : result (list N) :=
  match s with
  | [] => Return []
  | c :: s' =>
      bs <- encode_char c ;;
      rest <- encode_utf8 s' ;;
      Return (bs ++ rest)
  end.

(** ** [hashlib.md5] (RFC 1321), on 32-bit words held in [N] *)

Module MD5.

Definition mask32 : N := 4294967295.
Definition w32 (x : N) : N := x mod 4294967296.
Definition not32 (x : N) : N := N.lxor (w32 x) mask32.
Definition rotl32 (x : N) (s : N) : N :=
  w32 (N.lor (N.shiftl (w32 x) s) (N.shiftr (w32 x) (32 - s))).

Definition K : list N :=
  [3614090360; 3905402710; 606105819; 3250441966; 4118548399; 1200080426;
   2821735955; 4249261313; 1770035416; 2336552879; 4294925233; 2304563134;
   1804603682; 4254626195; 2792965006; 1236535329; 4129170786; 3225465664;
   643717713; 3921069994; 3593408605; 38016083; 3634488961; 3889429448;
   568446438; 3275163606; 4107603335; 1163531501; 2850285829; 4243563512;
   1735328473; 2368359562; 4294588738; 2272392833; 1839030562; 4259657740;
   2763975236; 1272893353; 4139469664; 3200236656; 681279174; 3936430074;
   3572445317; 76029189; 3654602809; 3873151461; 530742520; 3299628645;
   4096336452; 1126891415; 2878612391; 4237533241; 1700485571; 2399980690;
   4293915773; 2240044497; 1873313359; 4264355552; 2734768916; 1309151649;
   4149444226; 3174756917; 718787259; 3951481745].

Definition S : list N :=
  [7; 12; 17; 22; 7; 12; 17; 22; 7; 12; 17; 22; 7; 12; 17; 22;
   5; 9; 14; 20; 5; 9; 14; 20; 5; 9; 14; 20; 5; 9; 14; 20;
   4; 11; 16; 23; 4; 11; 16; 23; 4; 11; 16; 23; 4; 11; 16; 23;
   6; 10; 15; 21; 6; 10; 15; 21; 6; 10; 15; 21; 6; 10; 15; 21].

Definition state : Type := N * N * N * N.

Definition init : state := (1732584193, 4023233417, 2562383102, 271733878).

(** The message, padded: a one bit, zeros up to 56 modulo 64, and the
    length in bits on 64 bits, least significant byte first. *)
Definition le_bytes (n : nat) (x : N) : list N :=
  map (fun i => (x / 2 ^ (8 * N.of_nat i)) mod 256) (seq 0 n).

Definition pad (msg : list N) : list N :=
  let len := N.of_nat (length msg) in
  let zeros := N.to_nat ((119 - len mod 64) mod 64) in
  msg ++ [128] ++ repeat 0 zeros ++ le_bytes 8 ((8 * len) mod 2 ^ 64).

Definition word_of_bytes (bs : list N) : N :=
  fold_right (fun b acc => b + 256 * acc) 0 bs.

Fixpoint words (n : nat) (bs : list N) : list N :=
  match n with
  | O => []
  | Datatypes.S n' => word_of_bytes (take 4 bs) :: words n' (drop 4 bs)
  end.

Definition round (M : list N) (st : state) (i : nat) : state :=
  let '(a, b, c, d) := st in
  let ni := N.of_nat i in
  let '(f, g) :=
    if ni <? 16 then (N.lor (N.land b c) (N.land (not32 b) d), ni)
    else if ni <? 32 then
      (N.lor (N.land d b) (N.land (not32 d) c), (5 * ni + 1) mod 16)
    else if ni <? 48 then (N.lxor (N.lxor b c) d, (3 * ni + 5) mod 16)
    else (N.lxor c (N.lor b (not32 d)), (7 * ni) mod 16) in
  let f' := w32 (f + a + nth i K 0 + nth (N.to_nat g) M 0) in
  (d, w32 (b + rotl32 f' (nth i S 0)), b, c).

Definition block (st : state) (bs : list N) : state :=
  let M := words 16 bs in
  let '(a, b, c, d) := st in
  let '(a', b', c', d') := fold_left (round M) (seq 0 64) st in
  (w32 (a + a'), w32 (b + b'), w32 (c + c'), w32 (d + d')).

Fixpoint blocks (n : nat) (st : state) (bs : list N) : state :=
  match n with
  | O => st
  | Datatypes.S n' => blocks n' (block st (take 64 bs)) (drop 64 bs)
  end.

Definition digest_words (msg : list N) : state :=
  let p := pad msg in blocks (length p / 64)%nat init p.

Definition digest (msg : list N) : list N :=
  let '(a, b, c, d) := digest_words msg in
  le_bytes 4 a ++ le_bytes 4 b ++ le_bytes 4 c ++ le_bytes 4 d.

Definition hexdigits : str := U "0123456789abcdef".

Definition hex_byte (b : N) : str :=
  [nth (N.to_nat (b / 16)) hexdigits 48; nth (N.to_nat (b mod 16)) hexdigits 48].

Definition hexdigest (msg : list N) : str :=
  concat (map hex_byte (digest msg)).

End MD5.

(** ** [datetime]

    A [datetime] is held as the count of microseconds of its wall clock since
    0001-01-01T00:00:00 (the proleptic Gregorian ordinal, as CPython's
    [_ymd2ord] computes it, then hours, minutes, seconds, microseconds),
    together with its [tzinfo].  Years 1 to 9999 are the counts from 0 up to
    [wall_max]. *)

Module Datetime.
#[local] Open Scope Z_scope.

Definition DAYS_IN_MONTH : list Z :=
  [-1; 31; 28; 31; 30; 31; 30; 31; 31; 30; 31; 30; 31].
Definition DAYS_BEFORE_MONTH : list Z :=
  [-1; 0; 31; 59; 90; 120; 151; 181; 212; 243; 273; 304; 334].

Definition is_leap (year : Z) : bool :=
  (year mod 4 =? 0) && (negb (year mod 100 =? 0) || (year mod 400 =? 0)).

Definition days_before_year (year : Z) : Z :=
  let y := year - 1 in y * 365 + y / 4 - y / 100 + y / 400.

Definition days_in_month (year month : Z) : Z :=
  if (month =? 2) && is_leap year then 29
  else nth (Z.to_nat month) DAYS_IN_MONTH 0.

Definition days_before_month (year month : Z) : Z :=
  nth (Z.to_nat month) DAYS_BEFORE_MONTH 0
  + (if (2 <? month) && is_leap year then 1 else 0).

Definition ymd2ord (year month day : Z) : Z :=
  days_before_year year + days_before_month year month + day.

Definition DI400Y : Z := 146097.
Definition DI100Y : Z := 36524.
Definition DI4Y : Z := 1461.

Definition ord2ymd (ordinal : Z) : Z * Z * Z :=
  let n := ordinal - 1 in
  let n400 := n / DI400Y in
  let n := n mod DI400Y in
  let year := n400 * 400 + 1 in
  let n100 := n / DI100Y in
  let n := n mod DI100Y in
  let n4 := n / DI4Y in
  let n := n mod DI4Y in
  let n1 := n / 365 in
  let n := n mod 365 in
  let year := year + n100 * 100 + n4 * 4 + n1 in
  if (n1 =? 4) || (n100 =? 4) then (year - 1, 12, 31)
  else
    let leapyear := (n1 =? 3) && (negb (n4 =? 24) || (n100 =? 3)) in
    let month := (n + 50) / 32 in
    let preceding :=
      nth (Z.to_nat month) DAYS_BEFORE_MONTH 0
      + (if (2 <? month) && leapyear then 1 else 0) in
    if n <? preceding then
      let month := month - 1 in
      let preceding :=
        preceding - (nth (Z.to_nat month) DAYS_IN_MONTH 0
                     + (if (month =? 2) && leapyear then 1 else 0)) in
      (year, month, n - preceding + 1)
    else (year, month, n - preceding + 1).

Inductive tzinfo :=
  | MAURITIUS_TZ            (* ZoneInfo("Indian/Mauritius") *)
  | UTC_TZ                  (* ZoneInfo("UTC") *)
  | timezone (offset : Z).  (* datetime.timezone, offset in microseconds *)

Definition minute_us : Z := 60000000.
Definition hour_us : Z := 3600000000.
Definition day_us : Z := 86400000000.

(** The count of the reading [year-month-day hour:minute:00]. *)
Definition reading (year month day hour minute : Z) : Z :=
  (ymd2ord year month day - 1) * day_us + hour * hour_us + minute * minute_us.

(** Indian/Mauritius in the tz database: local mean time, 3 h 50 min ahead
    of UTC, until 1907; UTC+4 since then, with the clocks one hour forward
    from 10 October 1982 to 21 March 1983 and from 26 October 2008 to
    29 March 2009.  A change is given by its reading in UTC and the offset
    from then on. *)
Definition MAURITIUS_LMT : Z := 3 * hour_us + 50 * minute_us.

Definition MAURITIUS_CHANGES : list (Z * Z) :=
  [ (reading 1906 12 31 20 10, 4 * hour_us);
    (reading 1982 10 9 20 0, 5 * hour_us);
    (reading 1983 3 20 19 0, 4 * hour_us);
    (reading 2008 10 25 22 0, 5 * hour_us);
    (reading 2009 3 28 21 0, 4 * hour_us) ].

(** [ZoneInfo.fromutc]: the offset at the reading [u] of UTC is that of the
    last change at or before [u]. *)
Fixpoint offset_at_utc (before : Z) (changes : list (Z * Z)) (u : Z) : Z :=
  match changes with
  | [] => before
  | (t, after) :: rest =>
      if u <? t then before else offset_at_utc after rest u
  end.

(** [ZoneInfo.utcoffset] of a datetime with [fold=0]: on the wall clock a
    change counts from its reading in UTC plus the larger of the offsets
    before and after it, so a reading that the clocks skip has the offset
    before the change, and a reading that they repeat is the first of the
    two. *)
Fixpoint offset_at_wall (before : Z) (changes : list (Z * Z)) (w : Z) : Z :=
  match changes with
  | [] => before
  | (t, after) :: rest =>
      if w <? t + Z.max before after then before
      else offset_at_wall after rest w
  end.

(** [tz.utcoffset(dt)] for the wall clock [w] of [dt]. *)
Definition utcoffset (tz : tzinfo) (w : Z) : Z :=
  match tz with
  | MAURITIUS_TZ => offset_at_wall MAURITIUS_LMT MAURITIUS_CHANGES w
  | UTC_TZ => 0
  | timezone off => off
  end.

(** The wall clock of [tz.fromutc(dt)] for the reading [u] of UTC. *)
Definition fromutc (tz : tzinfo) (u : Z) : Z :=
  match tz with
  | MAURITIUS_TZ => u + offset_at_utc MAURITIUS_LMT MAURITIUS_CHANGES u
  | UTC_TZ => u
  | timezone off => u + off
  end.

Definition same_tz (a b : tzinfo) : bool :=
  match a, b with
  | MAURITIUS_TZ, MAURITIUS_TZ => true
  | UTC_TZ, UTC_TZ => true
  | timezone x, timezone y => x =? y
  | _, _ => false
  end.

Record datetime := mk_datetime { wall : Z; tz : option tzinfo }.

Definition wall_max : Z := 3652059 * day_us.

Definition in_range (w : Z) : bool := (0 <=? w) && (w <? wall_max).

(** [datetime(year, month, day, hour, minute, second, tzinfo=...)]:
    [ValueError] on a field out of range. *)
Definition make (year month day hour minute second microsecond : Z)
    (tzi : option tzinfo) : result datetime :=
  if (1 <=? year) && (year <=? 9999) && (1 <=? month) && (month <=? 12)
     && (1 <=? day) && (day <=? days_in_month year month)
     && (0 <=? hour) && (hour <=? 23) && (0 <=? minute) && (minute <=? 59)
     && (0 <=? second) && (second <=? 59)
     && (0 <=? microsecond) && (microsecond <=? 999999)
  then Return (mk_datetime
                 ((((ymd2ord year month day - 1) * 24 + hour) * 60 + minute)
                    * 60 * 1000000 + second * 1000000 + microsecond) tzi)
  else Raise ValueError.

(** [dt + timedelta(days=n)]: wall-clock arithmetic, same [tzinfo]. *)
Definition add_days (dt : datetime) (n : Z) : result datetime :=
  let w := wall dt + n * day_us in
  if in_range w then Return (mk_datetime w (tz dt)) else Raise OverflowError.

(** [dt.replace(hour=.., minute=.., second=.., microsecond=..)]. *)
Definition replace_time (dt : datetime) (hour minute second microsecond : Z)
    : datetime :=
  mk_datetime
    (wall dt / day_us * day_us
     + ((hour * 60 + minute) * 60 + second) * 1000000 + microsecond)
    (tz dt).

(** [dt.astimezone(target)]: [dt - dt.utcoffset()], then [target.fromutc];
    a naive [dt] is read in the host's zone, whose offset is [host]. *)
Definition astimezone (host : Z) (dt : datetime) (target : tzinfo)
    : result datetime :=
  match tz dt with
  | Some mytz =>
      if same_tz mytz target then Return dt
      else
        let utc := wall dt - utcoffset mytz (wall dt) in
        let w := fromutc target utc in
        if in_range utc && in_range w then Return (mk_datetime w (Some target))
        else Raise OverflowError
  | None =>
      let utc := wall dt - host in
      let w := fromutc target utc in
      if in_range utc && in_range w then Return (mk_datetime w (Some target))
      else Raise OverflowError
  end.

(** The instant of an aware datetime, in microseconds of UTC. *)
Definition instant (dt : datetime) : Z :=
  wall dt - match tz dt with
            | Some z => utcoffset z (wall dt)
            | None => 0
            end.

(** [a < b] and [a <= b] on datetimes: the wall clocks when both carry the
    same [tzinfo] object or are both naive, the instants when both are aware;
    [TypeError] when exactly one is naive (not reached by the code below). *)
Definition lt (a b : datetime) : bool :=
  match tz a, tz b with
  | Some x, Some y => if same_tz x y then wall a <? wall b
                      else instant a <? instant b
  | _, _ => wall a <? wall b
  end.

Definition le (a b : datetime) : bool :=
  match tz a, tz b with
  | Some x, Some y => if same_tz x y then wall a <=? wall b
                      else instant a <=? instant b
  | _, _ => wall a <=? wall b
  end.

(** Calendar fields, for display. *)
Definition date_fields (dt : datetime) : Z * Z * Z :=
  ord2ymd (wall dt / day_us + 1).
Definition hour (dt : datetime) : Z := wall dt mod day_us / hour_us.
Definition minute (dt : datetime) : Z := wall dt mod hour_us / 60000000.
Definition second (dt : datetime) : Z := wall dt mod 60000000 / 1000000.
Definition microsecond (dt : datetime) : Z := wall dt mod 1000000.

End Datetime.

Export Datetime(datetime, tzinfo, MAURITIUS_TZ, UTC_TZ).

(** ** The Python runtime the code calls into *)

(** What [BeautifulSoup(html, 'lxml')] finds for [find_all('table', ...)]:
    every [table] element, with its [id] attribute, and under its first
    [tbody] (when it has one) every [tr], given by the
    [get_text(strip=True)] of each of its [td] cells. *)
Record table := mk_table {
  table_id : option str;
  tbody : option (list (list str))
}.

Class PyLib := {
  (** [str.isalnum], decimal digit value and [str.lower] of a code point
      above U+00FF (below, they are written out in [isalnum], [decimal] and
      [lower_char]) *)
  unicode_isalnum : N -> bool;
  unicode_decimal : N -> option N;
  unicode_lower : N -> str;
  (** [datetime.fromisoformat]; [ValueError] on a string it rejects *)
  fromisoformat : str -> result datetime;
  (** [json.loads] of an object whose values are strings, in the order of
      the document; [None] for [json.JSONDecodeError] *)
  json_loads : str -> option (list (str * str));
  (** [BeautifulSoup(html, 'lxml').find_all('table')] *)
  soup_tables : str -> list table;
  (** offset of the host's time zone, in microseconds *)
  host_utcoffset : Z
}.

(** ** Characters and strings, as Python classifies them *)

Section Strings.
Context `{PyLib}.

(** [str.isspace], which is also [\s] of [re] on [str]. *)
Definition isspace (c : N) : bool :=
  ((9 <=? c) && (c <=? 13)) || ((28 <=? c) && (c <=? 32))
  || (c =? 133) || (c =? 160) || (c =? 5760)
  || ((8192 <=? c) && (c <=? 8202))
  || (c =? 8232) || (c =? 8233) || (c =? 8239) || (c =? 8287) || (c =? 12288).

(** The digit value of a decimal digit ([\d], [str.isdecimal], [int]). *)
Definition decimal (c : N) : option N :=
  if (48 <=? c) && (c <=? 57) then Some (c - 48)
  else if c <? 256 then None
  else unicode_decimal c.

(** [str.isalnum] of one code point. *)
Definition isalnum (c : N) : bool :=
  if c <? 128 then
    ((48 <=? c) && (c <=? 57)) || ((65 <=? c) && (c <=? 90))
    || ((97 <=? c) && (c <=? 122))
  else if c <? 256 then
    (c =? 170) || (c =? 178) || (c =? 179) || (c =? 181) || (c =? 185)
    || (c =? 186) || ((188 <=? c) && (c <=? 190))
    || ((192 <=? c) && negb (c =? 215) && negb (c =? 247))
  else unicode_isalnum c.

(** [\w] of [re] on [str]: alphanumeric or underscore. *)
Definition isword (c : N) : bool := isalnum c || (c =? 95).

Definition is_upper_latin1 (c : N) : bool :=
  ((65 <=? c) && (c <=? 90)) || ((192 <=? c) && (c <=? 222) && negb (c =? 215)).

Definition is_lower_latin1 (c : N) : bool :=
  ((97 <=? c) && (c <=? 122)) || ((224 <=? c) && (c <=? 254) && negb (c =? 247)).

(** [str.lower], code point by code point.  (The one rule of [str.lower]
    that looks at the context, the final sigma, only chooses between two
    Greek letters.) *)
Definition lower_char (c : N) : str :=
  if is_upper_latin1 c then [c + 32]
  else if c <? 256 then [c]
  else unicode_lower c.

Definition lower (s : str) : str := concat (map lower_char s).

(** [s.strip()] *)
Fixpoint lstrip (s : str) : str :=
  match s with
  | c :: s' => if isspace c then lstrip s' else s
  | [] => []
  end.

Definition strip (s : str) : str := reverse (lstrip (reverse (lstrip s))).

(** [re.sub(r'\s+', ' ', s)]: every maximal run of white space becomes one
    space. *)
Fixpoint collapse_spaces (in_run : bool) (s : str) : str :=
  match s with
  | [] => []
  | c :: s' =>
      if isspace c then
        if in_run then collapse_spaces true s' else 32 :: collapse_spaces true s'
      else c :: collapse_spaces false s'
  end.

(** [s.split(sep)] for a one-character separator. *)
Fixpoint split (sep : N) (s : str) : list str :=
  match s with
  | [] => [[]]
  | c :: s' =>
      if c =? sep then [] :: split sep s'
      else match split sep s' with
           | w :: ws => (c :: w) :: ws
           | [] => [[c]]
           end
  end.

(** [s.replace(old, new)] for a one-character [old]. *)
Definition replace (old : N) (new : str) (s : str) : str :=
  concat (map (fun c => if c =? old then new else [c]) s).

(** [s.startswith(prefix)] and [needle in s]. *)
Fixpoint startswith (prefix s : str) : bool :=
  match prefix, s with
  | [], _ => true
  | p :: prefix', c :: s' => (p =? c) && startswith prefix' s'
  | _ :: _, [] => false
  end.

Fixpoint contains (needle s : str) : bool :=
  startswith needle s ||
  match s with
  | [] => false
  | _ :: s' => contains needle s'
  end.

(** [int(s)] on a string of decimal digits, as the groups of the date
    pattern are; [ValueError] otherwise. *)
Fixpoint int_digits (acc : Z) (s : str) : result Z :=
  match s with
  | [] => Return acc
  | c :: s' =>
      match decimal c with
      | Some d => int_digits (10 * acc + Z.of_N d)%Z s'
      | None => Raise ValueError
      end
  end.

Definition int (s : str) : result Z :=
  match s with
  | [] => Raise ValueError
  | _ => int_digits 0%Z s
  end.

End Strings.

(** ** The two regular expressions of the parser

    A pattern of [re] restricted to what the two patterns of
    [ceb_parser.py] use: single characters, character classes, greedy
    repetition of a class, and groups that do not nest.  Matching backtracks
    as [re] does: a repetition first takes as many characters as it can and
    gives them back one at a time. *)

Module Re.

Inductive cclass :=
  | digit                 (* \d *)
  | word                  (* \w *)
  | space                 (* \s *)
  | dot                   (* .  (anything but a newline) *)
  | chars (cs : list N).  (* a literal character, or [...] *)

Inductive item :=
  | one (c : cclass)
  | rep (c : cclass) (lo : nat) (hi : option nat)
  | gopen
  | gclose.

Section Matcher.
Context `{PyLib}.

(** With [re.IGNORECASE] a letter of the pattern also accepts its other
    case.  For the letters of [DATE_PATTERN] (L, e, d, a and à) that is all
    [re] accepts. *)
Definition other_case (c : N) : N :=
  if is_upper_latin1 c then c + 32
  else if is_lower_latin1 c then c - 32
  else c.

Definition accepts (ignorecase : bool) (cl : cclass) (x : N) : bool :=
  match cl with
  | digit => bool_decide (is_Some (decimal x))
  | word => isword x
  | space => isspace x
  | dot => negb (x =? 10)
  | chars cs =>
      existsb (fun c => (x =? c) || (ignorecase && (x =? other_case c))) cs
  end.

Fixpoint run_length (f : N -> bool) (hi : option nat) (s : str) : nat :=
  match hi with
  | Some O => O
  | _ =>
      match s with
      | x :: s' => if f x then Datatypes.S (run_length f (pred <$> hi) s') else O
      | [] => O
      end
  end.

(** Try [k n], then [k (n-1)], ... down to [k lo]. *)
Fixpoint try_down {A} (k : nat -> option A) (lo n : nat) : option A :=
  if (n <? lo)%nat then None
  else match k n with
       | Some r => Some r
       | None =>
           match n with
           | O => None
           | Datatypes.S n' => try_down k lo n'
           end
       end.

(** [exec p s cur gs]: match the items [p] at the start of [s]; [cur] is the
    text of the group being read, [gs] the groups already closed.  The
    result is the groups and what is left of [s]. *)
Fixpoint exec (ignorecase : bool) (p : list item) (s : str)
    (cur : option str) (gs : list str) : option (list str * str) :=
  match p with
  | [] => Some (gs, s)
  | gopen :: p' => exec ignorecase p' s (Some []) gs
  | gclose :: p' => exec ignorecase p' s None (gs ++ [default [] cur])
  | one cl :: p' =>
      match s with
      | x :: s' =>
          if accepts ignorecase cl x
          then exec ignorecase p' s' ((fun g => g ++ [x]) <$> cur) gs
          else None
      | [] => None
      end
  | rep cl lo hi :: p' =>
      try_down
        (fun n => exec ignorecase p' (drop n s)
                    ((fun g => g ++ take n s) <$> cur) gs)
        lo (run_length (accepts ignorecase cl) hi s)
  end.

(** [pattern.match(s)]: the groups of a match at the start of [s]. *)
Definition match_ (ignorecase : bool) (p : list item) (s : str)
    : option (list str) :=
  fst <$> exec ignorecase p s None [].

(** [re.search(pattern, s)]: the groups of the leftmost match. *)
Fixpoint search (ignorecase : bool) (p : list item) (s : str)
    : option (list str) :=
  match match_ ignorecase p s with
  | Some gs => Some gs
  | None =>
      match s with
      | [] => None
      | _ :: s' => search ignorecase p s'
      end
  end.

End Matcher.

Definition lit (s : string) : list item := map (fun c => one (chars [c])) (U s).
Definition plus (c : cclass) : item := rep c 1 None.
Definition times (c : cclass) (n : nat) : item := rep c n (Some n).
Definition group (p : list item) : list item := gopen :: p ++ [gclose].

End Re.

(** ** [json.dumps(data, separators=(',', ':'), ensure_ascii=False)] and
       [datetime.isoformat] *)

Module Json.

Definition hexdigit (n : N) : N := nth (N.to_nat n) MD5.hexdigits 48.

(** The escape of one code point in a JSON string when [ensure_ascii] is
    off: the quote, the backslash and the control characters below U+0020. *)
Definition escape_char (c : N) : str :=
  if c =? 34 then [92; 34]
  else if c =? 92 then [92; 92]
  else if c =? 10 then [92; 110]
  else if c =? 13 then [92; 114]
  else if c =? 9 then [92; 116]
  else if c =? 8 then [92; 98]
  else if c =? 12 then [92; 102]
  else if c <? 32 then [92; 117; 48; 48; hexdigit (c / 16); hexdigit (c mod 16)]
  else [c].

Definition escape (s : str) : str := concat (map escape_char s).

Definition dumps_str (s : str) : str := [34] ++ escape s ++ [34].

(** One [key:value] member with the compact separators. *)
Definition member (key : string) (value : str) : str :=
  dumps_str (U key) ++ [58] ++ dumps_str value.

End Json.

Module Iso.
#[local] Open Scope Z_scope.

(** [n] on [width] decimal digits, zero-filled. *)
Fixpoint zfill (width : nat) (n : Z) : str :=
  match width with
  | O => []
  | S w => zfill w (n / 10) ++ [Z.to_N (48 + n mod 10)]
  end.

Definition offset_text (off : Z) : str :=
  let a := Z.abs off in
  [if off <? 0 then 45%N else 43%N]
  ++ zfill 2 (a / Datetime.hour_us) ++ [58%N]
  ++ zfill 2 (a mod Datetime.hour_us / 60000000)
  ++ (if a mod 60000000 =? 0 then []
      else [58%N] ++ zfill 2 (a mod 60000000 / 1000000)
           ++ (if a mod 1000000 =? 0 then []
               else [46%N] ++ zfill 6 (a mod 1000000))).

(** [dt.isoformat()] *)
Definition isoformat (dt : datetime) : str :=
  let '(y, m, d) := Datetime.date_fields dt in
  zfill 4 y ++ [45%N] ++ zfill 2 m ++ [45%N] ++ zfill 2 d ++ [84%N]
  ++ zfill 2 (Datetime.hour dt) ++ [58%N]
  ++ zfill 2 (Datetime.minute dt) ++ [58%N]
  ++ zfill 2 (Datetime.second dt)
  ++ (if Datetime.microsecond dt =? 0 then []
      else [46%N] ++ zfill 6 (Datetime.microsecond dt))
  ++ match Datetime.tz dt with
     | Some z => offset_text (Datetime.utcoffset z (Datetime.wall dt))
     | None => []
     end.

End Iso.

(** ** [bot/ceb_parser.py] *)

Module CebParser.

(** An outage dictionary.  The four text fields are always present in the
    dictionaries the parser builds; ['id'], ['from'] and ['to'] are added
    later, and ['from'] may hold a string or a [datetime]. *)
Inductive timeval :=
  | time_str (s : str)
  | time_obj (d : datetime).

Record outage := mk_outage {
  o_id : option str;
  o_date : str;
  o_locality : str;
  o_streets : str;
  o_district : str;
  o_from : option timeval;
  o_to : option timeval
}.

(** What [client.get(url)] followed by [response.raise_for_status()] gives:
    an [httpx.HTTPError] (network, timeout, status), or the body. *)
Inductive http_outcome :=
  | http_error
  | http_text (body : str).

Definition FRENCH_MONTHS : gmap str Z :=
  list_to_map
    [(U "janvier", 1%Z); (U "février", 2%Z); (U "fevrier", 2%Z);
     (U "mars", 3%Z); (U "avril", 4%Z); (U "mai", 5%Z); (U "juin", 6%Z);
     (U "juillet", 7%Z); (U "août", 8%Z); (U "aout", 8%Z);
     (U "septembre", 9%Z); (U "octobre", 10%Z); (U "novembre", 11%Z);
     (U "décembre", 12%Z); (U "decembre", 12%Z)].

(** [Le\s+\w+\s+(\d{1,2})\s+(\w+)\s+(\d{4})\s+de\s+(\d{2}:\d{2}:\d{2})\s+[àa]\s+(\d{2}:\d{2}:\d{2})] *)
Definition time_of_day : list Re.item :=
  [Re.times Re.digit 2] ++ Re.lit ":" ++ [Re.times Re.digit 2]
  ++ Re.lit ":" ++ [Re.times Re.digit 2].

Definition DATE_PATTERN : list Re.item :=
  Re.lit "Le" ++ [Re.plus Re.space; Re.plus Re.word; Re.plus Re.space]
  ++ Re.group [Re.rep Re.digit 1 (Some 2%nat)] ++ [Re.plus Re.space]
  ++ Re.group [Re.plus Re.word] ++ [Re.plus Re.space]
  ++ Re.group [Re.times Re.digit 4] ++ [Re.plus Re.space]
  ++ Re.lit "de" ++ [Re.plus Re.space]
  ++ Re.group time_of_day ++ [Re.plus Re.space]
  ++ [Re.one (Re.chars (U "àa")); Re.plus Re.space]
  ++ Re.group time_of_day.

(** [var arDistrictLocations = ({.+});] *)
Definition DISTRICT_PATTERN : list Re.item :=
  Re.lit "var arDistrictLocations = "
  ++ Re.group (Re.lit "{" ++ [Re.plus Re.dot] ++ Re.lit "}")
  ++ Re.lit ";".

Section Parser.
Context `{PyLib}.

Definition fetch_ceb_page (page : http_outcome) : result str :=
  match page with
  | http_error => Raise HTTPError
  | http_text body => Return body
  end.

Definition extract_district_data (html : str) : list (str * str) :=
  match Re.search false DISTRICT_PATTERN html with
  | Some (g1 :: _) =>
      match json_loads g1 with
      | Some district_data => district_data
      | None => []
      end
  | _ => []
  end.

(** [int(parts[0]), int(parts[1]), int(parts[2])] *)
Definition hms (parts : list str) : result (Z * Z * Z) :=
  let part (i : nat) : result Z :=
    match parts !! i with
    | Some p => int p
    | None => Raise IndexError
    end in
  hour <- part 0%nat ;;
  minute <- part 1%nat ;;
  second <- part 2%nat ;;
  Return (hour, minute, second).

(** The [try] block of [parse_french_date]. *)
Definition resolve_times (day_str year_str from_time_str to_time_str : str)
    (month : Z) : result (datetime * datetime) :=
  day <- int day_str ;;
  year <- int year_str ;;
  let from_parts := split 58 from_time_str in
  let to_parts := split 58 to_time_str in
  f <- hms from_parts ;;
  t <- hms to_parts ;;
  let '(from_hour, from_min, from_sec) := f in
  let '(to_hour, to_min, to_sec) := t in
  from_time <- Datetime.make year month day from_hour from_min from_sec 0
                 (Some MAURITIUS_TZ) ;;
  to_time <- Datetime.make year month day to_hour to_min to_sec 0
               (Some MAURITIUS_TZ) ;;
  to_time <- (if Datetime.lt to_time from_time
              then Datetime.add_days to_time 1
              else Return to_time) ;;
  from_time_utc <- Datetime.astimezone host_utcoffset from_time UTC_TZ ;;
  to_time_utc <- Datetime.astimezone host_utcoffset to_time UTC_TZ ;;
  Return (from_time_utc, to_time_utc).

(** [parse_french_date]: [Return None] is the pair [(None, None)]. *)
Definition parse_french_date (date_str : str)
    : result (option (datetime * datetime)) :=
  if bool_decide (date_str = []) || bool_decide (strip date_str = [])
  then Return None
  else
    let date_str := strip (collapse_spaces false date_str) in
    match Re.match_ true DATE_PATTERN date_str with
    | Some [day_str; month_str; year_str; from_time_str; to_time_str] =>
        match FRENCH_MONTHS !! lower month_str with
        | None => Return None
        | Some month =>
            match resolve_times day_str year_str from_time_str to_time_str
                    month with
            | Return times => Return (Some times)
            | Raise ValueError => Return None
            | Raise IndexError => Return None
            | Raise e => Raise e
            end
        end
    | _ => Return None
    end.

Definition parse_table_html (html : str) (district : str) : list outage :=
  let tables :=
    List.filter (fun t => match table_id t with
                          | Some x => negb (bool_decide (x = []))
                                      && startswith (U "table-mauritius") x
                          | None => false
                          end) (soup_tables html) in
  let rows_of (t : table) : list (list str) := default [] (tbody t) in
  omap (fun cells =>
          match cells with
          | date_text :: locality :: streets :: _ =>
              if bool_decide (date_text = []) then None
              else Some (mk_outage None date_text locality streets district
                           None None)
          | _ => None
          end)
       (concat (map rows_of tables)).

(** The text that is hashed: the four fields in the order [date],
    [locality], [streets], [district], with no space between the tokens. *)
Definition json_str (outage : outage) : str :=
  [123] ++ Json.member "date" (o_date outage)
  ++ [44] ++ Json.member "locality" (o_locality outage)
  ++ [44] ++ Json.member "streets" (o_streets outage)
  ++ [44] ++ Json.member "district" (o_district outage) ++ [125].

Definition generate_outage_id (outage : outage) : result str :=
  bytes <- encode_utf8 (json_str outage) ;;
  Return (MD5.hexdigest bytes).

(** The instant [datetime.now(MAURITIUS_TZ)] is the argument [now_wall], the
    wall clock of Mauritius when the function is called. *)
Definition end_of_today (now_wall : Z) : datetime :=
  Datetime.replace_time (Datetime.mk_datetime now_wall (Some MAURITIUS_TZ))
    23 59 59 999999.

(** One turn of the inner loop of [categorize_outages]:
    [None] when the outage is skipped, [Some true] for ['today'],
    [Some false] for ['future']. *)
Definition categorize_one (now_wall : Z) (outage : outage)
    : result (option bool) :=
  match o_from outage with
  | None => Return None
  | Some (time_str []) => Return None
  | Some v =>
      from_time <- match v with
                   | time_str s => fromisoformat (replace 90 (U "+00:00") s)
                   | time_obj d => Return d
                   end ;;
      from_time_local <- Datetime.astimezone host_utcoffset from_time
                           MAURITIUS_TZ ;;
      Return (Some (Datetime.le from_time_local (end_of_today now_wall)))
  end.

Fixpoint categorize_loop (now_wall : Z) (outages : list outage)
    (today future : list outage) : result (list outage * list outage) :=
  match outages with
  | [] => Return (today, future)
  | outage :: rest =>
      c <- categorize_one now_wall outage ;;
      match c with
      | None => categorize_loop now_wall rest today future
      | Some true => categorize_loop now_wall rest (today ++ [outage]) future
      | Some false => categorize_loop now_wall rest today (future ++ [outage])
      end
  end.

(** [categorize_outages]: the pair is [(result['today'], result['future'])]. *)
Definition categorize_outages (now_wall : Z)
    (outages_by_district : list (str * list outage))
    : result (list outage * list outage) :=
  categorize_loop now_wall (concat (map snd outages_by_district)) [] [].

(** [seen] is a dictionary: it keeps its keys in the order of insertion. *)
Fixpoint remove_duplicates_loop (seen : list (str * outage))
    (outages : list outage) : list (str * outage) :=
  match outages with
  | [] => seen
  | outage :: rest =>
      if bool_decide (o_date outage = []) then remove_duplicates_loop seen rest
      else
        match o_id outage with
        | Some outage_id =>
            if bool_decide (outage_id ≠ [] ∧ outage_id ∉ map fst seen)
            then remove_duplicates_loop (seen ++ [(outage_id, outage)]) rest
            else remove_duplicates_loop seen rest
        | None => remove_duplicates_loop seen rest
        end
  end.

Definition remove_duplicates (outages : list outage) : list outage :=
  map snd (remove_duplicates_loop [] outages).

(** [d[key] = value] on a dictionary held in insertion order. *)
Fixpoint dict_set {A} (d : list (str * A)) (key : str) (value : A)
    : list (str * A) :=
  match d with
  | [] => [(key, value)]
  | (k, v) :: d' =>
      if bool_decide (k = key) then (k, value) :: d'
      else (k, v) :: dict_set d' key value
  end.

(** The body of the loop over the rows of one district. *)
Fixpoint process_outages (raw_outages : list outage) : result (list outage) :=
  match raw_outages with
  | [] => Return []
  | outage :: rest =>
      outage_id <- generate_outage_id outage ;;
      times <- parse_french_date (o_date outage) ;;
      processed <- process_outages rest ;;
      match times with
      | Some (from_time, to_time) =>
          Return (mk_outage (Some outage_id) (o_date outage)
                    (o_locality outage) (o_streets outage) (o_district outage)
                    (Some (time_str (Iso.isoformat from_time)))
                    (Some (time_str (Iso.isoformat to_time)))
                  :: processed)
      | None => Return processed
      end
  end.

Fixpoint process_districts (district_data : list (str * str))
    (outages_by_district : list (str * list outage))
    : result (list (str * list outage)) :=
  match district_data with
  | [] => Return outages_by_district
  | (district, district_html) :: rest =>
      processed_outages <- process_outages
                             (parse_table_html district_html district) ;;
      process_districts rest
        (dict_set outages_by_district district
           (remove_duplicates processed_outages))
  end.

Definition fetch_and_parse_outages (page : http_outcome) (now_wall : Z)
    : result (list outage * list outage) :=
  html <- fetch_ceb_page page ;;
  let district_data := extract_district_data html in
  match district_data with
  | [] => Raise ValueError
  | _ =>
      outages_by_district <- process_districts district_data [] ;;
      categorize_outages now_wall outages_by_district
  end.

End Parser.
End CebParser.

(** ** [bot/database.py]: the tables and the queries the monitor runs *)

Module Database.

Record User := mk_User {
  telegram_id : Z;
  language : option str;
  is_active : bool
}.

Record Locality := mk_Locality {
  locality_id : Z;
  name : str;
  district_id : Z
}.

Record Subscription := mk_Subscription {
  user_id : Z;
  subscribed_locality : Z
}.

(** [String(n)]: the column takes a string of at most [n] characters. *)
Definition within (n : nat) (s : str) : bool := (length s <=? n)%nat.

(** [id], [locality] and [district] are [String(255)]; [locality] and
    [district] are [nullable=False]; [streets] and [date_description] are
    [Text] and may be [NULL].  [from_time] and [to_time] are [DateTime]
    columns, which keep a datetime without its time zone: the row holds the
    datetime it was given, and nothing below reads it back. *)
Record Outage := mk_Outage {
  id : str;
  locality : str;
  district : str;
  streets : option str;
  date_description : option str;
  from_time : datetime;
  to_time : datetime;
  first_seen : Z;
  last_checked : Z
}.

(** [outages] is keyed by its primary key; [notifications_sent] by the pair
    of [uq_user_outage], and holds [sent_at]. *)
Record db := mk_db {
  users : list User;
  localities : list Locality;
  subscriptions : list Subscription;
  outages : gmap str Outage;
  notifications_sent : gmap (Z * str) Z
}.

(** [db.query(User.telegram_id, User.language).join(Subscription)
       .join(Locality).filter(Locality.name == locality_name,
                              User.is_active == True).all()],
    then [(r[0], r[1] or "en")].  The query asks for no order: the lines of
    its answer are listed here as the tables are held. *)
Definition get_users_with_language_for_locality (d : db) (locality_name : str)
    : list (Z * str) :=
  u ← users d;
  s ← subscriptions d;
  l ← localities d;
  if bool_decide (user_id s = telegram_id u)
     && bool_decide (subscribed_locality s = locality_id l)
     && bool_decide (name l = locality_name)
     && is_active u
  then [(telegram_id u,
         match language u with
         | Some (c :: lang) => c :: lang
         | _ => U "en"
         end)]
  else [].

(** [user = db.query(User).filter(User.telegram_id == user_id).first()];
    [if user: user.is_active = False]. *)
Fixpoint deactivate (us : list User) (uid : Z) : list User :=
  match us with
  | [] => []
  | u :: us' =>
      if bool_decide (telegram_id u = uid)
      then mk_User (telegram_id u) (language u) false :: us'
      else u :: deactivate us' uid
  end.

(** *** The queries and updates the command handlers run

    [User.username] and the [created_at] and [updated_at] timestamps are
    columns no query reads: they are not held, and an update that only
    writes them leaves the columns held as they are.  The database
    enforces the schema on what is held: a commit raises when a foreign
    key names no row, or when a string is longer than its column. *)

Definition with_users (d : db) (us : list User) : db :=
  mk_db us (localities d) (subscriptions d) (outages d) (notifications_sent d).

Definition with_subscriptions (d : db) (ss : list Subscription) : db :=
  mk_db (users d) (localities d) ss (outages d) (notifications_sent d).

(** [db.query(User).filter(User.telegram_id == telegram_id).first()] *)
Definition find_user (d : db) (uid : Z) : option User :=
  List.find (fun u => bool_decide (telegram_id u = uid)) (users d).

(** [Subscription.user_id == telegram_id,
     Subscription.locality_id == locality_id] *)
Definition is_pair (uid lid : Z) (s : Subscription) : bool :=
  bool_decide (user_id s = uid) && bool_decide (subscribed_locality s = lid).

Section Accounts.
Context `{PyLib}.

(** [username] only feeds the column of that name.  For a user who has a
    row, [elif user.username != username] rewrites [username] and
    [updated_at] of that row, two columns that are not held: the columns
    held stay as they are. *)
Definition get_or_create_user (d : db) (uid : Z)
    (username language_code : option str) : db * User :=
  match find_user d uid with
  | Some user => (d, user)
  | None =>
      let detected_lang :=
        match language_code with
        | Some (c :: code) =>
            if startswith (U "en") (lower (c :: code))
               || startswith (U "fr") (lower (c :: code))
            then take 2 (lower (c :: code))
            else U "fr"
        | _ => U "fr"
        end in
      let user := mk_User uid (Some detected_lang) true in
      (with_users d (users d ++ [user]), user)
  end.

End Accounts.

Definition add_subscription (d : db) (uid lid : Z) : result (db * bool) :=
  match List.find (is_pair uid lid) (subscriptions d) with
  | Some existing => Return (d, false)
  | None =>
      if existsb (fun u => bool_decide (telegram_id u = uid)) (users d)
         && existsb (fun l => bool_decide (locality_id l = lid)) (localities d)
      then Return (with_subscriptions d
                     (subscriptions d ++ [mk_Subscription uid lid]),
                   true)
      else Raise OtherError
  end.

(** [db.delete(subscription)]: the row found is removed. *)
Fixpoint delete_first (p : Subscription -> bool) (ss : list Subscription)
    : list Subscription :=
  match ss with
  | [] => []
  | s :: ss' => if p s then ss' else s :: delete_first p ss'
  end.

Definition remove_subscription (d : db) (uid lid : Z) : db * bool :=
  match List.find (is_pair uid lid) (subscriptions d) with
  | None => (d, false)
  | Some subscription =>
      (with_subscriptions d (delete_first (is_pair uid lid) (subscriptions d)),
       true)
  end.

(** [db.query(Subscription).filter(Subscription.user_id == telegram_id)
       .delete()] returns the number of rows it removed. *)
Definition remove_all_subscriptions (d : db) (uid : Z) : db * nat :=
  (with_subscriptions d
     (List.filter (fun s => negb (bool_decide (user_id s = uid)))
        (subscriptions d)),
   length (List.filter (fun s => bool_decide (user_id s = uid))
             (subscriptions d))).

Definition is_subscribed (d : db) (uid lid : Z) : bool :=
  match List.find (is_pair uid lid) (subscriptions d) with
  | Some _ => true
  | None => false
  end.

(** The query of [get_users_with_language_for_locality] without the
    language, and like it without an order. *)
Definition get_users_subscribed_to_locality (d : db) (locality_name : str)
    : list Z :=
  u ← users d;
  s ← subscriptions d;
  l ← localities d;
  if bool_decide (user_id s = telegram_id u)
     && bool_decide (subscribed_locality s = locality_id l)
     && bool_decide (name l = locality_name)
     && is_active u
  then [telegram_id u]
  else [].

Definition get_user_language (d : db) (uid : Z) : str :=
  match find_user d uid with
  | Some user =>
      match language user with
      | Some (c :: lang) => c :: lang
      | _ => U "en"
      end
  | None => U "en"
  end.

(** [user.language = language] on the row found. *)
Fixpoint set_language (us : list User) (uid : Z) (lang : str) : list User :=
  match us with
  | [] => []
  | u :: us' =>
      if bool_decide (telegram_id u = uid)
      then mk_User (telegram_id u) (Some lang) (is_active u) :: us'
      else u :: set_language us' uid lang
  end.

(** [language] is a [String(2)]. *)
Definition set_user_language (d : db) (uid : Z) (lang : str)
    : result (db * bool) :=
  match find_user d uid with
  | None => Return (d, false)
  | Some user =>
      if (length lang <=? 2)%nat
      then Return (with_users d (set_language (users d) uid lang), true)
      else Raise OtherError
  end.

End Database.

(** ** [bot/monitor.py] *)

Module Monitor.
Import Database.

(** A field of an item of the JSON feed: absent, [null], or a string. *)
Inductive jfield :=
  | missing
  | null
  | text (s : str).

#[global] Instance jfield_eq_dec : EqDecision jfield.
Proof. solve_decision. Defined.

Record feed_item := mk_feed_item {
  f_id : jfield;
  f_locality : jfield;
  f_district : jfield;
  f_streets : jfield;
  f_date : jfield;
  f_from : jfield;
  f_to : jfield
}.

(** The document of the feed: a dictionary from a key (["today"],
    ["future"]) to a list of items. *)
Abbreviation feed := (list (str * list feed_item)).

(** What the [GET] of the feed gives: an [httpx.HTTPError], another
    exception (such as a body that [response.json()] rejects), or the
    document. *)
Inductive feed_outcome :=
  | feed_http_error
  | feed_malformed
  | feed_document (data : feed).

(** What [bot.send_message] does: the message is delivered, or a
    [TelegramError] with its description is raised, or another exception is
    (an exception raised while the text is rendered counts here). *)
Inductive send_outcome :=
  | delivered
  | telegram_error (description : str)
  | other_error.

(** One call of [bot.send_message] and its outcome. *)
Record attempt := mk_attempt {
  a_user : Z;
  a_outage : str;
  a_outcome : send_outcome
}.

(** The state a run works on: the database, the number of readings of the
    clock so far, and the calls made to the delivery gateway so far. *)
Record world := mk_world {
  store : db;
  clock_reads : nat;
  sent_log : list attempt
}.

Section Monitor.
Context `{PyLib}.
(** [utcnow n] is the [n]-th reading of [datetime.utcnow()];
    [send_message n chat_id outage_id] is the outcome of the [n]-th call of
    [bot.send_message]. *)
Variable utcnow : nat -> Z.
Variable send_message : nat -> Z -> str -> send_outcome.

Definition _fetch_outages (response : feed_outcome) : feed :=
  match response with
  | feed_document data => data
  | feed_http_error => []
  | feed_malformed => []
  end.

(** [data.get(key, [])] *)
Fixpoint feed_get (data : feed) (key : str) : list feed_item :=
  match data with
  | [] => []
  | (k, v) :: data' => if bool_decide (k = key) then v else feed_get data' key
  end.

(** [datetime.fromisoformat(outage_data[key].replace("Z", "+00:00"))] *)
Definition parse_time (field : jfield) : result datetime :=
  match field with
  | missing => Raise KeyError
  | null => Raise OtherError
  | text s => fromisoformat (replace 90 (U "+00:00") s)
  end.

(** [outage_data.get(key, "")] for a column that is [nullable=False]:
    a [null] makes the commit fail. *)
Definition required (field : jfield) : result str :=
  match field with
  | missing => Return []
  | null => Raise OtherError
  | text s => Return s
  end.

Definition nullable (field : jfield) : option str :=
  match field with
  | missing => Some []
  | null => None
  | text s => Some s
  end.

(** The [try] block that creates the row of a new outage; the two
    timestamps are the column defaults.  The commit fails when [id],
    [locality] or [district] is longer than its [String(255)]. *)
Definition new_outage (outage_id : str) (outage_data : feed_item) (n : nat)
    : result Outage :=
  from_time <- parse_time (f_from outage_data) ;;
  to_time <- parse_time (f_to outage_data) ;;
  locality <- required (f_locality outage_data) ;;
  district <- required (f_district outage_data) ;;
  if within 255 outage_id && within 255 locality && within 255 district
  then Return (mk_Outage outage_id locality district
                 (nullable (f_streets outage_data))
                 (nullable (f_date outage_data))
                 from_time to_time (utcnow n) (utcnow (S n)))
  else Raise OtherError.

Definition set_outages (w : world) (o : gmap str Outage) (reads : nat)
    : world :=
  mk_world
    (mk_db (users (store w)) (localities (store w)) (subscriptions (store w))
       o (notifications_sent (store w)))
    reads (sent_log w).

Definition touch (existing : Outage) (now : Z) : Outage :=
  mk_Outage (id existing) (locality existing) (district existing)
    (streets existing) (date_description existing) (from_time existing)
    (to_time existing) (first_seen existing) now.

(** One turn of the loop of [_process_outages]: the new state, and the id
    when the outage is new. *)
Definition process_one (outage_data : feed_item) (w : world)
    : world * option str :=
  match f_id outage_data with
  | text (c :: rest) =>
      let outage_id := c :: rest in
      match outages (store w) !! outage_id with
      | None =>
          match new_outage outage_id outage_data (clock_reads w) with
          | Return outage =>
              (set_outages w (<[outage_id := outage]> (outages (store w)))
                 (S (S (clock_reads w))),
               Some outage_id)
          | Raise _ => (w, None)
          end
      | Some existing =>
          (set_outages w
             (<[outage_id := touch existing (utcnow (clock_reads w))]>
                (outages (store w)))
             (S (clock_reads w)),
           None)
      end
  | _ => (w, None)
  end.

Fixpoint process_loop (all_outages : list feed_item) (w : world)
    (new_outage_ids : list str) : world * list str :=
  match all_outages with
  | [] => (w, new_outage_ids)
  | outage_data :: rest =>
      let '(w', new) := process_one outage_data w in
      process_loop rest w'
        (match new with
         | Some outage_id => new_outage_ids ++ [outage_id]
         | None => new_outage_ids
         end)
  end.

Definition _process_outages (data : feed) (w : world) : world * list str :=
  process_loop (feed_get data (U "today") ++ feed_get data (U "future")) w [].

Definition set_users (w : world) (us : list User) : world :=
  mk_world
    (mk_db us (localities (store w)) (subscriptions (store w))
       (outages (store w)) (notifications_sent (store w)))
    (clock_reads w) (sent_log w).

Definition log_attempt (w : world) (a : attempt) : world :=
  mk_world (store w) (clock_reads w) (sent_log w ++ [a]).

Definition _send_notification_to_user (user_id : Z) (outage : Outage)
    (w : world) : world * bool :=
  let outcome := send_message (length (sent_log w)) user_id (id outage) in
  let w := log_attempt w (mk_attempt user_id (id outage) outcome) in
  match outcome with
  | delivered => (w, true)
  | telegram_error e =>
      if contains (U "blocked") (lower e)
         || contains (U "deactivated") (lower e)
      then (set_users w (deactivate (users (store w)) user_id), false)
      else (w, false)
  | other_error => (w, false)
  end.

Definition record_notification (w : world) (user_id : Z) (outage_id : str)
    : world :=
  mk_world
    (mk_db (users (store w)) (localities (store w)) (subscriptions (store w))
       (outages (store w))
       (<[(user_id, outage_id) := utcnow (clock_reads w)]>
          (notifications_sent (store w))))
    (S (clock_reads w)) (sent_log w).

(** The loop over the subscribers of one outage. *)
Fixpoint notify_users (outage : Outage) (users_with_lang : list (Z * str))
    (w : world) : world :=
  match users_with_lang with
  | [] => w
  | (user_id, user_lang) :: rest =>
      match notifications_sent (store w) !! (user_id, id outage) with
      | Some _ => notify_users outage rest w
      | None =>
          let '(w', success) := _send_notification_to_user user_id outage w in
          notify_users outage rest
            (if success then record_notification w' user_id (id outage)
             else w')
      end
  end.

Fixpoint _send_notifications (outage_ids : list str) (w : world) : world :=
  match outage_ids with
  | [] => w
  | outage_id :: rest =>
      match outages (store w) !! outage_id with
      | None => _send_notifications rest w
      | Some outage =>
          _send_notifications rest
            (notify_users outage
               (get_users_with_language_for_locality (store w)
                  (locality outage))
               w)
      end
  end.

Definition check_for_outages (response : feed_outcome) (w : world) : world :=
  let outages_data := _fetch_outages response in
  match outages_data with
  | [] => w
  | _ =>
      let '(w', new_outages) := _process_outages outages_data w in
      match new_outages with
      | [] => w'
      | _ => _send_notifications new_outages w'
      end
  end.

End Monitor.
End Monitor.

(** ** [bot/config.py] *)

Module Config.



Definition LOCALITIES_PER_PAGE : Z := 10%Z.
Definition DISTRICTS_PER_ROW : nat := 2.

End Config.

(** ** [bot/handlers.py]: the pages of [show_localities], the rows of the
       district keyboard, and the selection of localities

    Of a handler, what is held is the layout it computes (the localities of
    the page shown and the pages its navigation buttons lead to, the rows of
    buttons of the districts) and what it does to the selection and to the
    database; the texts it sends are not. *)

Module Handlers.
Import Config.
#[local] Open Scope Z_scope.

(** [l[start:stop]] *)
Definition slice {A} (l : list A) (start stop : Z) : list A :=
  let n := Z.of_nat (length l) in
  let clip (i : Z) := if i <? 0 then Z.max 0 (n + i) else Z.min i n in
  take (Z.to_nat (clip stop - clip start)) (drop (Z.to_nat (clip start)) l).

(** What [show_localities] lays out: the page shown (after it is brought
    into range), the number of pages, the localities of the page, and the
    pages of the "previous" and "next" buttons when they are shown. *)
Record page_view (A : Type) := mk_page_view {
  shown_page : Z;
  total_pages : Z;
  page_localities : list A;
  previous_page : option Z;
  next_page : option Z
}.
Arguments mk_page_view {A}.
Arguments shown_page {A}.
Arguments total_pages {A}.
Arguments page_localities {A}.
Arguments previous_page {A}.
Arguments next_page {A}.

(** [None] is the message that the district has no locality. *)
Definition show_localities {A} (localities : list A) (page : Z)
    : option (page_view A) :=
  match localities with
  | [] => None
  | _ =>
      let total_pages :=
        (Z.of_nat (length localities) - 1) / LOCALITIES_PER_PAGE + 1 in
      let page := Z.max 0 (Z.min page (total_pages - 1)) in
      let start_idx := page * LOCALITIES_PER_PAGE in
      let end_idx := start_idx + LOCALITIES_PER_PAGE in
      Some (mk_page_view page total_pages
              (slice localities start_idx end_idx)
              (if 0 <? page then Some (page - 1) else None)
              (if page <? total_pages - 1 then Some (page + 1) else None))
  end.

(** The loop that lays the district buttons out in rows; the last step is
    [if row: keyboard.append(row)]. *)
Fixpoint district_rows {A} (districts : list A) (keyboard : list (list A))
    (row : list A) : list (list A) :=
  match districts with
  | [] => match row with
          | [] => keyboard
          | _ => keyboard ++ [row]
          end
  | district :: rest =>
      let row := row ++ [district] in
      if (length row =? DISTRICTS_PER_ROW)%nat
      then district_rows rest (keyboard ++ [row]) []
      else district_rows rest keyboard row
  end.

(** [user_subscription_state]: by user, the localities ticked and not yet
    confirmed. *)
Abbreviation selection := (gmap Z (gset Z)).

(** The branch [locality_...] of [button_callback], before the page is
    drawn again: a user without an entry gets the empty set first. *)
Definition toggle_locality (state : selection) (uid lid : Z) : selection :=
  let chosen := default ∅ (state !! uid) in
  if bool_decide (lid ∈ chosen)
  then <[uid := chosen ∖ {[lid]}]> state
  else <[uid := chosen ∪ {[lid]}]> state.

(** What the branch [confirm_subscriptions] answers. *)
Inductive confirmation :=
  | no_localities_selected
  | subscriptions_saved (count : nat)
  | already_subscribed.

(** The loop over the selection.  Every subscription is committed on its
    own: a commit that fails ends the loop and keeps the earlier ones. *)
Fixpoint add_selected (d : Database.db) (uid : Z) (ids : list Z)
    (added_count : nat) : Database.db * result nat :=
  match ids with
  | [] => (d, Return added_count)
  | lid :: rest =>
      match Database.add_subscription d uid lid with
      | Return (d', added) =>
          add_selected d' uid rest
            (if added then S added_count else added_count)
      | Raise e => (d, Raise e)
      end
  end.

(** The branch [confirm_subscriptions] of [button_callback]: the selection
    and the database it leaves, and its answer.  The set is gone through in
    the order [elements] gives; the entry of the user is deleted only when
    the loop has ended without an exception. *)
Definition confirm_subscriptions `{PyLib} (state : selection)
    (d : Database.db) (uid : Z) (username language_code : option str)
    : selection * Database.db * result confirmation :=
  match state !! uid with
  | None => (state, d, Return no_localities_selected)
  | Some chosen =>
      if bool_decide (chosen = ∅)
      then (state, d, Return no_localities_selected)
      else
        let d :=
          (Database.get_or_create_user d uid username language_code).1 in
        match add_selected d uid (elements chosen) 0 with
        | (d, Return added_count) =>
            (delete uid state, d,
             Return (if (0 <? added_count)%nat
                     then subscriptions_saved added_count
                     else already_subscribed))
        | (d, Raise e) => (state, d, Raise e)
        end
  end.

End Handlers.

(** ** A runtime to run the examples

    [sample_lib] stands for the Python runtime in the examples below: its
    Unicode tables stop at Latin-1 (no letter or digit above U+00FF),
    [fromisoformat] reads the format [isoformat] writes
    ([YYYY-MM-DDTHH:MM:SS[.fff[fff]][+HH:MM]]), and the host is on UTC.  The
    page of the examples is not parsed: [json.loads] and [BeautifulSoup]
    answer for one sample page. *)

Module Sample.
#[local] Open Scope Z_scope.

Fixpoint ascii_digits (acc : Z) (s : str) : option Z :=
  match s with
  | [] => Some acc
  | c :: s' =>
      if ((48 <=? c) && (c <=? 57))%N
      then ascii_digits (10 * acc + Z.of_N (c - 48)) s'
      else None
  end.

Definition number (s : str) : result Z :=
  match ascii_digits 0 s with
  | Some n => Return n
  | None => Raise ValueError
  end.

Definition offset (s : str) : result (option tzinfo) :=
  match s with
  | [] => Return None
  | [sign; h1; h2; 58%N; m1; m2] =>
      if bool_decide (sign = 43%N) || bool_decide (sign = 45%N) then
        h <- number [h1; h2] ;;
        m <- number [m1; m2] ;;
        let off := (h * 60 + m) * 60000000 in
        Return (Some (Datetime.timezone
                        (if bool_decide (sign = 45%N) then - off else off)))
      else Raise ValueError
  | _ => Raise ValueError
  end.

Definition fraction (s : str) : result (Z * str) :=
  match s with
  | 46%N :: f1 :: f2 :: f3 :: rest =>
      match rest with
      | f4 :: f5 :: f6 :: rest' =>
          match ascii_digits 0 [f1; f2; f3; f4; f5; f6] with
          | Some us => Return (us, rest')
          | None => us <- number [f1; f2; f3] ;; Return (us * 1000, rest)
          end
      | _ => us <- number [f1; f2; f3] ;; Return (us * 1000, rest)
      end
  | _ => Return (0, s)
  end.

Definition sample_fromisoformat (s : str) : result datetime :=
  match s with
  | y1 :: y2 :: y3 :: y4 :: 45%N :: m1 :: m2 :: 45%N :: d1 :: d2 :: _
      :: h1 :: h2 :: 58%N :: mi1 :: mi2 :: 58%N :: s1 :: s2 :: rest =>
      year <- number [y1; y2; y3; y4] ;;
      month <- number [m1; m2] ;;
      day <- number [d1; d2] ;;
      hour <- number [h1; h2] ;;
      minute <- number [mi1; mi2] ;;
      second <- number [s1; s2] ;;
      fr <- fraction rest ;;
      tzi <- offset fr.2 ;;
      Datetime.make year month day hour minute second fr.1 tzi
  | _ => Raise ValueError
  end.

Definition sample_district_json : str := U "{sample}".
Definition sample_fragment : str := U "<table id=table-mauritius-1>".

Definition sample_rows : list (list str) :=
  [[U "Le dimanche 13 mars 2022 de 09:30:00 à 13:00:00"; U "TAMARIN";
    U "AVE DES MARLINS"];
   [U "Le dimanche 13 mars 2022 de 09:30:00 à 13:00:00"; U "TAMARIN";
    U "AVE DES MARLINS"];
   [U "Le lundi 14 février 2022 de 22:00:00 à 02:00:00"; U "LA GAULETTE";
    []];
   [U "date inconnue"; U "CASE NOYALE"; U "ROYAL ROAD"]].

Definition sample_lib : PyLib := {|
  unicode_isalnum := fun _ => false;
  unicode_decimal := fun _ => None;
  unicode_lower := fun c => [c];
  fromisoformat := sample_fromisoformat;
  json_loads := fun s =>
    if bool_decide (s = sample_district_json)
    then Some [(U "blackriver", sample_fragment)] else None;
  soup_tables := fun s =>
    if bool_decide (s = sample_fragment)
    then [mk_table (Some (U "table-mauritius-1")) (Some sample_rows)] else [];
  host_utcoffset := 0
|}.

Definition sample_page : str :=
  U "<script>var arDistrictLocations = {sample};</script>".

End Sample.


(** * Vocabulary of the properties *)

(** ** The digest and the text that is hashed *)

Section FingerprintVocabulary.
Import CebParser.




(** Reading back the first escaped character of a JSON string. *)
Definition unhex (h : N) : N := if h <? 58 then h - 48 else h - 87.

Definition unescape_head (s : str) : option (N * str) :=
  match s with
  | [] => None
  | c :: t =>
      if c =? 92 then
        match t with
        | [] => None
        | e :: t' =>
            if e =? 117 then
              match t' with
              | _ :: _ :: h1 :: h2 :: t'' => Some (16 * unhex h1 + unhex h2, t'')
              | _ => None
              end
            else if e =? 110 then Some (10, t')
            else if e =? 114 then Some (13, t')
            else if e =? 116 then Some (9, t')
            else if e =? 98 then Some (8, t')
            else if e =? 102 then Some (12, t')
            else Some (e, t')
        end
      else if c =? 34 then None
      else Some (c, t)
  end.

(** The shape of the text that is hashed. *)
Definition key_date : str := [123; 34; 100; 97; 116; 101; 34; 58; 34].
Definition key_locality : str :=
  [44; 34; 108; 111; 99; 97; 108; 105; 116; 121; 34; 58; 34].
Definition key_streets : str := [44; 34; 115; 116; 114; 101; 101; 116; 115; 34; 58; 34].
Definition key_district : str :=
  [44; 34; 100; 105; 115; 116; 114; 105; 99; 116; 34; 58; 34].

(** A code point that UTF-8 can encode: not a surrogate, at most U+10FFFF. *)
Definition scalar (c : N) : Prop := c < 55296 \/ (57343 < c /\ c < 1114112).

Definition encodable (o : outage) : Prop :=
  Forall scalar (o_date o) /\ Forall scalar (o_locality o)
  /\ Forall scalar (o_streets o) /\ Forall scalar (o_district o).



End FingerprintVocabulary.

(** ** Categorization *)

Section CategorizerVocabulary.
Context `{PyLib}.
Import CebParser.
#[local] Open Scope Z_scope.

(** The start of an outage as [categorize_outages] resolves it, when the
    record has one: the [datetime] held under ['from'], or the reading of
    the string held there. *)
Definition start_of (o : outage) : option (result datetime) :=
  match o_from o with
  | Some (time_obj d) => Some (Return d)
  | Some (time_str (c :: s)) =>
      Some (fromisoformat (replace 90%N (U "+00:00") (c :: s)))
  | _ => None
  end.

(** A start instant on the wall clock of Mauritius: the reading of a
    datetime of that zone, the conversion of the instant of another. *)
Definition local_wall (d : datetime) : Z :=
  match Datetime.tz d with
  | Some MAURITIUS_TZ => Datetime.wall d
  | _ => Datetime.fromutc MAURITIUS_TZ (Datetime.instant d)
  end.

(** The first instant of the local day of [now_wall], and the day boundary
    of the code: 23:59:59.999999 of that day. *)
Definition day_start (now_wall : Z) : Z :=
  now_wall / Datetime.day_us * Datetime.day_us.
Definition day_boundary (now_wall : Z) : Z :=
  day_start now_wall + ((23 * 60 + 59) * 60 + 59) * 1000000 + 999999.

Definition is_today (now_wall : Z) (o : outage) : bool :=
  match categorize_one now_wall o with
  | Return (Some true) => true
  | _ => false
  end.

Definition is_future (now_wall : Z) (o : outage) : bool :=
  match categorize_one now_wall o with
  | Return (Some false) => true
  | _ => false
  end.

End CategorizerVocabulary.

(** ** The result of the HTML pipeline *)

Section PipelineVocabulary.
Import CebParser.








End PipelineVocabulary.

(** ** Change detection and dispatch *)

Section MonitorVocabulary.
Context `{PyLib}.
Variable utcnow : nat -> Z.
Variable send_message : nat -> Z -> str -> Monitor.send_outcome.
Import Database Monitor.

(** Everything of a stored outage but its [last_checked]. *)
Definition same_but_last_checked (o o' : Outage) : Prop :=
  id o' = id o /\ locality o' = locality o /\ district o' = district o
  /\ streets o' = streets o /\ date_description o' = date_description o
  /\ from_time o' = from_time o /\ to_time o' = to_time o
  /\ first_seen o' = first_seen o.

(** The tables other than [outages], and the calls to the gateway. *)
Definition same_but_outages (w w' : world) : Prop :=
  users (store w') = users (store w)
  /\ localities (store w') = localities (store w)
  /\ subscriptions (store w') = subscriptions (store w)
  /\ notifications_sent (store w') = notifications_sent (store w)
  /\ sent_log w' = sent_log w.

(** Whether the row of a new outage can be built from an item and stored:
    its two instants are read, its locality and district are not [null],
    and its identifier, locality and district have at most 255
    characters. *)
Definition row_ok (item : feed_item) : Prop :=
  (exists d, parse_time (f_from item) = Return d)
  /\ (exists d, parse_time (f_to item) = Return d)
  /\ f_locality item <> null /\ f_district item <> null
  /\ forall s, f_id item = text s \/ f_locality item = text s
               \/ f_district item = text s ->
               (length s <= 255)%nat.

(** The pair a call to the gateway is about. *)
Definition pair_of (a : attempt) : Z * str := (a_user a, a_outage a).

(** The failures after which the subscriber is marked inactive. *)
Definition permanent (outcome : send_outcome) : Prop :=
  match outcome with
  | telegram_error e =>
      contains (U "blocked") (lower e) = true
      \/ contains (U "deactivated") (lower e) = true
  | _ => False
  end.

(** A subscriber is active when a row of [users] with the identity has
    [is_active] set. *)
Definition active_in (us : list User) (u : Z) : Prop :=
  exists row, row ∈ us /\ telegram_id row = u /\ is_active row = true.

(** [us'] is [us] where some rows may have been marked inactive. *)
Definition only_deactivated (us us' : list User) : Prop :=
  Forall2 (fun r r' => telegram_id r' = telegram_id r
                       /\ language r' = language r
                       /\ (is_active r' = true -> is_active r = true))
          us us'.

(** After a delivered message to a pair, no later call is about that pair. *)
Fixpoint quiet_after_delivery (l : list attempt) : Prop :=
  match l with
  | [] => True
  | a :: l' =>
      (a_outcome a = delivered -> forall b, b ∈ l' -> pair_of b <> pair_of a)
      /\ quiet_after_delivery l'
  end.

(** The number of delivered messages to a pair among some calls. *)
Definition is_delivery (k : Z * str) (a : attempt) : bool :=
  bool_decide (pair_of a = k)
  && match a_outcome a with delivered => true | _ => false end.

Definition deliveries (k : Z * str) (l : list attempt) : nat :=
  length (List.filter (is_delivery k) l).

(** What a stretch of the dispatcher does: from [w] to [w'], making the
    calls [l], all to subscribers among [targets]. *)
Record dispatched (targets : Z -> Prop) (w w' : world) (l : list attempt)
    : Prop := mk_dispatched {
  d_log : sent_log w' = sent_log w ++ l;
  d_clock : (clock_reads w <= clock_reads w')%nat;
  d_outages : outages (store w') = outages (store w);
  d_localities : localities (store w') = localities (store w);
  d_subscriptions : subscriptions (store w') = subscriptions (store w);
  d_users : only_deactivated (users (store w)) (users (store w'));
  d_kept : forall k t, notifications_sent (store w) !! k = Some t ->
                       notifications_sent (store w') !! k = Some t;
  d_new : forall k, is_Some (notifications_sent (store w') !! k) ->
                    is_Some (notifications_sent (store w) !! k)
                    \/ mk_attempt k.1 k.2 delivered ∈ l;
  d_absent : forall a, a ∈ l ->
                       notifications_sent (store w) !! pair_of a = None;
  d_recorded : forall a, a ∈ l -> a_outcome a = delivered ->
                         is_Some (notifications_sent (store w') !! pair_of a);
  d_quiet : quiet_after_delivery l;
  d_targets : forall a, a ∈ l -> targets (a_user a)
}.

(** Several invocations of the dispatcher, one after the other, each with
    its own list of outages. *)
Definition dispatch_runs (runs : list (list str)) (w : world) : world :=
  fold_left (fun w outage_ids =>
               _send_notifications utcnow send_message outage_ids w)
            runs w.

End MonitorVocabulary.

(** ** The HTML pipeline, row by row *)

Section RowVocabulary.
Context `{PyLib}.
Import CebParser.

(** A page that holds, after [pre], the assignment of the object [{body}]
    closed by a semicolon. *)
Definition district_line (pre body post : str) : str :=
  pre ++ U "var arDistrictLocations = " ++ U "{" ++ body ++ U "};" ++ post.

(** What [.+] accepts: at least one character, none of them a line feed. *)
Definition one_line (body : str) : Prop := body <> [] /\ 10 ∉ body.

(** The first assignment of the page, taken up to the last [};] of its
    line. *)
Definition first_longest (html pre body post : str) : Prop :=
  html = district_line pre body post /\ one_line body
  /\ forall pre' body' post',
       html = district_line pre' body' post' -> one_line body' ->
       (length pre <= length pre')%nat
       /\ (length pre' = length pre -> length body' <= length body)%nat.

(** A record [remove_duplicates] can keep: it has a date and an
    identifier. *)
Definition keyed (o : outage) : bool :=
  negb (bool_decide (o_date o = []))
  && match o_id o with Some (_ :: _) => true | _ => false end.

(** Whether the date of a row is read. *)
Definition date_parses (o : outage) : bool :=
  match parse_french_date (o_date o) with
  | Return (Some _) => true
  | _ => false
  end.

(** A row of the table and the record the pipeline builds for it. *)
Definition built_from (row record : outage) : Prop :=
  o_date record = o_date row /\ o_locality record = o_locality row
  /\ o_streets record = o_streets row /\ o_district record = o_district row
  /\ (exists i, o_id record = Some i /\ generate_outage_id row = Return i)
  /\ exists from_time to_time,
       parse_french_date (o_date row) = Return (Some (from_time, to_time))
       /\ o_from record = Some (time_str (Iso.isoformat from_time))
       /\ o_to record = Some (time_str (Iso.isoformat to_time)).

End RowVocabulary.

(** ** Accounts and subscriptions *)

Section AccountVocabulary.
Import Database Monitor.

(** The constraint [uq_user_locality], and [unique=True] of
    [User.telegram_id]. *)
Definition subscription_pair (s : Subscription) : Z * Z :=
  (user_id s, subscribed_locality s).

Definition unique_subscriptions (d : db) : Prop :=
  NoDup (map subscription_pair (subscriptions d)).

Definition unique_users (d : db) : Prop := NoDup (map telegram_id (users d)).

Definition has_user (d : db) (u : Z) : Prop :=
  exists row, row ∈ users d /\ telegram_id row = u.

Definition has_locality (d : db) (l : Z) : Prop :=
  exists loc, loc ∈ localities d /\ locality_id loc = l.

(** The tables an update of the subscriptions leaves alone. *)
Definition same_but_subscriptions (d d' : db) : Prop :=
  users d' = users d /\ localities d' = localities d
  /\ outages d' = outages d /\ notifications_sent d' = notifications_sent d.

(** The rows behind one line of the query of the dispatcher: an active
    user, one of its subscriptions, and the locality of that subscription,
    which has the name asked for. *)
Definition subscribed_to (d : db) (locality_name : str) (u : Z) : Prop :=
  exists row s loc,
    row ∈ users d /\ s ∈ subscriptions d /\ loc ∈ localities d
    /\ telegram_id row = u /\ is_active row = true
    /\ user_id s = u /\ subscribed_locality s = locality_id loc
    /\ name loc = locality_name.

(** The state of a run with another database. *)
Definition with_store (w : world) (d : db) : world :=
  mk_world d (clock_reads w) (sent_log w).

End AccountVocabulary.

(** ** Sample data *)

(** The record of the parser's own test and its fingerprint. *)
Definition sample_outage : CebParser.outage :=
  CebParser.mk_outage None
    (U "Le dimanche 13 mars 2022 de 09:30:00 à 13:00:00")
    (U "TAMARIN") (U "AVE DES MARLINS") (U "blackriver") None None.

(** The wall clock of Mauritius on 13 March 2022 at 09:30. *)
Definition sample_now : Z := 63782760600000000.

(** The record the pipeline builds for [sample_outage]. *)
Definition sample_parsed : CebParser.outage :=
  CebParser.mk_outage (Some (U "af756731b35c3f72e68becc9840cdf0b"))
    (U "Le dimanche 13 mars 2022 de 09:30:00 à 13:00:00")
    (U "TAMARIN") (U "AVE DES MARLINS") (U "blackriver")
    (Some (CebParser.time_str (U "2022-03-13T05:30:00+00:00")))
    (Some (CebParser.time_str (U "2022-03-13T09:00:00+00:00"))).

(** A start at 23:59:59.999500 of 13 March 2022 in Mauritius, and a record
    that holds it as a [datetime]. *)
Definition late_start : datetime :=
  Datetime.mk_datetime (63782726400000000 + 86399999500) (Some MAURITIUS_TZ).

Definition late_outage : CebParser.outage :=
  CebParser.mk_outage (Some (U "af756731b35c3f72e68becc9840cdf0b"))
    (U "Le dimanche 13 mars 2022 de 23:59:59 à 23:59:59")
    (U "TAMARIN") (U "AVE DES MARLINS") (U "blackriver")
    (Some (CebParser.time_obj late_start)) None.

(** ** A subscriber, a snapshot and two runs *)

Module Scenario.
Import Database Monitor.

Definition outage_id : str := U "af756731b35c3f72e68becc9840cdf0b".

Definition item : feed_item :=
  mk_feed_item (text outage_id) (text (U "TAMARIN")) (text (U "blackriver"))
    (text (U "AVE DES MARLINS"))
    (text (U "Le dimanche 13 mars 2022 de 09:30:00 à 13:00:00"))
    (text (U "2022-03-13T05:30:00Z")) (text (U "2022-03-13T09:00:00Z")).

Definition snapshot : feed := [(U "today", [item]); (U "future", [])].



(** The same record with a locality of 256 characters. *)
Definition long_item : feed_item :=
  mk_feed_item (text outage_id) (text (replicate 256 65)) (text (U "blackriver"))
    (text (U "AVE DES MARLINS"))
    (text (U "Le dimanche 13 mars 2022 de 09:30:00 à 13:00:00"))
    (text (U "2022-03-13T05:30:00Z")) (text (U "2022-03-13T09:00:00Z")).

Definition long_snapshot : feed := [(U "today", [long_item]); (U "future", [])].

(** One active subscriber of TAMARIN, nothing stored yet. *)
Definition start : world :=
  mk_world
    (mk_db [mk_User 7 (Some (U "fr")) true]
       [mk_Locality 1 (U "TAMARIN") 1]
       [mk_Subscription 7 1] ∅ ∅)
    0 [].

(** The same subscriber with two subscriptions, to the localities named
    TAMARIN of two districts. *)
Definition start_twice : world :=
  mk_world
    (mk_db [mk_User 7 (Some (U "fr")) true]
       [mk_Locality 1 (U "TAMARIN") 1; mk_Locality 2 (U "TAMARIN") 2]
       [mk_Subscription 7 1; mk_Subscription 7 2] ∅ ∅)
    0 [].

Definition clock (n : nat) : Z := Z.of_nat n.

(** The gateway times out on the first call and delivers afterwards. *)
Definition flaky (n : nat) (chat_id : Z) (outage : str) : send_outcome :=
  match n with
  | O => telegram_error (U "Timed out")
  | S _ => delivered
  end.

(** The subscriber has blocked the bot. *)
Definition blocking (n : nat) (chat_id : Z) (outage : str) : send_outcome :=
  telegram_error (U "Forbidden: bot was blocked by the user").

(** The gateway delivers. *)
Definition reliable (n : nat) (chat_id : Z) (outage : str) : send_outcome :=
  delivered.

Definition run (w : world) : world :=
  @check_for_outages Sample.sample_lib clock flaky (feed_document snapshot) w.

Definition stored : Outage :=
  mk_Outage outage_id (U "TAMARIN") (U "blackriver")
    (Some (U "AVE DES MARLINS"))
    (Some (U "Le dimanche 13 mars 2022 de 09:30:00 à 13:00:00"))
    (Datetime.mk_datetime 63782746200000000 (Some (Datetime.timezone 0)))
    (Datetime.mk_datetime 63782758800000000 (Some (Datetime.timezone 0)))
    0 1.

End Scenario.

(** ** A subscriber who comes back, and a long district *)

Module Visitor.
Import Database Monitor.

(** The subscriber of [Scenario.start], marked inactive and without a
    subscription; and the database after the subscriber has subscribed to
    TAMARIN again. *)
Definition inactive : world :=
  mk_world
    (mk_db [mk_User 7 (Some (U "fr")) false]
       [mk_Locality 1 (U "TAMARIN") 1] [] ∅ ∅)
    0 [].

Definition resubscribed : db :=
  mk_db [mk_User 7 (Some (U "fr")) false]
    [mk_Locality 1 (U "TAMARIN") 1] [mk_Subscription 7 1] ∅ ∅.

(** A district of twenty-five localities. *)
Definition twenty_five : list Z := map Z.of_nat (seq 1 25).

(** The subscriber has ticked TAMARIN. *)
Definition ticked : Handlers.selection := {[ 7%Z := {[ 1%Z ]} ]}.

End Visitor.

(** * Properties *)

(** ** Date parsing *)

Lemma rbind_Return {A B} (r : result A) (k : A -> result B) (b : B) :
  rbind r k = Return b -> exists a, r = Return a /\ k a = Return b.
Proof. destruct r; simpl; [eauto | discriminate]. Qed.

Ltac bind_inv H :=
  let a := fresh "v" in
  let E := fresh "E" in
  apply rbind_Return in H as (a & E & H).

Section ParserFacts.
Context `{PyLib}.
Import CebParser.

(** C7.  The date string of the parser's own example, read in Mauritius
    (UTC+4), gives the start 2022-03-13T05:30:00 and the end
    2022-03-13T09:00:00, both in UTC. *)
Theorem parse_french_date_example :
  exists from_time to_time,
    parse_french_date (U "Le dimanche 13 mars 2022 de 09:30:00 à 13:00:00")
      = Return (Some (from_time, to_time))
    /\ Datetime.make 2022 3 13 5 30 0 0 (Some UTC_TZ) = Return from_time
    /\ Datetime.make 2022 3 13 9 0 0 0 (Some UTC_TZ) = Return to_time
    /\ Iso.isoformat from_time = U "2022-03-13T05:30:00+00:00"
    /\ Iso.isoformat to_time = U "2022-03-13T09:00:00+00:00".
Proof.
  eexists _, _. split; [vm_compute; reflexivity|].
  repeat split; vm_compute; reflexivity.
Qed.

Lemma make_Return y m d hh mm ss us tzi dt :
  Datetime.make y m d hh mm ss us tzi = Return dt ->
  (0 <= hh <= 23 /\ 0 <= mm <= 59 /\ 0 <= ss <= 59 /\ 0 <= us <= 999999)%Z
  /\ dt = Datetime.mk_datetime
            ((((Datetime.ymd2ord y m d - 1) * 24 + hh) * 60 + mm)
               * 60 * 1000000 + ss * 1000000 + us)%Z tzi.
Proof.
  unfold Datetime.make. intros Hm.
  destruct (_ && _) eqn:Hc in Hm; [|discriminate].
  injection Hm as <-.
  repeat (apply andb_prop in Hc as [Hc ?]).
  repeat match goal with
         | Hx : (_ <=? _)%Z = true |- _ => apply Z.leb_le in Hx
         end.
  split; [lia | reflexivity].
Qed.

(** The offsets of [ZoneInfo("Indian/Mauritius")], by wall clock reading. *)
Lemma utcoffset_mauritius (w : Z) :
  Datetime.utcoffset MAURITIUS_TZ w
  = (if w <? 60147447000000000 then 13800000000
     else if w <? 62538656400000000 then 14400000000
     else if w <? 62552649600000000 then 18000000000
     else if w <? 63360586800000000 then 14400000000
     else if w <? 63373888800000000 then 18000000000
     else 14400000000)%Z.
Proof. reflexivity. Qed.

Lemma utcoffset_mauritius_bounds (w : Z) :
  (13800000000 <= Datetime.utcoffset MAURITIUS_TZ w <= 18000000000)%Z.
Proof.
  rewrite utcoffset_mauritius.
  repeat match goal with
         | |- context [(?a <? ?b)%Z] => destruct (Z.ltb_spec a b); cbv iota
         end; lia.
Qed.




End ParserFacts.



(** ** The fingerprint *)

Section DigestFacts.









Lemma hexdigit_in n : nth n MD5.hexdigits 48 ∈ MD5.hexdigits.
Proof.
  apply list_elem_of_In.
  destruct (Nat.lt_ge_cases n (length MD5.hexdigits)) as [Hn|Hn].
  - apply nth_In, Hn.
  - rewrite nth_overflow by exact Hn. vm_compute. tauto.
Qed.


End DigestFacts.

Section SerializationFacts.
Import CebParser.



Lemma unescape_quote t : unescape_head (34 :: t) = None.
Proof. reflexivity. Qed.


Lemma json_str_shape (o : outage) :
  json_str o
  = key_date ++ Json.escape (o_date o)
    ++ 34 :: key_locality ++ Json.escape (o_locality o)
    ++ 34 :: key_streets ++ Json.escape (o_streets o)
    ++ 34 :: key_district ++ Json.escape (o_district o) ++ [34; 125].
Proof.
  unfold json_str, Json.member, Json.dumps_str.
  change (Json.escape (U "date")) with (U "date").
  change (Json.escape (U "locality")) with (U "locality").
  change (Json.escape (U "streets")) with (U "streets").
  change (Json.escape (U "district")) with (U "district").
  repeat rewrite <- app_assoc. reflexivity.
Qed.


End SerializationFacts.

Section EncodingFacts.





End EncodingFacts.

Section FingerprintFacts.
Import CebParser.

Lemma ascii_scalar (s : str) : Forall (fun c => c < 128) s -> Forall scalar s.
Proof.
  intros Hs. eapply Forall_impl; [exact Hs|]. intros c Hc. left. simpl in Hc. lia.
Qed.

Lemma encode_utf8_total (s : str) :
  Forall scalar s -> exists bs, encode_utf8 s = Return bs.
Proof.
  induction 1 as [|c s Hc _ [rest IH]]; [eexists; reflexivity|].
  simpl. rewrite IH. unfold encode_char.
  destruct (N.ltb_spec c 128); [eexists; reflexivity|].
  destruct (N.ltb_spec c 2048); [eexists; reflexivity|].
  destruct (N.leb_spec 55296 c), (N.leb_spec c 57343); simpl;
    try (destruct Hc; lia);
    destruct (N.ltb_spec c 65536); try (eexists; reflexivity);
    destruct (N.ltb_spec c 1114112); try (eexists; reflexivity);
    destruct Hc; lia.
Qed.

Lemma hexdigit_ascii n : Json.hexdigit n < 128.
Proof.
  unfold Json.hexdigit. pose proof (hexdigit_in (N.to_nat n)) as Hin.
  revert Hin. generalize (nth (N.to_nat n) MD5.hexdigits 48). intros c Hin.
  vm_compute in Hin.
  repeat (apply elem_of_cons in Hin as [->|Hin]; [reflexivity|]).
  inversion Hin.
Qed.

Lemma escape_scalar (s : str) : Forall scalar s -> Forall scalar (Json.escape s).
Proof.
  intros Hs. unfold Json.escape. apply Forall_concat, Forall_fmap.
  eapply Forall_impl; [exact Hs|]. intros c Hc. simpl.
  unfold Json.escape_char.
  repeat (destruct (_ =? _);
          [apply ascii_scalar; repeat (constructor; [lia|]); constructor|]).
  destruct (_ <? _).
  - apply ascii_scalar.
    repeat (constructor; [first [lia | apply hexdigit_ascii]|]). constructor.
  - constructor; [exact Hc | constructor].
Qed.

Lemma json_str_scalar (o : outage) : encodable o -> Forall scalar (json_str o).
Proof.
  intros (Hd & Hl & Hs & Hdi). rewrite json_str_shape.
  assert (Hk : forall k, Forall (fun c => c < 128) k -> Forall scalar k)
    by apply ascii_scalar.
  repeat first
    [ apply Forall_app; split
    | apply Forall_cons; split
    | apply escape_scalar; assumption
    | apply Hk; repeat (constructor; [lia|]); constructor
    | left; lia
    | apply Forall_nil ].
Qed.

(** The parts of the hashed text that do not come from the record hold no
    white space. *)
Lemma keys_without_space :
  existsb isspace (key_date ++ key_locality ++ key_streets ++ key_district
                   ++ [34; 125]) = false.
Proof. reflexivity. Qed.





End FingerprintFacts.



(** ** Categorization *)

Section CategorizerFacts.
Context `{PyLib}.
Import CebParser.
#[local] Open Scope Z_scope.

Lemma categorize_loop_filter now_wall (l : list outage) :
  forall today future today' future',
    categorize_loop now_wall l today future = Return (today', future') ->
    today' = today ++ List.filter (is_today now_wall) l
    /\ future' = future ++ List.filter (is_future now_wall) l.
Proof.
  induction l as [|o l IH]; intros today future today' future' Hl.
  - injection Hl as <- <-. rewrite !app_nil_r. done.
  - simpl in Hl. unfold is_today, is_future. simpl.
    destruct (categorize_one now_wall o) as [[[|]|]|] eqn:Hc; simpl in Hl;
      try discriminate; apply IH in Hl as [-> ->];
      rewrite <- ?app_assoc; done.
Qed.

Lemma categorize_loop_returns now_wall (l : list outage) :
  forall today future r,
    categorize_loop now_wall l today future = Return r ->
    forall o, o ∈ l -> exists c, categorize_one now_wall o = Return c.
Proof.
  induction l as [|o' l IH]; intros today future r Hl o Hin;
    [inversion Hin|].
  simpl in Hl.
  destruct (categorize_one now_wall o') as [c|] eqn:Hc'; [|discriminate].
  apply elem_of_cons in Hin as [->|Hin]; [eauto|].
  simpl in Hl. destruct c as [[|]|]; eapply IH; eauto.
Qed.

Lemma astimezone_local host (d : datetime) (z : tzinfo) (l : datetime) :
  Datetime.tz d = Some z ->
  Datetime.astimezone host d MAURITIUS_TZ = Return l ->
  Datetime.wall l = local_wall d /\ Datetime.tz l = Some MAURITIUS_TZ.
Proof.
  unfold Datetime.astimezone, local_wall, Datetime.instant. intros Hd Ha.
  rewrite Hd in *.
  destruct z; cbn [Datetime.same_tz] in Ha.
  - injection Ha as <-. split; [reflexivity | exact Hd].
  - destruct (_ && _) in Ha; [|discriminate]. injection Ha as <-.
    split; reflexivity.
  - destruct (_ && _) in Ha; [|discriminate]. injection Ha as <-.
    split; reflexivity.
Qed.

Lemma categorize_one_start now_wall (o : outage) (d : datetime) (z : tzinfo)
    (c : option bool) :
  start_of o = Some (Return d) -> Datetime.tz d = Some z ->
  categorize_one now_wall o = Return c ->
  c = Some (local_wall d <=? day_boundary now_wall).
Proof.
  unfold start_of, categorize_one. intros Hs Hz Hc.
  assert (Ha : exists l, Datetime.astimezone host_utcoffset d MAURITIUS_TZ
                         = Return l
                         /\ c = Some (Datetime.le l (end_of_today now_wall))).
  { destruct (o_from o) as [[[|ch s]|d']|]; try discriminate.
    - injection Hs as Hs. rewrite Hs in Hc. simpl in Hc.
      destruct (Datetime.astimezone _ _ _) as [l|]; [|discriminate].
      injection Hc as <-. eauto.
    - injection Hs as ->. simpl in Hc.
      destruct (Datetime.astimezone _ _ _) as [l|]; [|discriminate].
      injection Hc as <-. eauto. }
  destruct Ha as (l & Hl & ->).
  destruct (astimezone_local _ _ _ _ Hz Hl) as [Hw Ht].
  unfold Datetime.le. rewrite Ht. simpl. rewrite Hw.
  unfold day_boundary, day_start, Datetime.day_us. reflexivity.
Qed.

(** C6, as the code has it.  The day boundary is the last microsecond of the
    current day of Mauritius, 23:59:59.999999: a record whose start, on the
    wall clock of Mauritius, is at or before it is in ['today'], and a
    record whose start is after it is in ['future'].  So a start at
    23:59:59.999 is ['today'] and a start one second later is ['future']. *)
Theorem categorization_boundary (now_wall : Z)
    (outages_by_district : list (str * list outage))
    (today future : list outage) :
  categorize_outages now_wall outages_by_district = Return (today, future) ->
  forall (o : outage) (d : datetime) (z : tzinfo),
    o ∈ concat (map snd outages_by_district) ->
    start_of o = Some (Return d) -> Datetime.tz d = Some z ->
    (local_wall d <= day_boundary now_wall -> o ∈ today /\ o ∉ future)
    /\ (day_boundary now_wall < local_wall d -> o ∈ future /\ o ∉ today)
    /\ (local_wall d = day_start now_wall + ((23 * 60 + 59) * 60 + 59) * 1000000
                       + 999000 -> o ∈ today)
    /\ (local_wall d = day_start now_wall + ((23 * 60 + 59) * 60 + 59) * 1000000
                       + 999000 + 1000000 -> o ∈ future).
Proof.
  unfold categorize_outages. intros Hc o d z Hin Hs Hz.
  destruct (categorize_loop_filter _ _ _ _ _ _ Hc) as [-> ->]. simpl.
  destruct (categorize_loop_returns _ _ _ _ _ Hc o Hin) as [c Hone].
  pose proof (categorize_one_start _ _ _ _ _ Hs Hz Hone) as ->.
  assert (Htoday : local_wall d <= day_boundary now_wall ->
                   o ∈ List.filter (is_today now_wall)
                         (concat (map snd outages_by_district))
                   /\ o ∉ List.filter (is_future now_wall)
                           (concat (map snd outages_by_district))).
  { intros Hle. rewrite !list_elem_of_In, !filter_In, <- !list_elem_of_In.
    unfold is_today, is_future. rewrite Hone.
    destruct (Z.leb_spec (local_wall d) (day_boundary now_wall)); [|lia].
    split; [done | intros [_ ?]; discriminate]. }
  assert (Hfuture : day_boundary now_wall < local_wall d ->
                    o ∈ List.filter (is_future now_wall)
                          (concat (map snd outages_by_district))
                    /\ o ∉ List.filter (is_today now_wall)
                            (concat (map snd outages_by_district))).
  { intros Hlt. rewrite !list_elem_of_In, !filter_In, <- !list_elem_of_In.
    unfold is_today, is_future. rewrite Hone.
    destruct (Z.leb_spec (local_wall d) (day_boundary now_wall)); [lia|].
    split; [done | intros [_ ?]; discriminate]. }
  split; [exact Htoday|]. split; [exact Hfuture|]. split.
  - intros Heq. apply Htoday. unfold day_boundary. lia.
  - intros Heq. apply Hfuture. unfold day_boundary. lia.
Qed.

End CategorizerFacts.

(** On 13 March 2022 at 09:30 in Mauritius, the outage of the sample page
    (start 05:30 UTC, that is 09:30 local) is of today. *)
Lemma categorization_boundary_witness :
  @CebParser.categorize_outages Sample.sample_lib sample_now
    [(U "blackriver", [sample_parsed])] = Return ([sample_parsed], [])
  /\ sample_parsed ∈ [sample_parsed].
Proof.
  assert (Hc : @CebParser.categorize_outages Sample.sample_lib sample_now
                 [(U "blackriver", [sample_parsed])]
               = Return ([sample_parsed], [])) by (vm_compute; reflexivity).
  split; [exact Hc|].
  destruct (@categorization_boundary Sample.sample_lib sample_now _ _ _ Hc
              sample_parsed
              (Datetime.mk_datetime 63782746200000000
                 (Some (Datetime.timezone 0)))
              (Datetime.timezone 0)) as [Htoday _].
  - simpl. apply list_elem_of_here.
  - vm_compute. reflexivity.
  - reflexivity.
  - apply Htoday. vm_compute. discriminate.
Defined.

(** C6 as stated puts the boundary at 23:59:59.999.  A start at
    23:59:59.999500 of the current day of Mauritius is later than that, and
    the code puts it in ['today']. *)
Lemma start_after_millisecond_boundary_is_today :
  day_start sample_now = 63782726400000000%Z
  /\ Iso.isoformat late_start = U "2022-03-13T23:59:59.999500+04:00"
  /\ (day_start sample_now + ((23 * 60 + 59) * 60 + 59) * 1000000 + 999000
      < local_wall late_start)%Z
  /\ @CebParser.categorize_outages Sample.sample_lib sample_now
       [(U "blackriver", [late_outage])] = Return ([late_outage], []).
Proof. repeat split; vm_compute; reflexivity. Qed.

(** ** Identifiers in the result of the HTML pipeline *)

Section PipelineFacts.
Context `{PyLib}.
Import CebParser.



(** [remove_duplicates] keeps records of its argument, and no identifier
    twice. *)
Lemma remove_duplicates_loop_spec (outages : list outage) :
  forall seen,
    NoDup (map fst seen) ->
    (forall k o, (k, o) ∈ seen -> o_id o = Some k) ->
    let seen' := remove_duplicates_loop seen outages in
    NoDup (map fst seen')
    /\ (forall k o, (k, o) ∈ seen' ->
          o_id o = Some k /\ ((k, o) ∈ seen \/ o ∈ outages)).
Proof.
  induction outages as [|x outages IH]; intros seen Hnd Hid; simpl.
  - split; [exact Hnd|]. intros k o Hin. split; [eauto | by left].
  - assert (Hskip :
      NoDup (map fst (remove_duplicates_loop seen outages))
      /\ (forall k o, (k, o) ∈ remove_duplicates_loop seen outages ->
            o_id o = Some k /\ ((k, o) ∈ seen \/ o ∈ x :: outages))).
    { destruct (IH seen Hnd Hid) as [H1 H2]. split; [exact H1|].
      intros k o Hin. destruct (H2 k o Hin) as [? [?|?]]; split; auto.
      right. by right. }
    destruct (bool_decide (o_date x = [])); [exact Hskip|].
    destruct (o_id x) as [i|] eqn:Hx; [|exact Hskip].
    destruct (bool_decide_reflect (i <> [] /\ i ∉ map fst seen)) as [[_ Hni]|_];
      [|exact Hskip].
    destruct (IH (seen ++ [(i, x)])) as [H1 H2].
    + rewrite map_app. apply NoDup_app. split; [exact Hnd|].
      split; [|apply NoDup_singleton].
      intros k Hk Hk'. apply list_elem_of_singleton in Hk'. simpl in Hk'.
      subst k. contradiction.
    + intros k o Hin. apply elem_of_app in Hin as [Hin|Hin]; [eauto|].
      apply list_elem_of_singleton in Hin. injection Hin as -> ->. exact Hx.
    + split; [exact H1|]. intros k o Hin.
      destruct (H2 k o Hin) as [Hk [Hs|Ho]]; split; auto.
      * apply elem_of_app in Hs as [Hs|Hs]; [by left|].
        apply list_elem_of_singleton in Hs. injection Hs as -> ->.
        right. by left.
      * right. by right.
Qed.

Lemma remove_duplicates_spec (outages : list outage) :
  NoDup (map o_id (remove_duplicates outages))
  /\ (forall o, o ∈ remove_duplicates outages -> o ∈ outages).
Proof.
  unfold remove_duplicates.
  destruct (remove_duplicates_loop_spec outages []) as [Hnd Hin].
  { constructor. }
  { intros k o Hko. inversion Hko. }
  simpl in Hnd, Hin. split.
  - assert (Hid : map o_id (map snd (remove_duplicates_loop [] outages))
                  = map Some (map fst (remove_duplicates_loop [] outages))).
    { rewrite !map_map. apply map_ext_in. intros [k o] Hko. simpl.
      apply list_elem_of_In in Hko. apply Hin in Hko as [-> _]. reflexivity. }
    rewrite Hid. apply (NoDup_fmap_2 Some). exact Hnd.
  - intros o Ho. apply list_elem_of_In, in_map_iff in Ho as ([k o'] & <- & Hko).
    apply list_elem_of_In, Hin in Hko as [_ [Hko|Hko]]; [inversion Hko|].
    exact Hko.
Qed.

Lemma NoDup_map_inj {A B} (f : A -> B) (l : list A) (x y : A) :
  NoDup (map f l) -> x ∈ l -> y ∈ l -> f x = f y -> x = y.
Proof.
  induction l as [|a l IH]; intros Hnd Hx Hy Hf; [inversion Hx|].
  simpl in Hnd. apply NoDup_cons in Hnd as [Ha Hnd].
  apply elem_of_cons in Hx as [->|Hx]; apply elem_of_cons in Hy as [->|Hy];
    auto.
  - exfalso. apply Ha. rewrite Hf. apply list_elem_of_In, in_map.
    by apply list_elem_of_In.
  - exfalso. apply Ha. rewrite <- Hf. apply list_elem_of_In, in_map.
    by apply list_elem_of_In.
Qed.


Lemma NoDup_map_filter {A B} (f : A -> B) (p : A -> bool) (l : list A) :
  NoDup (map f l) -> NoDup (map f (List.filter p l)).
Proof.
  induction l as [|a l IH]; intros Hnd; [constructor|].
  simpl in *. apply NoDup_cons in Hnd as [Ha Hnd].
  destruct (p a); [|auto]. simpl. apply NoDup_cons. split; [|auto].
  intros Hin. apply Ha.
  apply list_elem_of_In, in_map_iff in Hin as (y & Hy & Hyl).
  apply filter_In in Hyl as [Hyl _]. rewrite <- Hy.
  apply list_elem_of_In, in_map, Hyl.
Qed.


Lemma dict_set_elem {A} (d : list (str * A)) (key : str) (value : A) k v :
  (k, v) ∈ dict_set d key value -> (k = key /\ v = value) \/ (k, v) ∈ d.
Proof.
  induction d as [|[k0 v0] d IH]; simpl; intros Hin.
  - apply list_elem_of_singleton in Hin. injection Hin as -> ->. by left.
  - destruct (bool_decide_reflect (k0 = key)) as [->|Hne].
    + apply elem_of_cons in Hin as [Hin|Hin]; [|right; by right].
      injection Hin as -> ->. by left.
    + apply elem_of_cons in Hin as [Hin|Hin]; [right; rewrite Hin; by left|].
      destruct (IH Hin); [by left | right; by right].
Qed.



Lemma by_district_in (obd : list (str * list outage)) (o : outage) :
  o ∈ concat (map snd obd) -> exists d l, (d, l) ∈ obd /\ o ∈ l.
Proof.
  induction obd as [|[d l] obd IH]; simpl; intros Hin; [inversion Hin|].
  apply elem_of_app in Hin as [Hin|Hin].
  - exists d, l. split; [by left | exact Hin].
  - destruct (IH Hin) as (d' & l' & ? & ?). exists d', l'. split; [by right|done].
Qed.


Lemma today_xor_future now_wall (o : outage) :
  is_today now_wall o = true -> is_future now_wall o = true -> False.
Proof.
  unfold is_today, is_future.
  destruct (categorize_one now_wall o) as [[[|]|]|]; discriminate.
Qed.


End PipelineFacts.


Section CollisionAcrossDistricts.
Import CebParser.





End CollisionAcrossDistricts.

(** ** Failures of the two sources *)

Section FailureFacts.
Context `{PyLib}.
Variable utcnow : nat -> Z.
Variable send_message : nat -> Z -> str -> Monitor.send_outcome.
Import CebParser.

(** C9, as the code has it.  The HTML variant raises [httpx.HTTPError] when
    the page cannot be fetched and [ValueError] when the assignment is
    absent from the page or is not valid JSON: two kinds of failure.  The
    variant of the JSON feed catches both kinds and returns the empty
    document for either, and the run then stops without a change. *)
Theorem source_failures (html : str) (now_wall : Z) (w : Monitor.world) :
  (Re.search false DISTRICT_PATTERN html = None
   \/ exists g gs, Re.search false DISTRICT_PATTERN html = Some (g :: gs)
                   /\ json_loads g = None) ->
  fetch_and_parse_outages http_error now_wall = Raise HTTPError
  /\ fetch_and_parse_outages (http_text html) now_wall = Raise ValueError
  /\ HTTPError <> ValueError
  /\ Monitor._fetch_outages Monitor.feed_http_error = []
  /\ Monitor._fetch_outages Monitor.feed_malformed = []
  /\ Monitor.check_for_outages utcnow send_message Monitor.feed_http_error w = w
  /\ Monitor.check_for_outages utcnow send_message Monitor.feed_malformed w = w.
Proof.
  intros Hbad. split; [reflexivity|]. split.
  - unfold fetch_and_parse_outages, fetch_ceb_page. cbn [rbind].
    assert (Hd : extract_district_data html = []).
    { unfold extract_district_data.
      destruct Hbad as [->|(g & gs & -> & ->)]; reflexivity. }
    rewrite Hd. reflexivity.
  - repeat split; discriminate || reflexivity.
Qed.

End FailureFacts.

(** A page without the assignment. *)
Lemma source_failures_witness :
  @CebParser.fetch_and_parse_outages Sample.sample_lib
    (CebParser.http_text (U "<html><body>maintenance</body></html>"))
    sample_now = Raise ValueError.
Proof.
  refine (proj1 (proj2 (@source_failures Sample.sample_lib
                          (fun n => Z.of_nat n)
                          (fun _ _ _ => Monitor.delivered)
                          (U "<html><body>maintenance</body></html>")
                          sample_now
                          (Monitor.mk_world
                             (Database.mk_db [] [] [] ∅ ∅) 0 [])
                          _))).
  left. vm_compute. reflexivity.
Defined.

(** C9 as stated has both variants tell a fetch failure from a malformed
    payload.  The variant of the JSON feed returns the same empty document
    for both. *)
Lemma feed_failures_look_alike :
  Monitor._fetch_outages Monitor.feed_http_error
  = Monitor._fetch_outages Monitor.feed_malformed.
Proof. reflexivity. Qed.

(** ** Change detection *)

Section DetectionFacts.
Context `{PyLib}.
Variable utcnow : nat -> Z.
Import Database Monitor.

Lemma within_spec (n : nat) (s : str) :
  within n s = true <-> (length s <= n)%nat.
Proof. unfold within. apply Nat.leb_le. Qed.

Lemma new_outage_row_ok outage_id item n :
  f_id item = text outage_id ->
  (exists o, new_outage utcnow outage_id item n = Return o) <-> row_ok item.
Proof.
  intros Hid. unfold new_outage, row_ok, required. split.
  - intros [o Ho].
    destruct (parse_time (f_from item)); [|discriminate].
    destruct (parse_time (f_to item)); [|discriminate]. cbn [rbind] in Ho.
    rewrite Hid.
    destruct (f_locality item) as [| |loc]; try discriminate;
      destruct (f_district item) as [| |dis]; try discriminate;
      cbn [rbind] in Ho;
      (destruct (_ && _) eqn:Hw in Ho; [|discriminate]);
      apply andb_prop in Hw as [Hw Hw3]; apply andb_prop in Hw as [Hw1 Hw2];
      apply within_spec in Hw1, Hw2, Hw3;
      (split; [eauto|]); (split; [eauto|]); (split; [discriminate|]);
      (split; [discriminate|]);
      intros s [Hs|[Hs|Hs]]; try discriminate; injection Hs as <-; assumption.
  - intros ([d1 H1] & [d2 H2] & Hl & Hd & Hlen). rewrite H1, H2.
    cbn [rbind].
    assert (Hw1 : within 255 outage_id = true)
      by (apply within_spec, Hlen; auto).
    assert (Hw0 : within 255 [] = true) by (apply within_spec, Nat.le_0_l).
    destruct (f_locality item) as [| |loc] eqn:El; try contradiction;
      destruct (f_district item) as [| |dis] eqn:Ed; try contradiction;
      cbn [rbind]; rewrite Hw1, ?Hw0, ?(proj2 (within_spec 255 loc)),
        ?(proj2 (within_spec 255 dis)) by (apply Hlen; auto);
      cbn [andb]; eauto.
Qed.

Lemma touch_same o now : same_but_last_checked o (touch o now).
Proof. repeat split. Qed.

Lemma same_but_last_checked_trans o1 o2 o3 :
  same_but_last_checked o1 o2 -> same_but_last_checked o2 o3 ->
  same_but_last_checked o1 o3.
Proof. unfold same_but_last_checked. intuition congruence. Qed.

Lemma same_but_last_checked_refl o : same_but_last_checked o o.
Proof. repeat split. Qed.

(** One turn of the loop. *)
Lemma process_one_spec (item : feed_item) (w : world) :
  let w' := (process_one utcnow item w).1 in
  same_but_outages w w'
  /\ (clock_reads w <= clock_reads w')%nat
  /\ (forall i o, outages (store w) !! i = Some o ->
        exists o', outages (store w') !! i = Some o'
                   /\ same_but_last_checked o o'
                   /\ (f_id item = text i -> i <> [] ->
                       exists k, (clock_reads w <= k < clock_reads w')%nat
                                 /\ last_checked o' = utcnow k)
                   /\ (f_id item <> text i -> o' = o))
  /\ (forall i, outages (store w) !! i = None ->
        is_Some (outages (store w') !! i) ->
        (process_one utcnow item w).2 = Some i /\ f_id item = text i
        /\ row_ok item)
  /\ (forall i, f_id item = text i -> i <> [] -> row_ok item ->
        is_Some (outages (store w') !! i))
  /\ (forall i, (process_one utcnow item w).2 = Some i ->
        outages (store w) !! i = None /\ f_id item = text i /\ i <> []
        /\ row_ok item).
Proof.
  unfold process_one.
  destruct (f_id item) as [| |[|c rest]] eqn:Hid;
    try (simpl; split; [repeat split|]; split; [lia|];
         split; [intros i o Ho; exists o; split; [exact Ho|];
                 split; [apply same_but_last_checked_refl|];
                 split; [intros [= <-]; congruence | reflexivity]|];
         split; [intros i Hn [x Hx]; congruence|];
         split; [intros i [= <-]; congruence | discriminate]).
  set (outage_id := c :: rest).
  destruct (outages (store w) !! outage_id) as [existing|] eqn:Hex.
  - simpl. split; [repeat split|]. split; [lia|]. split; [|split; [|split]].
    + intros i o Ho. destruct (decide (i = outage_id)) as [->|Hne].
      * rewrite lookup_insert_eq. eexists. split; [reflexivity|].
        assert (o = existing) as -> by congruence.
        split; [apply touch_same|]. split; [|congruence].
        intros _ _. exists (clock_reads w). split; [lia | reflexivity].
      * rewrite lookup_insert_ne by congruence. exists o.
        split; [exact Ho|]. split; [apply same_but_last_checked_refl|].
        split; [intros [= ->]; contradiction | reflexivity].
    + intros i Hn Hs. destruct (decide (i = outage_id)) as [->|Hne];
        [congruence|].
      rewrite lookup_insert_ne in Hs by congruence.
      destruct Hs as [x Hx]. congruence.
    + intros i [= <-] _ _. rewrite lookup_insert_eq. eauto.
    + discriminate.
  - destruct (new_outage utcnow outage_id item (clock_reads w)) as [o|e] eqn:Hn.
    + simpl. split; [repeat split|]. split; [lia|].
      assert (Hok : row_ok item)
        by (apply (new_outage_row_ok outage_id item (clock_reads w) Hid);
            eauto).
      split; [|split; [|split]].
      * intros i o0 Ho. assert (i <> outage_id) by congruence.
        rewrite lookup_insert_ne by congruence. exists o0.
        split; [exact Ho|]. split; [apply same_but_last_checked_refl|].
        split; [intros [= ->]; contradiction | reflexivity].
      * intros i Hi Hs. destruct (decide (i = outage_id)) as [->|Hne]; [done|].
        rewrite lookup_insert_ne in Hs by congruence.
        destruct Hs as [x Hx]. congruence.
      * intros i [= <-] _ _. rewrite lookup_insert_eq. eauto.
      * intros i [= <-]. done.
    + simpl. split; [repeat split|]. split; [lia|].
      split; [|split; [|split]].
      * intros i o0 Ho. exists o0. split; [exact Ho|].
        split; [apply same_but_last_checked_refl|].
        split; [intros [= ->]; congruence | reflexivity].
      * intros i Hi [x Hx]. congruence.
      * intros i [= <-] _ Hok.
        apply (new_outage_row_ok outage_id item (clock_reads w) Hid) in Hok
          as [o Ho]. congruence.
      * discriminate.
Qed.

Lemma same_but_outages_trans w1 w2 w3 :
  same_but_outages w1 w2 -> same_but_outages w2 w3 -> same_but_outages w1 w3.
Proof. unfold same_but_outages. intuition congruence. Qed.

Lemma process_loop_untouched (l : list feed_item) (i : str) :
  (forall item, item ∈ l -> f_id item <> text i) ->
  forall (w : world) (acc : list str) (o : Outage),
    outages (store w) !! i = Some o ->
    outages (store (process_loop utcnow l w acc).1) !! i = Some o.
Proof.
  induction l as [|x l IH]; intros Hnot w acc o Ho; simpl; [exact Ho|].
  pose proof (process_one_spec x w) as Hx.
  destruct (process_one utcnow x w) as [wx nx]. simpl in Hx.
  destruct Hx as (_ & _ & Hk & _).
  destruct (Hk i o Ho) as (ox & Hox & _ & _ & Hu).
  rewrite Hu in Hox by (apply Hnot; by left).
  apply IH; [|exact Hox]. intros it Hit. apply Hnot. by right.
Qed.

(** The loop of [_process_outages]. *)
Lemma process_loop_spec (l : list feed_item) :
  forall (w : world) (acc : list str),
    let w' := (process_loop utcnow l w acc).1 in
    same_but_outages w w'
    /\ (clock_reads w <= clock_reads w')%nat
    /\ (forall i o, outages (store w) !! i = Some o ->
          exists o', outages (store w') !! i = Some o'
                     /\ same_but_last_checked o o'
                     /\ ((exists item, item ∈ l /\ f_id item = text i) ->
                         i <> [] ->
                         exists k, (clock_reads w <= k < clock_reads w')%nat
                                   /\ last_checked o' = utcnow k))
    /\ (forall item i, item ∈ l -> f_id item = text i -> i <> [] ->
          row_ok item -> is_Some (outages (store w') !! i)).
Proof.
  induction l as [|item l IH]; intros w acc; simpl.
  - split; [repeat split|]. split; [lia|]. split.
    + intros i o Ho. exists o. split; [exact Ho|].
      split; [apply same_but_last_checked_refl|].
      intros (item & Hin & _). inversion Hin.
    + intros item i Hin. inversion Hin.
  - pose proof (process_one_spec item w) as Hone.
    destruct (process_one utcnow item w) as [w1 new] eqn:Hp. simpl in Hone.
    destruct Hone as (Hsame1 & Hreads1 & Hkeep1 & _ & Hadd1 & _).
    set (acc1 := match new with
                 | Some outage_id => acc ++ [outage_id]
                 | None => acc
                 end).
    destruct (IH w1 acc1) as (Hsame2 & Hreads2 & Hkeep2 & Hadd2).
    split; [eapply same_but_outages_trans; eauto|]. split; [lia|]. split.
    + intros i o Ho.
      destruct (Hkeep1 i o Ho) as (o1 & Ho1 & Hs1 & Ht1 & Hu1).
      destruct (Hkeep2 i o1 Ho1) as (o2 & Ho2 & Hs2 & Ht2).
      exists o2. split; [exact Ho2|].
      split; [eapply same_but_last_checked_trans; eauto|].
      intros (it & Hin & Hid) Hne.
      destruct (decide (Exists (fun it' => f_id it' = text i) l)) as [Hl|Hl];
        rewrite Exists_exists in Hl.
      * destruct (Ht2 Hl Hne) as (k & Hk & Hlast). exists k. split; [lia|done].
      * apply elem_of_cons in Hin as [->|Hin]; [|exfalso; eauto].
        destruct (Ht1 Hid Hne) as (k & Hk & Hlast).
        assert (Hnot : forall it', it' ∈ l -> f_id it' <> text i) by eauto.
        assert (o2 = o1) as ->.
        { pose proof (process_loop_untouched l i Hnot w1 acc1 o1 Ho1).
          congruence. }
        exists k. split; [lia|done].
    + intros it i Hin Hid Hne Hok.
      apply elem_of_cons in Hin as [->|Hin]; [|eauto].
      destruct (Hadd1 i Hid Hne Hok) as [o1 Ho1].
      destruct (Hkeep2 i o1 Ho1) as (o2 & Ho2 & _). eauto.
Qed.

Lemma process_loop_known (l : list feed_item) :
  forall (w : world) (acc : list str),
    (forall item i, item ∈ l -> f_id item = text i -> i <> [] ->
       row_ok item -> is_Some (outages (store w) !! i)) ->
    (process_loop utcnow l w acc).2 = acc
    /\ forall i, is_Some (outages (store (process_loop utcnow l w acc).1) !! i) ->
                 is_Some (outages (store w) !! i).
Proof.
  induction l as [|item l IH]; intros w acc Hknown; simpl; [done|].
  pose proof (process_one_spec item w) as Hone.
  destruct (process_one utcnow item w) as [w1 new] eqn:Hp. simpl in Hone.
  destruct Hone as (_ & _ & Hkeep & Hfresh & _ & Hnew).
  assert (new = None) as ->.
  { destruct new as [i|]; [|reflexivity].
    destruct (Hnew i eq_refl) as (Habs & Hid & Hne & Hok).
    destruct (Hknown item i) as [o Ho]; [by left|done..|]. congruence. }
  destruct (IH w1 acc) as [Hacc Hdom].
  { intros it i Hin Hid Hne Hok.
    destruct (Hknown it i) as [o Ho]; [by right|done..|].
    destruct (Hkeep i o Ho) as (o' & Ho' & _). eauto. }
  split; [exact Hacc|]. intros i Hi. apply Hdom in Hi.
  destruct (outages (store w) !! i) as [o|] eqn:Hw; [eauto|].
  destruct (Hfresh i Hw Hi) as [Hsome _]. discriminate.
Qed.



End DetectionFacts.

(** ** Dispatch *)

Section DispatchFacts.
Context `{PyLib}.
Variable utcnow : nat -> Z.
Variable send_message : nat -> Z -> str -> Monitor.send_outcome.
Import Database Monitor.

Lemma only_deactivated_refl us : only_deactivated us us.
Proof. apply Forall2_same_length_lookup. split; [reflexivity|].
  intros i x y Hx Hy. assert (x = y) as -> by congruence. done.
Qed.

Lemma only_deactivated_trans us1 us2 us3 :
  only_deactivated us1 us2 -> only_deactivated us2 us3 ->
  only_deactivated us1 us3.
Proof.
  unfold only_deactivated. intros H12 H23.
  eapply Forall2_trans; [|exact H12|exact H23].
  simpl. intros x y z (? & ? & ?) (? & ? & ?).
  repeat split; [congruence..|auto].
Qed.

Lemma only_deactivated_active us us' u :
  only_deactivated us us' -> active_in us' u -> active_in us u.
Proof.
  intros Hd (row' & Hin & Hid & Hact).
  apply list_elem_of_lookup in Hin as [i Hi].
  destruct (Forall2_lookup_r _ _ _ _ _ Hd Hi) as (row & Hrow & Hid' & _ & Ha).
  exists row. split; [eapply list_elem_of_lookup_2; eauto|].
  split; [congruence | auto].
Qed.

Lemma deactivate_only us u : only_deactivated us (deactivate us u).
Proof.
  induction us as [|r us IH]; simpl; [constructor|].
  destruct (bool_decide (telegram_id r = u)).
  - constructor; [simpl; split; [done|split; [done|discriminate]]|].
    apply only_deactivated_refl.
  - constructor; [done | exact IH].
Qed.

Lemma deactivate_inactive us u :
  NoDup (map telegram_id us) -> ~ active_in (deactivate us u) u.
Proof.
  induction us as [|r us IH]; simpl; intros Hnd (row & Hin & Hid & Hact).
  - inversion Hin.
  - apply NoDup_cons in Hnd as [Hr Hnd].
    destruct (bool_decide_reflect (telegram_id r = u)) as [Heq|Hne].
    + apply elem_of_cons in Hin as [->|Hin]; [discriminate|].
      apply Hr. rewrite Heq, <- Hid. apply list_elem_of_In, in_map.
      by apply list_elem_of_In.
    + apply elem_of_cons in Hin as [->|Hin]; [contradiction|].
      apply IH; [exact Hnd|]. exists row. done.
Qed.

Lemma quiet_app l1 l2 :
  quiet_after_delivery l1 -> quiet_after_delivery l2 ->
  (forall a b, a ∈ l1 -> a_outcome a = delivered -> b ∈ l2 ->
               pair_of b <> pair_of a) ->
  quiet_after_delivery (l1 ++ l2).
Proof.
  induction l1 as [|a l1 IH]; simpl; intros H1 H2 Hx; [exact H2|].
  destruct H1 as [Ha H1]. split.
  - intros Hd b Hb. apply elem_of_app in Hb as [Hb|Hb]; [auto|].
    eapply Hx; eauto. by left.
  - apply IH; [exact H1 | exact H2|]. intros a' b Ha'. apply Hx. by right.
Qed.

Lemma quiet_deliveries l k :
  quiet_after_delivery l -> (deliveries k l <= 1)%nat.
Proof.
  unfold deliveries. induction l as [|a l IH]; simpl; intros Hq; [lia|].
  destruct Hq as [Ha Hq]. specialize (IH Hq).
  destruct (is_delivery k a) eqn:Hd; [|exact IH]. simpl.
  unfold is_delivery in Hd. apply andb_prop in Hd as [Hk Hd].
  apply bool_decide_eq_true in Hk.
  assert (Hdel : a_outcome a = delivered)
    by (destruct (a_outcome a); done).
  assert (Hnone : List.filter (is_delivery k) l = []).
  { destruct (List.filter (is_delivery k) l) as [|b rest] eqn:Hf;
      [reflexivity|].
    assert (Hb : In b (List.filter (is_delivery k) l))
      by (rewrite Hf; by left).
    apply filter_In in Hb as [Hb Hbk]. unfold is_delivery in Hbk.
    apply andb_prop in Hbk as [Hbk _]. apply bool_decide_eq_true in Hbk.
    exfalso. apply (Ha Hdel b); [by apply list_elem_of_In | congruence]. }
  rewrite Hnone. simpl. lia.
Qed.

Lemma dispatched_refl targets w : dispatched targets w w [].
Proof.
  split; try done.
  - by rewrite app_nil_r.
  - apply only_deactivated_refl.
  - intros k Hk. by left.
  - intros a Ha. inversion Ha.
  - intros a Ha. inversion Ha.
  - intros a Ha. inversion Ha.
Qed.

Lemma dispatched_trans targets w w1 w2 l1 l2 :
  dispatched targets w w1 l1 -> dispatched targets w1 w2 l2 ->
  dispatched targets w w2 (l1 ++ l2).
Proof.
  intros D1 D2. split.
  - rewrite (d_log _ _ _ _ D2), (d_log _ _ _ _ D1), app_assoc. reflexivity.
  - pose proof (d_clock _ _ _ _ D1). pose proof (d_clock _ _ _ _ D2). lia.
  - rewrite (d_outages _ _ _ _ D2). apply (d_outages _ _ _ _ D1).
  - rewrite (d_localities _ _ _ _ D2). apply (d_localities _ _ _ _ D1).
  - rewrite (d_subscriptions _ _ _ _ D2). apply (d_subscriptions _ _ _ _ D1).
  - eapply only_deactivated_trans; [apply D1 | apply D2].
  - intros k t Hk. eapply d_kept; [exact D2|]. eapply d_kept; eauto.
  - intros k Hk. destruct (d_new _ _ _ _ D2 k Hk) as [Hk1|Hin].
    + destruct (d_new _ _ _ _ D1 k Hk1) as [?|Hin]; [by left|].
      right. apply elem_of_app. by left.
    + right. apply elem_of_app. by right.
  - intros a Ha. apply elem_of_app in Ha as [Ha|Ha].
    + eapply d_absent; eauto.
    + pose proof (d_absent _ _ _ _ D2 a Ha) as Hn.
      destruct (notifications_sent (store w) !! pair_of a) as [t|] eqn:Hw;
        [|reflexivity].
      rewrite (d_kept _ _ _ _ D1 _ _ Hw) in Hn. discriminate.
  - intros a Ha Hd. apply elem_of_app in Ha as [Ha|Ha].
    + destruct (d_recorded _ _ _ _ D1 a Ha Hd) as [t Ht].
      exists t. eapply d_kept; eauto.
    + eapply d_recorded; eauto.
  - apply quiet_app; [apply D1 | apply D2|].
    intros a b Ha Hd Hb Heq.
    destruct (d_recorded _ _ _ _ D1 a Ha Hd) as [t Ht].
    pose proof (d_absent _ _ _ _ D2 b Hb) as Hn. rewrite Heq in Hn.
    congruence.
  - intros a Ha. apply elem_of_app in Ha as [Ha|Ha];
      [eapply d_targets; [exact D1|exact Ha]
      |eapply d_targets; [exact D2|exact Ha]].
Qed.

Lemma dispatched_weaken (targets targets' : Z -> Prop) w w' l :
  (forall a, a ∈ l -> targets (a_user a) -> targets' (a_user a)) ->
  dispatched targets w w' l -> dispatched targets' w w' l.
Proof.
  intros Himp D. destruct D. split; try assumption.
  intros a Ha. apply Himp; auto.
Qed.

(** One call of [_send_notification_to_user]: exactly one call to the
    gateway; [True] is returned on a delivery only; only a permanent failure
    changes the store, and only by marking the subscriber inactive. *)
Lemma send_notification_to_user_spec (u : Z) (o : Outage) (w : world) :
  let outcome := send_message (length (sent_log w)) u (id o) in
  let r := _send_notification_to_user send_message u o w in
  sent_log r.1 = sent_log w ++ [mk_attempt u (id o) outcome]
  /\ clock_reads r.1 = clock_reads w
  /\ (r.2 = true <-> outcome = delivered)
  /\ outages (store r.1) = outages (store w)
  /\ localities (store r.1) = localities (store w)
  /\ subscriptions (store r.1) = subscriptions (store w)
  /\ notifications_sent (store r.1) = notifications_sent (store w)
  /\ (permanent outcome ->
      users (store r.1) = deactivate (users (store w)) u)
  /\ (~ permanent outcome -> store r.1 = store w).
Proof.
  unfold _send_notification_to_user. simpl.
  destruct (send_message (length (sent_log w)) u (id o)) as [|e|] eqn:Hs.
  - simpl. repeat split; done.
  - simpl.
    destruct (contains (U "blocked") (lower e)
              || contains (U "deactivated") (lower e)) eqn:Hp; simpl.
    + repeat split; try done. intros Hn. exfalso. apply Hn.
      apply orb_prop in Hp. exact Hp.
    + apply orb_false_elim in Hp as [Hb Hd].
      repeat split; try done. intros [Hx|Hx]; congruence.
  - simpl. repeat split; done.
Qed.

(** One turn of the loop over the subscribers, when no record exists. *)
Lemma attempt_dispatched (u : Z) (o : Outage) (w : world) :
  notifications_sent (store w) !! (u, id o) = None ->
  let r := _send_notification_to_user send_message u o w in
  let w' := if r.2 then record_notification utcnow r.1 u (id o) else r.1 in
  dispatched (fun v => v = u) w w'
    [mk_attempt u (id o) (send_message (length (sent_log w)) u (id o))].
Proof.
  intros Hnone.
  destruct (send_notification_to_user_spec u o w)
    as (Hlog & Hclock & Hok & Hout & Hloc & Hsub & Hnot & Hperm & Htrans).
  set (outcome := send_message (length (sent_log w)) u (id o)) in *.
  destruct (_send_notification_to_user send_message u o w) as [w1 ok].
  simpl in *.
  assert (Husers : only_deactivated (users (store w)) (users (store w1))).
  { destruct outcome as [|e|] eqn:Ho.
    - rewrite Htrans by (simpl; tauto). apply only_deactivated_refl.
    - destruct (contains (U "blocked") (lower e)
                || contains (U "deactivated") (lower e)) eqn:Hp.
      + rewrite Hperm by (simpl; apply orb_prop; exact Hp).
        apply deactivate_only.
      + apply orb_false_elim in Hp as [Hb Hd].
        rewrite Htrans by (simpl; intros [?|?]; congruence).
        apply only_deactivated_refl.
    - rewrite Htrans by (simpl; tauto). apply only_deactivated_refl. }
  assert (Hone : forall a : attempt,
             a ∈ [mk_attempt u (id o) outcome] ->
             a = mk_attempt u (id o) outcome)
    by (intros a Ha; by apply list_elem_of_singleton in Ha).
  destruct ok.
  - assert (Hdel : outcome = delivered) by (apply Hok; reflexivity).
    split; simpl;
      [ exact Hlog | lia | exact Hout | exact Hloc | exact Hsub | exact Husers
      | | | | | | ].
    + intros k t Hk. rewrite Hnot.
      rewrite lookup_insert_ne; [exact Hk|]. congruence.
    + intros k Hk. rewrite Hnot in Hk.
      destruct (decide (k = (u, id o))) as [->|Hne].
      * right. rewrite Hdel. by left.
      * rewrite lookup_insert_ne in Hk by congruence. by left.
    + intros a Ha. rewrite (Hone a Ha). exact Hnone.
    + intros a Ha _. rewrite (Hone a Ha). unfold pair_of. simpl.
      rewrite Hnot, lookup_insert_eq. eauto.
    + split; [|exact I]. intros _ b Hb. inversion Hb.
    + intros a Ha. rewrite (Hone a Ha). reflexivity.
  - assert (Hnd : outcome <> delivered).
    { intros Hd. apply Hok in Hd. discriminate. }
    split; simpl;
      [ exact Hlog | lia | exact Hout | exact Hloc | exact Hsub | exact Husers
      | | | | | | ].
    + intros k t Hk. rewrite Hnot. exact Hk.
    + intros k Hk. rewrite Hnot in Hk. by left.
    + intros a Ha. rewrite (Hone a Ha). exact Hnone.
    + intros a Ha Hd. rewrite (Hone a Ha) in Hd. contradiction.
    + split; [|exact I]. intros _ b Hb. inversion Hb.
    + intros a Ha. rewrite (Hone a Ha). reflexivity.
Qed.

(** The loop over the subscribers of one outage. *)
Lemma notify_users_dispatched (o : Outage) (ul : list (Z * str)) :
  forall w : world,
    exists l,
      dispatched (fun v => v ∈ map fst ul) w (notify_users utcnow send_message o ul w) l
      /\ (forall a, a ∈ l -> a_outage a = id o)
      /\ (forall v, v ∈ map fst ul ->
            notifications_sent (store w) !! (v, id o) = None ->
            exists a, a ∈ l /\ a_user a = v /\ a_outage a = id o).
Proof.
  induction ul as [|[u lang] ul IH]; intros w; simpl.
  - exists []. split; [apply dispatched_refl|].
    split; intros x Hx; inversion Hx.
  - destruct (notifications_sent (store w) !! (u, id o)) as [t|] eqn:Hrec.
    + destruct (IH w) as (l & D & Hout & Hcov). exists l.
      split; [|split; [exact Hout|]].
      * eapply dispatched_weaken; [|exact D]. intros a _ Ha. by right.
      * intros v Hv Hn. apply elem_of_cons in Hv as [->|Hv]; [congruence|].
        auto.
    + pose proof (attempt_dispatched u o w Hrec) as D1. simpl in D1.
      destruct (_send_notification_to_user send_message u o w) as [w1 ok].
      simpl in D1.
      set (w2 := if ok then record_notification utcnow w1 u (id o) else w1)
        in *.
      destruct (IH w2) as (l & D2 & Hout & Hcov).
      eexists. split; [|split].
      * eapply dispatched_trans.
        -- eapply dispatched_weaken; [|exact D1]. intros a _ ->. by left.
        -- eapply dispatched_weaken; [|exact D2]. intros a _ Ha. by right.
      * intros a Ha. apply elem_of_cons in Ha as [->|Ha]; [reflexivity|auto].
      * intros v Hv Hn.
        destruct (decide (v = u)) as [->|Hne].
        -- eexists. split; [by left|]. done.
        -- apply elem_of_cons in Hv as [?|Hv]; [contradiction|].
           destruct (Hcov v Hv) as (a & Ha & Hu & Ho).
           { destruct (notifications_sent (store w2) !! (v, id o)) eqn:Hw2;
               [|reflexivity].
             destruct (d_new _ _ _ _ D1 (v, id o)) as [[t Ht]|Hin];
               [eauto|congruence|].
             apply list_elem_of_singleton in Hin. injection Hin as Hv' _.
             contradiction. }
           exists a. split; [by right|done].
Qed.

Lemma get_users_active (d : db) (locality_name : str) (u : Z) :
  u ∈ map fst (get_users_with_language_for_locality d locality_name) ->
  active_in (users d) u.
Proof.
  unfold get_users_with_language_for_locality. intros Hin.
  apply list_elem_of_In, in_map_iff in Hin as ([u' lang] & <- & Hin).
  apply list_elem_of_In in Hin.
  apply list_elem_of_bind in Hin as (row & Hin & Hrow).
  apply list_elem_of_bind in Hin as (s & Hin & _).
  apply list_elem_of_bind in Hin as (loc & Hin & _).
  destruct (_ && _) eqn:Hc in Hin; [|inversion Hin].
  apply list_elem_of_singleton in Hin. injection Hin as -> _.
  apply andb_prop in Hc as [_ Hact].
  exists row. done.
Qed.

(** [_send_notifications]. *)
Lemma send_notifications_dispatched (outage_ids : list str) :
  forall w : world,
    exists l,
      dispatched (active_in (users (store w))) w
        (_send_notifications utcnow send_message outage_ids w) l
      /\ (forall a, a ∈ l ->
            exists k o, k ∈ outage_ids /\ outages (store w) !! k = Some o
                        /\ a_outage a = id o).
Proof.
  induction outage_ids as [|outage_id rest IH]; intros w; simpl.
  - exists []. split; [apply dispatched_refl|]. intros a Ha. inversion Ha.
  - destruct (outages (store w) !! outage_id) as [o|] eqn:Ho.
    + set (ul := get_users_with_language_for_locality (store w) (locality o)).
      destruct (notify_users_dispatched o ul w) as (l1 & D1 & Hout1 & _).
      destruct (IH (notify_users utcnow send_message o ul w))
        as (l2 & D2 & Hout2).
      exists (l1 ++ l2). split.
      * eapply dispatched_trans.
        -- eapply dispatched_weaken; [|exact D1]. intros a _ Ha.
           eapply get_users_active. exact Ha.
        -- eapply dispatched_weaken; [|exact D2]. intros a _ Ha.
           eapply only_deactivated_active; [apply D1 | exact Ha].
      * intros a Ha. apply elem_of_app in Ha as [Ha|Ha].
        -- exists outage_id, o. split; [by left|]. split; [exact Ho|auto].
        -- destruct (Hout2 a Ha) as (k & o' & Hk & Ho' & Hid).
           exists k, o'. split; [by right|].
           rewrite (d_outages _ _ _ _ D1) in Ho'. done.
    + destruct (IH w) as (l & D & Hout). exists l. split; [exact D|].
      intros a Ha. destruct (Hout a Ha) as (k & o' & Hk & Ho' & Hid).
      exists k, o'. split; [by right|done].
Qed.

Lemma dispatch_runs_dispatched (runs : list (list str)) :
  forall w : world,
    exists l, dispatched (fun _ => True) w (dispatch_runs utcnow send_message runs w) l.
Proof.
  induction runs as [|outage_ids runs IH]; intros w; simpl.
  - exists []. apply dispatched_refl.
  - destruct (send_notifications_dispatched outage_ids w) as (l1 & D1 & _).
    destruct (IH (_send_notifications utcnow send_message outage_ids w))
      as (l2 & D2).
    exists (l1 ++ l2). eapply dispatched_trans; [|exact D2].
    eapply dispatched_weaken; [|exact D1]. done.
Qed.

(** C1.  Over any number of invocations of the dispatcher: no call to the
    gateway is made for a pair that had a record when the invocations
    started; a record that appears was preceded by a delivered message to
    its pair, and every delivered message is recorded; after a delivered
    message to a pair no call is made for that pair again.  So each pair
    gets at most one delivered message, and none when it had a record. *)
Theorem notification_at_most_once (runs : list (list str)) (w : world) :
  exists l,
    sent_log (dispatch_runs utcnow send_message runs w) = sent_log w ++ l
    /\ (forall a, a ∈ l ->
          notifications_sent (store w) !! pair_of a = None)
    /\ (forall k t, notifications_sent (store w) !! k = Some t ->
          notifications_sent (store (dispatch_runs utcnow send_message runs w)) !! k = Some t)
    /\ (forall k, is_Some (notifications_sent
                             (store (dispatch_runs utcnow send_message runs w)) !! k) ->
          is_Some (notifications_sent (store w) !! k)
          \/ mk_attempt k.1 k.2 delivered ∈ l)
    /\ (forall a, a ∈ l -> a_outcome a = delivered ->
          is_Some (notifications_sent
                     (store (dispatch_runs utcnow send_message runs w)) !! pair_of a))
    /\ quiet_after_delivery l
    /\ (forall k, (deliveries k l <= 1)%nat)
    /\ (forall k, is_Some (notifications_sent (store w) !! k) ->
          deliveries k l = 0%nat).
Proof.
  destruct (dispatch_runs_dispatched runs w) as [l D]. exists l.
  split; [apply D|]. split; [apply D|]. split; [apply D|].
  split; [apply D|]. split; [apply D|]. split; [apply D|].
  split; [intros k; apply quiet_deliveries, D|].
  intros k [t Hk]. unfold deliveries.
  destruct (List.filter (is_delivery k) l) as [|a rest] eqn:Hf; [reflexivity|].
  assert (Ha : In a (List.filter (is_delivery k) l)) by (rewrite Hf; by left).
  apply filter_In in Ha as [Ha Hd]. unfold is_delivery in Hd.
  apply andb_prop in Hd as [Hk' _]. apply bool_decide_eq_true in Hk'.
  apply list_elem_of_In in Ha.
  pose proof (d_absent _ _ _ _ D a Ha) as Hn. rewrite Hk' in Hn. congruence.
Qed.

(** A run of the pipeline leaves stored every outage of the snapshot whose
    row can be built. *)
Lemma check_for_outages_stores (response : feed_outcome) (w : world) :
  forall item i,
    item ∈ feed_get (_fetch_outages response) (U "today")
           ++ feed_get (_fetch_outages response) (U "future") ->
    f_id item = text i -> i <> [] -> row_ok item ->
    is_Some (outages (store (check_for_outages utcnow send_message
                               response w)) !! i).
Proof.
  intros item i Hin Hid Hne Hok. unfold check_for_outages.
  destruct (_fetch_outages response) as [|entry data] eqn:Hdata;
    [inversion Hin|].
  unfold _process_outages.
  set (l := feed_get (entry :: data) (U "today")
            ++ feed_get (entry :: data) (U "future")) in *.
  destruct (process_loop_spec utcnow l w []) as (_ & _ & _ & Hadd).
  destruct (process_loop utcnow l w []) as [w1 new]. simpl in Hadd.
  specialize (Hadd item i Hin Hid Hne Hok).
  destruct new as [|n new]; [exact Hadd|].
  destruct (send_notifications_dispatched (n :: new) w1) as (l' & D & _).
  rewrite (d_outages _ _ _ _ D). exact Hadd.
Qed.

(** A run of the pipeline on a snapshot all of whose outages are stored
    makes no call to the gateway. *)
Lemma check_for_outages_known (response : feed_outcome) (w : world) :
  (forall item i,
     item ∈ feed_get (_fetch_outages response) (U "today")
            ++ feed_get (_fetch_outages response) (U "future") ->
     f_id item = text i -> i <> [] -> row_ok item ->
     is_Some (outages (store w) !! i)) ->
  same_but_outages w (check_for_outages utcnow send_message response w).
Proof.
  intros Hknown. unfold check_for_outages.
  destruct (_fetch_outages response) as [|entry data] eqn:Hdata;
    [repeat split|].
  unfold _process_outages.
  set (l := feed_get (entry :: data) (U "today")
            ++ feed_get (entry :: data) (U "future")) in *.
  destruct (process_loop_known utcnow l w [] Hknown) as [Hnew _].
  destruct (process_loop_spec utcnow l w []) as (Hsame & _).
  destruct (process_loop utcnow l w []) as [w1 new]. simpl in *.
  subst new. exact Hsame.
Qed.

(** C5, as the code has it.
    - One call of [_send_notification_to_user] makes one call to the
      gateway and writes no record; on a permanent failure it marks the
      subscriber inactive, on another failure it leaves the store as it
      was.
    - A dispatch makes no call to a subscriber who is inactive when it
      starts, and leaves him inactive; a pair without a record and without
      a delivered message still has no record after it.
    - When an outage is dispatched, every active subscriber of its locality
      who has no record for it is called, whatever happened to the others;
      so after a transient failure a later dispatch of the outage calls the
      subscriber again.
    - The scheduled run dispatches only the outages it found new: run again
      on the same snapshot, it makes no call. *)
Theorem delivery_failures (u : Z) (o : Outage) (k : str)
    (outage_ids : list str) (response : feed_outcome) (w : world) :
  (let outcome := send_message (length (sent_log w)) u (id o) in
   let r := _send_notification_to_user send_message u o w in
   sent_log r.1 = sent_log w ++ [mk_attempt u (id o) outcome]
   /\ notifications_sent (store r.1) = notifications_sent (store w)
   /\ (outcome <> delivered -> r.2 = false)
   /\ (permanent outcome ->
       users (store r.1) = deactivate (users (store w)) u
       /\ (NoDup (map telegram_id (users (store w))) ->
           ~ active_in (users (store r.1)) u))
   /\ (~ permanent outcome -> store r.1 = store w))
  /\ (let w' := _send_notifications utcnow send_message outage_ids w in
      exists l,
        sent_log w' = sent_log w ++ l
        /\ (forall v, ~ active_in (users (store w)) v ->
              (forall a, a ∈ l -> a_user a <> v)
              /\ ~ active_in (users (store w')) v)
        /\ (forall p, notifications_sent (store w) !! p = None ->
              mk_attempt p.1 p.2 delivered ∉ l ->
              notifications_sent (store w') !! p = None))
  /\ (outages (store w) !! k = Some o ->
      exists l,
        sent_log (_send_notifications utcnow send_message [k] w)
        = sent_log w ++ l
        /\ forall v,
             v ∈ map fst (get_users_with_language_for_locality (store w)
                            (locality o)) ->
             notifications_sent (store w) !! (v, id o) = None ->
             exists a, a ∈ l /\ a_user a = v /\ a_outage a = id o)
  /\ (let w1 := check_for_outages utcnow send_message response w in
      let w2 := check_for_outages utcnow send_message response w1 in
      sent_log w2 = sent_log w1
      /\ users (store w2) = users (store w1)
      /\ notifications_sent (store w2) = notifications_sent (store w1)).
Proof.
  split; [|split; [|split]].
  - destruct (send_notification_to_user_spec u o w)
      as (Hlog & _ & Hok & _ & _ & _ & Hnot & Hperm & Htrans).
    simpl. split; [exact Hlog|]. split; [exact Hnot|]. split; [|split].
    + intros Hne.
      destruct (_send_notification_to_user send_message u o w).2 eqn:Hr;
        [|reflexivity].
      exfalso. apply Hne, Hok. reflexivity.
    + intros Hp. split; [exact (Hperm Hp)|]. intros Hnd.
      rewrite (Hperm Hp). by apply deactivate_inactive.
    + exact Htrans.
  - simpl. destruct (send_notifications_dispatched outage_ids w)
      as (l & D & _).
    exists l. split; [apply D|]. split.
    + intros v Hv. split.
      * intros a Ha Heq. apply Hv. rewrite <- Heq.
        exact (d_targets _ _ _ _ D a Ha).
      * intros Hact. apply Hv.
        eapply only_deactivated_active; [apply D | exact Hact].
    + intros p Hp Hnot.
      destruct (notifications_sent
                  (store (_send_notifications utcnow send_message
                            outage_ids w)) !! p) as [t|] eqn:Hw';
        [|reflexivity].
      destruct (d_new _ _ _ _ D p) as [[t' Ht']|Hin];
        [eauto|congruence|contradiction].
  - intros Ho. simpl. rewrite Ho.
    destruct (notify_users_dispatched o
                (get_users_with_language_for_locality (store w) (locality o))
                w) as (l & D & _ & Hcov).
    exists l. split; [apply D | exact Hcov].
  - simpl.
    assert (Hsame : same_but_outages
              (check_for_outages utcnow send_message response w)
              (check_for_outages utcnow send_message response
                 (check_for_outages utcnow send_message response w))).
    { apply check_for_outages_known. apply check_for_outages_stores. }
    destruct Hsame as (Hu & _ & _ & Hn & Hl). done.
Qed.

End DispatchFacts.


(** Nor is a record whose locality has 256 characters: the commit of its row
    fails at the first run and again at the second. *)
Lemma over_long_record_is_never_known :
  let w1 := (@Monitor._process_outages Sample.sample_lib Scenario.clock
               Scenario.long_snapshot Scenario.start).1 in
  let r2 := @Monitor._process_outages Sample.sample_lib Scenario.clock
              Scenario.long_snapshot w1 in
  Database.outages (Monitor.store w1) !! Scenario.outage_id = None
  /\ r2.2 = []
  /\ Database.outages (Monitor.store r2.1) !! Scenario.outage_id = None.
Proof. repeat split; vm_compute; reflexivity. Qed.

(** C5 as stated has the next run call again a subscriber whose delivery
    failed for a transient reason.  Here the first run calls subscriber 7
    and the gateway times out: no record is written and the subscriber stays
    active.  The second run, on the same snapshot, makes no call. *)
Lemma next_run_does_not_retry :
  Monitor.sent_log (Scenario.run Scenario.start)
  = [Monitor.mk_attempt 7 Scenario.outage_id
       (Monitor.telegram_error (U "Timed out"))]
  /\ Database.users (Monitor.store (Scenario.run Scenario.start))
     = [Database.mk_User 7 (Some (U "fr")) true]
  /\ Database.notifications_sent (Monitor.store (Scenario.run Scenario.start))
       !! (7%Z, Scenario.outage_id) = None
  /\ Database.outages (Monitor.store (Scenario.run Scenario.start))
       !! Scenario.outage_id = Some Scenario.stored
  /\ Monitor.sent_log (Scenario.run (Scenario.run Scenario.start))
     = Monitor.sent_log (Scenario.run Scenario.start).
Proof. repeat split; vm_compute; reflexivity. Qed.


(** With a gateway that delivers, the first run calls the subscriber once
    and records it; dispatching the same outage again makes no call. *)
Example delivered_once :
  let w1 := @Monitor.check_for_outages Sample.sample_lib Scenario.clock
              Scenario.reliable (Monitor.feed_document Scenario.snapshot)
              Scenario.start in
  let w2 := @Monitor._send_notifications Sample.sample_lib Scenario.clock
              Scenario.reliable [Scenario.outage_id] w1 in
  Monitor.sent_log w1
  = [Monitor.mk_attempt 7 Scenario.outage_id Monitor.delivered]
  /\ Database.notifications_sent (Monitor.store w1)
       !! (7%Z, Scenario.outage_id) = Some 2%Z
  /\ Monitor.sent_log w2 = Monitor.sent_log w1.
Proof. repeat split; vm_compute; reflexivity. Qed.

(** When the subscriber has blocked the bot, the first run marks him
    inactive and writes no record; dispatching the outage again makes no
    call to him. *)
Example blocked_subscriber_is_deactivated :
  let w1 := @Monitor.check_for_outages Sample.sample_lib Scenario.clock
              Scenario.blocking (Monitor.feed_document Scenario.snapshot)
              Scenario.start in
  let w2 := @Monitor._send_notifications Sample.sample_lib Scenario.clock
              Scenario.reliable [Scenario.outage_id] w1 in
  Database.users (Monitor.store w1)
  = [Database.mk_User 7 (Some (U "fr")) false]
  /\ Database.notifications_sent (Monitor.store w1)
       !! (7%Z, Scenario.outage_id) = None
  /\ length (Monitor.sent_log w1) = 1%nat
  /\ Monitor.sent_log w2 = Monitor.sent_log w1.
Proof. repeat split; vm_compute; reflexivity. Qed.

(** After a transient failure, dispatching the outage again calls the
    subscriber again. *)
Example transient_failure_is_retried_by_a_dispatch :
  let w1 := Scenario.run Scenario.start in
  let w2 := @Monitor._send_notifications Sample.sample_lib Scenario.clock
              Scenario.flaky [Scenario.outage_id] w1 in
  Monitor.sent_log w2
  = Monitor.sent_log w1
    ++ [Monitor.mk_attempt 7 Scenario.outage_id Monitor.delivered].
Proof. vm_compute. reflexivity. Qed.

(** A subscriber with subscriptions to two localities of the same name is
    listed twice for an outage there: when the first call fails, the second
    entry is called too, in the same dispatch. *)
Example subscriber_listed_twice_is_called_twice :
  let w1 := @Monitor.check_for_outages Sample.sample_lib Scenario.clock
              Scenario.blocking (Monitor.feed_document Scenario.snapshot)
              Scenario.start_twice in
  Database.get_users_with_language_for_locality
    (Monitor.store Scenario.start_twice) (U "TAMARIN")
  = [(7%Z, U "fr"); (7%Z, U "fr")]
  /\ map Monitor.a_user (Monitor.sent_log w1) = [7%Z; 7%Z]
  /\ Database.users (Monitor.store w1)
     = [Database.mk_User 7 (Some (U "fr")) false].
Proof. repeat split; vm_compute; reflexivity. Qed.

(** * The code around the pipeline *)

(** ** What the date parser raises *)

Lemma rbind_Raise {A B} (r : result A) (k : A -> result B) (e : exn) :
  rbind r k = Raise e ->
  r = Raise e \/ exists a, r = Return a /\ k a = Raise e.
Proof. destruct r; simpl; [eauto | intros [= ->]; eauto]. Qed.

Section ParserErrors.
Context `{PyLib}.
Import CebParser.
#[local] Open Scope Z_scope.

Lemma int_digits_Raise s : forall acc e, int_digits acc s = Raise e -> e = ValueError.
Proof.
  induction s as [|c s IH]; intros acc e; simpl; [discriminate|].
  destruct (decimal c); [apply IH | congruence].
Qed.

Lemma int_Raise s e : int s = Raise e -> e = ValueError.
Proof.
  destruct s; simpl; [congruence|]. 
  change (int_digits 0 (n :: s) = Raise e -> e = ValueError).
  apply int_digits_Raise.
Qed.

Lemma hms_Raise parts e : hms parts = Raise e -> e = ValueError \/ e = IndexError.
Proof.
  unfold hms. intros Hh.
  repeat (apply rbind_Raise in Hh as [Hh|(? & _ & Hh)];
          [destruct (parts !! _); [left; eapply int_Raise; eassumption
                                  | right; congruence] |]).
  discriminate.
Qed.

Lemma make_Raise y m d hh mm ss us tzi e :
  Datetime.make y m d hh mm ss us tzi = Raise e -> e = ValueError.
Proof. unfold Datetime.make. destruct (_ && _); congruence. Qed.

Lemma make_date y m d hh mm ss us tzi dt :
  Datetime.make y m d hh mm ss us tzi = Return dt ->
  1 <= y <= 9999 /\ 1 <= m <= 12 /\ 1 <= d <= Datetime.days_in_month y m.
Proof.
  unfold Datetime.make. intros Hm.
  destruct (_ && _) eqn:Hc in Hm; [|discriminate].
  repeat (apply andb_prop in Hc as [Hc ?]).
  repeat match goal with
         | Hx : (_ <=? _)%Z = true |- _ => apply Z.leb_le in Hx
         end.
  lia.
Qed.

Lemma ymd2ord_bounds y m d :
  1 <= y <= 9999 -> 1 <= m <= 12 -> 1 <= d <= Datetime.days_in_month y m ->
  (2 <= y -> 366 <= Datetime.ymd2ord y m d)
  /\ (y <= 9998 -> Datetime.ymd2ord y m d <= 3652058 - 1).
Proof.
  intros Hy Hm Hd.
  assert (Hmd : 1 <= Datetime.days_before_month y m + d <= 366).
  { unfold Datetime.days_before_month, Datetime.days_in_month in *.
    assert (Hcases : m = 1 \/ m = 2 \/ m = 3 \/ m = 4 \/ m = 5 \/ m = 6 \/ m = 7
            \/ m = 8 \/ m = 9 \/ m = 10 \/ m = 11 \/ m = 12) by lia.
    destruct (Datetime.is_leap y);
      repeat (destruct Hcases as [-> | Hcases]); try subst m; simpl in *; lia. }
  unfold Datetime.ymd2ord, Datetime.days_before_year.
  pose proof (Z.div_mod (y - 1) 4 ltac:(lia)).
  pose proof (Z.mod_pos_bound (y - 1) 4 ltac:(lia)).
  pose proof (Z.div_mod (y - 1) 100 ltac:(lia)).
  pose proof (Z.mod_pos_bound (y - 1) 100 ltac:(lia)).
  pose proof (Z.div_mod (y - 1) 400 ltac:(lia)).
  pose proof (Z.mod_pos_bound (y - 1) 400 ltac:(lia)).
  split; intros; lia.
Qed.

Lemma add_days_Raise dt n e :
  Datetime.add_days dt n = Raise e ->
  e = OverflowError
  /\ ~ (0 <= Datetime.wall dt + n * 86400000000 < 3652059 * 86400000000).
Proof.
  unfold Datetime.add_days, Datetime.in_range, Datetime.wall_max, Datetime.day_us.
  destruct (Z.leb_spec 0 (Datetime.wall dt + n * 86400000000));
    destruct (Z.ltb_spec (Datetime.wall dt + n * 86400000000)
                (3652059 * 86400000000));
    simpl; intros [= <-]; split; (reflexivity || lia).
Qed.

Lemma add_days_Return dt n dt' :
  Datetime.add_days dt n = Return dt' ->
  Datetime.tz dt' = Datetime.tz dt
  /\ Datetime.wall dt' = Datetime.wall dt + n * 86400000000
  /\ 0 <= Datetime.wall dt' < 3652059 * 86400000000.
Proof.
  unfold Datetime.add_days, Datetime.in_range, Datetime.wall_max, Datetime.day_us.
  destruct (Z.leb_spec 0 (Datetime.wall dt + n * 86400000000));
    destruct (Z.ltb_spec (Datetime.wall dt + n * 86400000000)
                (3652059 * 86400000000));
    simpl; intros [= <-]; simpl; repeat split; lia.
Qed.

Lemma astimezone_utc_Raise host dt e :
  Datetime.tz dt = Some MAURITIUS_TZ ->
  Datetime.astimezone host dt UTC_TZ = Raise e ->
  e = OverflowError
  /\ ~ (5 * 3600000000 <= Datetime.wall dt < 3652059 * 86400000000).
Proof.
  unfold Datetime.astimezone. intros ->.
  cbn [Datetime.same_tz Datetime.fromutc].
  pose proof (utcoffset_mauritius_bounds (Datetime.wall dt)) as Hb.
  set (o := Datetime.utcoffset MAURITIUS_TZ (Datetime.wall dt)) in *.
  unfold Datetime.in_range, Datetime.wall_max, Datetime.day_us.
  repeat match goal with
         | |- context [(?a <=? ?b)] => destruct (Z.leb_spec a b)
         | |- context [(?a <? ?b)] => destruct (Z.ltb_spec a b)
         end;
    cbn [andb]; intros [= <-]; split; (reflexivity || lia).
Qed.

Lemma resolve_times_Raise day_str year_str f_str t_str month e :
  resolve_times day_str year_str f_str t_str month = Raise e ->
  e = ValueError \/ e = IndexError
  \/ (e = OverflowError
      /\ exists year, int year_str = Return year /\ (year = 1 \/ year = 9999)).
Proof.
  unfold resolve_times. intros Hr.
  apply rbind_Raise in Hr as [Hr|(day & Hday & Hr)];
    [left; eapply int_Raise; eassumption|].
  apply rbind_Raise in Hr as [Hr|(year & Hyear & Hr)];
    [left; eapply int_Raise; eassumption|].
  apply rbind_Raise in Hr as [Hr|([[fh fm] fs] & Hf & Hr)];
    [apply hms_Raise in Hr; tauto|].
  apply rbind_Raise in Hr as [Hr|([[th tm] ts] & Ht & Hr)];
    [apply hms_Raise in Hr; tauto|].
  apply rbind_Raise in Hr as [Hr|(from_time & Hfrom & Hr)];
    [left; eapply make_Raise; eassumption|].
  apply rbind_Raise in Hr as [Hr|(to_time & Hto & Hr)];
    [left; eapply make_Raise; eassumption|].
  right; right.
  destruct (make_date _ _ _ _ _ _ _ _ _ Hfrom) as (Hy & Hm & Hd).
  destruct (make_Return _ _ _ _ _ _ _ _ _ Hfrom) as [Bf Ef].
  destruct (make_Return _ _ _ _ _ _ _ _ _ Hto) as [Bt Et].
  destruct (ymd2ord_bounds _ _ _ Hy Hm Hd) as [Hlo Hhi].
  assert (Hwf : Datetime.tz from_time = Some MAURITIUS_TZ
                /\ Datetime.wall from_time
                   = (((Datetime.ymd2ord year month day - 1) * 24 + fh) * 60 + fm)
                       * 60 * 1000000 + fs * 1000000 + 0)
    by (rewrite Ef; split; reflexivity).
  assert (Hwt : Datetime.tz to_time = Some MAURITIUS_TZ
                /\ Datetime.wall to_time
                   = (((Datetime.ymd2ord year month day - 1) * 24 + th) * 60 + tm)
                       * 60 * 1000000 + ts * 1000000 + 0)
    by (rewrite Et; split; reflexivity).
  clear Ef Et Hfrom Hto.
  destruct Hwf as [Hzf Hwf], Hwt as [Hzt Hwt].
  set (D := Datetime.ymd2ord year month day) in *.
  assert (He : e = OverflowError
               /\ (2 <= year <= 9998 -> False)); [|split; [tauto|]].
  2:{ exists year. split; [assumption | lia]. }
  apply rbind_Raise in Hr as [Hr|(t' & Ht' & Hr)].
  { destruct (Datetime.lt to_time from_time); [|discriminate].
    apply add_days_Raise in Hr as [-> Hr]. split; [reflexivity | lia]. }
  assert (Ht'' : Datetime.tz t' = Some MAURITIUS_TZ
                 /\ (2 <= year <= 9998 ->
                     365 * 86400000000 <= Datetime.wall t'
                       < 3652059 * 86400000000)).
  { destruct (Datetime.lt to_time from_time).
    - apply add_days_Return in Ht' as (-> & Hw & Hb). split; [assumption | lia].
    - injection Ht' as <-. split; [assumption | lia]. }
  destruct Ht'' as [Hzt' Hw].
  apply rbind_Raise in Hr as [Hr|(fu & Hfu & Hr)].
  { apply astimezone_utc_Raise in Hr as [-> Hr]; [|assumption].
    split; [reflexivity | lia]. }
  apply rbind_Raise in Hr as [Hr|(tu & Htu & Hr)]; [|discriminate].
  apply astimezone_utc_Raise in Hr as [-> Hr]; [|assumption].
  split; [reflexivity | lia].
Qed.

(** X1.  [parse_french_date] raises nothing but [OverflowError], and that only
    for a date of the year 1 or 9999, where the end moved to the next day or
    the conversion to UTC leaves the range of [datetime]; every other
    failure to read its fields gives [(None, None)]. *)
Theorem parse_french_date_raises (date_str : str) (e : exn) :
  parse_french_date date_str = Raise e ->
  e = OverflowError
  /\ exists day_str month_str year_str from_time_str to_time_str year,
       Re.match_ true DATE_PATTERN (strip (collapse_spaces false date_str))
         = Some [day_str; month_str; year_str; from_time_str; to_time_str]
       /\ int year_str = Return year /\ (year = 1 \/ year = 9999).
Proof.
  unfold parse_french_date. intros Hp.
  destruct (_ || _) in Hp; [discriminate|].
  destruct (Re.match_ _ _ _) as [gs|] eqn:Hm in Hp; [|discriminate].
  destruct gs as [|day_str [|month_str [|year_str [|from_time_str
    [|to_time_str [|? ?]]]]]]; try discriminate.
  destruct (FRENCH_MONTHS !! _) as [month|] eqn:Hmonth in Hp; [|discriminate].
  destruct (resolve_times _ _ _ _ _) as [[f t]|e'] eqn:Hr in Hp;
    [discriminate|].
  apply resolve_times_Raise in Hr as [->|[->|(-> & year & Hyear & Hy)]];
    try discriminate.
  injection Hp as <-. split; [reflexivity|].
  exists day_str, month_str, year_str, from_time_str, to_time_str, year. auto.
Qed.

End ParserErrors.

(** The last evening of the year 9999, with the end after midnight. *)
Lemma parse_french_date_raises_witness :
  @CebParser.parse_french_date Sample.sample_lib
    (U "Le vendredi 31 décembre 9999 de 23:00:00 à 01:00:00")
  = Raise OverflowError.
Proof.
  assert (Hp : @CebParser.parse_french_date Sample.sample_lib
    (U "Le vendredi 31 décembre 9999 de 23:00:00 à 01:00:00")
  = Raise OverflowError) by (vm_compute; reflexivity).
  destruct (@parse_french_date_raises Sample.sample_lib _ _ Hp) as [_ _].
  exact Hp.
Defined.

(** ** White space in a date *)

Section WhitespaceFacts.
Context `{PyLib}.
Import CebParser.

Lemma lstrip_head (s : str) (x : N) (t : str) :
  lstrip s = x :: t -> isspace x = false.
Proof.
  induction s as [|c s IH]; simpl; [discriminate|].
  destruct (isspace c) eqn:Hc; [exact IH|]. intros [= <- _]. exact Hc.
Qed.

Lemma lstrip_nil (s : str) : lstrip s = [] <-> forallb isspace s = true.
Proof.
  induction s as [|c s IH]; simpl; [tauto|].
  destruct (isspace c); simpl; [exact IH|]. split; discriminate.
Qed.

Lemma lstrip_app (s t : str) :
  lstrip (s ++ t) = if forallb isspace s then lstrip t else lstrip s ++ t.
Proof.
  induction s as [|c s IH]; simpl; [reflexivity|].
  destruct (isspace c); simpl; [exact IH | reflexivity].
Qed.

Lemma forallb_reverse (f : N -> bool) (s : str) :
  forallb f (reverse s) = forallb f s.
Proof.
  induction s as [|c s IH]; [reflexivity|].
  rewrite reverse_cons, forallb_app, IH. simpl.
  rewrite andb_true_r. apply andb_comm.
Qed.

Lemma strip_nil (s : str) : strip s = [] <-> forallb isspace s = true.
Proof.
  unfold strip. split.
  - intros Hs. apply (f_equal reverse) in Hs.
    rewrite reverse_involutive in Hs. change (reverse []) with (@nil N) in Hs.
    apply lstrip_nil in Hs. rewrite forallb_reverse in Hs.
    destruct (lstrip s) as [|x t] eqn:Hl; [by apply lstrip_nil|].
    apply lstrip_head in Hl. simpl in Hs. rewrite Hl in Hs. discriminate.
  - intros Hs. apply lstrip_nil in Hs. rewrite Hs. reflexivity.
Qed.

Lemma strip_lstrip (s t : str) : lstrip s = lstrip t -> strip s = strip t.
Proof. unfold strip. intros ->. reflexivity. Qed.

Lemma strip_snoc (s : str) (y : N) :
  isspace y = true -> strip (s ++ [y]) = strip s.
Proof.
  intros Hy. unfold strip. rewrite lstrip_app. simpl. rewrite Hy.
  destruct (forallb isspace s) eqn:Hs.
  - apply lstrip_nil in Hs. rewrite Hs. reflexivity.
  - rewrite reverse_snoc. simpl. rewrite Hy. reflexivity.
Qed.

Lemma collapse_forallb (s : str) :
  forall r, forallb isspace (collapse_spaces r s) = forallb isspace s.
Proof.
  induction s as [|c s IH]; intros r; simpl; [reflexivity|].
  destruct (isspace c) eqn:Hc.
  - destruct r; simpl; rewrite IH; reflexivity.
  - simpl. rewrite Hc. reflexivity.
Qed.

Lemma collapse_lstrip (s : str) :
  lstrip (collapse_spaces true s) = lstrip (collapse_spaces false s).
Proof.
  destruct s as [|c s]; simpl; [reflexivity|].
  destruct (isspace c); reflexivity.
Qed.

Lemma collapse_double (a b : str) (c c' : N) :
  isspace c = true -> isspace c' = true ->
  forall r, collapse_spaces r (a ++ c :: c' :: b)
            = collapse_spaces r (a ++ c :: b).
Proof.
  intros Hc Hc'. induction a as [|x a IH]; intros r; simpl.
  - rewrite Hc, Hc'. reflexivity.
  - destruct (isspace x); [destruct r|]; rewrite IH; reflexivity.
Qed.

Lemma collapse_any (a b : str) (c c' : N) :
  isspace c = true -> isspace c' = true ->
  forall r, collapse_spaces r (a ++ c :: b) = collapse_spaces r (a ++ c' :: b).
Proof.
  intros Hc Hc'. induction a as [|x a IH]; intros r; simpl.
  - rewrite Hc, Hc'. reflexivity.
  - destruct (isspace x); [destruct r|]; rewrite IH; reflexivity.
Qed.

Lemma collapse_snoc (a : str) (c : N) :
  isspace c = true ->
  forall r, collapse_spaces r (a ++ [c]) = collapse_spaces r a
            \/ collapse_spaces r (a ++ [c]) = collapse_spaces r a ++ [32].
Proof.
  intros Hc. induction a as [|x a IH]; intros r; simpl.
  - rewrite Hc. destruct r; auto.
  - destruct (isspace x).
    + destruct r; destruct (IH true) as [-> | ->]; auto.
    + destruct (IH false) as [-> | ->]; auto.
Qed.

(** The result depends on the string only through its normal form. *)
Lemma parse_french_date_normal (s s' : str) :
  strip (collapse_spaces false s) = strip (collapse_spaces false s') ->
  parse_french_date s = parse_french_date s'.
Proof.
  intros Hn.
  assert (Hblank : forall t,
            bool_decide (t = []) || bool_decide (strip t = [])
            = bool_decide (strip (collapse_spaces false t) = [])).
  { intros t. apply eq_true_iff_eq.
    rewrite orb_true_iff, !bool_decide_eq_true, !strip_nil, collapse_forallb.
    split; [intros [->|Ht]; [reflexivity | exact Ht] | auto]. }
  unfold parse_french_date. rewrite !Hblank, Hn. reflexivity.
Qed.

(** X28.  White space in a date string only separates: a second white-space
    character after one, another white-space character in place of one, a
    leading or a trailing one do not change what [parse_french_date]
    returns. *)
Theorem parse_french_date_ignores_white_space (a b : str) (c c' : N) :
  isspace c = true -> isspace c' = true ->
  parse_french_date (a ++ c :: c' :: b) = parse_french_date (a ++ c :: b)
  /\ parse_french_date (a ++ c' :: b) = parse_french_date (a ++ c :: b)
  /\ parse_french_date (c :: b) = parse_french_date b
  /\ parse_french_date (a ++ [c]) = parse_french_date a.
Proof.
  intros Hc Hc'.
  split; [apply parse_french_date_normal; by rewrite collapse_double|].
  split; [apply parse_french_date_normal;
          by rewrite (collapse_any a b c' c)|].
  split.
  - apply parse_french_date_normal. simpl. rewrite Hc.
    apply strip_lstrip. simpl.
    change (isspace 32) with true. cbv iota. apply collapse_lstrip.
  - apply parse_french_date_normal.
    destruct (collapse_snoc a c Hc false) as [-> | ->]; [reflexivity|].
    apply strip_snoc. reflexivity.
Qed.

End WhitespaceFacts.

(** A non-breaking space after the space before the first time. *)
Lemma parse_french_date_ignores_white_space_witness :
  @CebParser.parse_french_date Sample.sample_lib
    (U "Le dimanche 13 mars 2022 de" ++ 32 :: 160 :: U "09:30:00 à 13:00:00")
  = @CebParser.parse_french_date Sample.sample_lib
      (U "Le dimanche 13 mars 2022 de" ++ 32 :: U "09:30:00 à 13:00:00").
Proof.
  refine (proj1 (@parse_french_date_ignores_white_space Sample.sample_lib
                   _ _ 32 160 _ _)); reflexivity.
Defined.

(** ** The district data of the page *)

Section RegexFacts.
Context `{PyLib}.
Import CebParser.

Lemma accepts_char (c x : N) :
  Re.accepts false (Re.chars [c]) x = true <-> x = c.
Proof.
  unfold Re.accepts. cbn [existsb andb]. rewrite !orb_false_r.
  apply N.eqb_eq.
Qed.

Lemma exec_literal (w : str) :
  forall (p : list Re.item) (s : str) (cur : option str) (gs : list str)
         (r : list str * str),
    Re.exec false (map (fun c => Re.one (Re.chars [c])) w ++ p) s cur gs = Some r
    <-> exists rest, s = w ++ rest
                     /\ Re.exec false p rest ((fun g => g ++ w) <$> cur) gs = Some r.
Proof.
  induction w as [|c w IH]; intros p s cur gs r.
  - cbn [map app].
    replace ((fun g => g ++ []) <$> cur) with cur
      by (destruct cur; simpl; [rewrite app_nil_r|]; reflexivity).
    split; [eauto | intros (rest & -> & Hr); exact Hr].
  - cbn [map app Re.exec]. destruct s as [|x s].
    + split; [discriminate | intros (rest & [=] & _)].
    + destruct (Re.accepts false (Re.chars [c]) x) eqn:Ha.
      * apply accepts_char in Ha. subst x. rewrite IH.
        replace ((fun g => g ++ w) <$> ((fun g => g ++ [c]) <$> cur))
          with ((fun g => g ++ c :: w) <$> cur)
          by (destruct cur; simpl; [rewrite <- app_assoc|]; reflexivity).
        split; intros (rest & E & Hr); exists rest.
        -- subst s. auto.
        -- injection E as ->. auto.
      * split; [discriminate|]. intros (rest & [= -> _] & _).
        assert (Re.accepts false (Re.chars [c]) c = true) by by apply accepts_char.
        congruence.
Qed.

Lemma try_down_Some {A} (k : nat -> option A) (lo : nat) (r : A) :
  forall n, Re.try_down k lo n = Some r ->
            exists m, (lo <= m <= n)%nat /\ k m = Some r
                      /\ forall m', (m < m' <= n)%nat -> k m' = None.
Proof.
  induction n as [|n IH]; cbn [Re.try_down]; intros Ht.
  - destruct (Nat.ltb_spec 0 lo); [discriminate|].
    destruct (k 0%nat) eqn:Hk; [|discriminate]. injection Ht as ->.
    exists 0%nat. split; [lia|]. split; [assumption | intros; lia].
  - destruct (Nat.ltb_spec (S n) lo); [discriminate|].
    destruct (k (S n)) eqn:Hk.
    + injection Ht as ->. exists (S n). split; [lia|].
      split; [assumption | intros; lia].
    + destruct (IH Ht) as (m & Hm & Hkm & Hmax). exists m.
      split; [lia|]. split; [assumption|]. intros m' Hm'.
      destruct (decide (m' = S n)) as [->|]; [assumption | apply Hmax; lia].
Qed.

Lemma try_down_None {A} (k : nat -> option A) (lo : nat) :
  forall n, Re.try_down k lo n = None ->
            forall m, (lo <= m <= n)%nat -> k m = None.
Proof.
  induction n as [|n IH]; cbn [Re.try_down]; intros Ht m Hm.
  - destruct (Nat.ltb_spec 0 lo); [lia|].
    destruct (k 0%nat) eqn:Hk; [discriminate|].
    replace m with 0%nat by lia. assumption.
  - destruct (Nat.ltb_spec (S n) lo); [lia|].
    destruct (k (S n)) eqn:Hk; [discriminate|].
    destruct (decide (m = S n)) as [->|]; [assumption | apply IH; [assumption | lia]].
Qed.

Lemma run_length_spec (f : N -> bool) (s : str) :
  forall m, (m <= Re.run_length f None s)%nat
            <-> (m <= length s)%nat /\ Forall (fun x => f x = true) (take m s).
Proof.
  induction s as [|x s IH]; intros m; cbn [Re.run_length fmap option_fmap option_map].
  - simpl. split.
    + intros Hm. replace m with 0%nat by lia. split; [lia | constructor].
    + lia.
  - destruct m as [|m].
    + simpl. split; [split; [lia | constructor] | lia].
    + simpl. destruct (f x) eqn:Hf.
      * rewrite <- Nat.succ_le_mono, IH, <- Nat.succ_le_mono.
        split; intros [Hl Hall]; (split; [assumption|]).
        -- constructor; assumption.
        -- inversion Hall; assumption.
      * split; [lia|]. intros [_ Hall]. inversion Hall. congruence.
Qed.

Lemma accepts_dot (body : str) :
  Forall (fun x => Re.accepts false Re.dot x = true) body <-> 10 ∉ body.
Proof.
  rewrite Forall_forall. unfold Re.accepts. split.
  - intros Ha Hin. specialize (Ha _ Hin). discriminate.
  - intros Hn x Hx. apply negb_true_iff, N.eqb_neq. intros ->. contradiction.
Qed.

#[local] Abbreviation lits w := (map (fun c => Re.one (Re.chars [c])) w).

Lemma district_pattern_items :
  DISTRICT_PATTERN
  = lits (U "var arDistrictLocations = ")
    ++ Re.gopen :: lits (U "{")
    ++ Re.rep Re.dot 1 None :: lits (U "}") ++ Re.gclose :: lits (U ";") ++ [].
Proof. reflexivity. Qed.

(** The end of the pattern, after [.+]: [}], the end of the group, [;]. *)
Lemma exec_closing (rest g : str) (r : list str * str) :
  Re.exec false (lits (U "}") ++ Re.gclose :: lits (U ";") ++ []) rest (Some g) []
    = Some r
  <-> exists post, rest = U "};" ++ post /\ r = ([g ++ U "}"], post).
Proof.
  rewrite exec_literal. cbn [fmap option_fmap option_map Re.exec].
  split.
  - intros (r1 & -> & He). apply exec_literal in He as (post & -> & He).
    cbn [Re.exec] in He. injection He as <-. exists post. split; reflexivity.
  - intros (post & -> & ->). exists (U ";" ++ post). split; [reflexivity|].
    apply exec_literal. exists post. split; reflexivity.
Qed.

(** The group [({.+})] followed by [;]: the body is the longest one. *)
Lemma exec_object (s : str) (r : list str * str) :
  Re.exec false
    (lits (U "{") ++ Re.rep Re.dot 1 None :: lits (U "}")
     ++ Re.gclose :: lits (U ";") ++ []) s (Some []) [] = Some r
  <-> exists body post,
        s = U "{" ++ body ++ U "};" ++ post /\ one_line body
        /\ r = ([U "{" ++ body ++ U "}"], post)
        /\ forall body' post',
             body ++ U "};" ++ post = body' ++ U "};" ++ post' -> 10 ∉ body' ->
             (length body' <= length body)%nat.
Proof.
  rewrite exec_literal. cbn [fmap option_fmap option_map Re.exec app].
  split.
  - intros (r2 & -> & He).
    apply try_down_Some in He as (n & Hn & He & Hmax).
    apply exec_closing in He as (post & Hr3 & ->).
    destruct (proj1 (run_length_spec _ _ _) (proj2 Hn)) as [Hlen Hall].
    apply accepts_dot in Hall.
    assert (Er2 : r2 = take n r2 ++ U "};" ++ post)
      by (rewrite <- Hr3, take_drop; reflexivity).
    exists (take n r2), post.
    split; [f_equal; exact Er2|].
    split.
    { split; [|assumption]. intros E. apply (f_equal length) in E.
      rewrite length_take in E. simpl in E. lia. }
    split; [rewrite <- app_assoc; reflexivity|].
    intros body' post' E Hb'. rewrite <- Er2 in E.
    destruct (Nat.le_gt_cases (length body') n) as [Hle|Hgt];
      [rewrite length_take; lia|].
    exfalso.
    assert (Hrun : (length body' <= Re.run_length (Re.accepts false Re.dot) None r2)%nat).
    { apply run_length_spec. rewrite E. split.
      - rewrite length_app. lia.
      - rewrite take_app_length. by apply accepts_dot. }
    specialize (Hmax (length body') ltac:(lia)).
    rewrite E, drop_app_length, take_app_length in Hmax.
    assert (Hs : Re.exec false (lits (U "}") ++ Re.gclose :: lits (U ";") ++ [])
                   (U "};" ++ post') (Some (U "{" ++ body')) []
                 = Some ([(U "{" ++ body') ++ U "}"], post'))
      by (apply exec_closing; eauto).
    cbn [app] in Hs, Hmax. congruence.
  - intros (body & post & -> & [Hne Hnl] & -> & Hmax).
    exists (body ++ U "};" ++ post). split; [reflexivity|].
    set (r2 := body ++ U "};" ++ post) in *.
    assert (Hrun : (1 <= length body
                    <= Re.run_length (Re.accepts false Re.dot) None r2)%nat).
    { split; [destruct body; [congruence | simpl; lia]|].
      apply run_length_spec. unfold r2. split.
      - rewrite length_app. lia.
      - rewrite take_app_length. by apply accepts_dot. }
    destruct (Re.try_down _ _ _) as [r|] eqn:Ht.
    + apply try_down_Some in Ht as (n & Hn & He & Hmax').
      apply exec_closing in He as (post' & Hr3 & ->).
      destruct (proj1 (run_length_spec _ _ _) (proj2 Hn)) as [Hlen Hall].
      apply accepts_dot in Hall.
      assert (Er2 : r2 = take n r2 ++ U "};" ++ post')
        by (rewrite <- Hr3, take_drop; reflexivity).
      assert (Hle : (n <= length body)%nat).
      { rewrite <- (length_take_le r2 n) by assumption.
        apply (Hmax (take n r2) post'); assumption. }
      destruct (decide (n = length body)) as [->|Hneq].
      { unfold r2 in Hr3 |- *. rewrite take_app_length.
        rewrite drop_app_length in Hr3. apply app_inv_head in Hr3. subst post'.
        rewrite <- app_assoc. reflexivity. }
      exfalso.
      specialize (Hmax' (length body) ltac:(lia)).
      unfold r2 in Hmax'. rewrite drop_app_length, take_app_length in Hmax'.
      assert (Hs : Re.exec false (lits (U "}") ++ Re.gclose :: lits (U ";") ++ [])
                     (U "};" ++ post) (Some (U "{" ++ body)) []
                   = Some ([(U "{" ++ body) ++ U "}"], post))
        by (apply exec_closing; eauto).
      cbn [app] in Hs, Hmax'. congruence.
    + exfalso. eapply try_down_None with (m := length body) in Ht; [|exact Hrun].
      unfold r2 in Ht. rewrite drop_app_length, take_app_length in Ht.
      assert (Hs : Re.exec false (lits (U "}") ++ Re.gclose :: lits (U ";") ++ [])
                     (U "};" ++ post) (Some (U "{" ++ body)) []
                   = Some ([(U "{" ++ body) ++ U "}"], post))
        by (apply exec_closing; eauto).
      cbn [app] in Hs, Ht. congruence.
Qed.

(** A pattern made of a literal prefix [A], then [({.+});]. *)
Lemma assignment_match (A s : str) (gs : list str) :
  Re.match_ false
    (lits A ++ Re.gopen :: lits (U "{")
     ++ Re.rep Re.dot 1 None :: lits (U "}") ++ Re.gclose :: lits (U ";") ++ []) s
    = Some gs
  <-> exists body post,
        s = A ++ U "{" ++ body ++ U "};" ++ post /\ one_line body
        /\ gs = [U "{" ++ body ++ U "}"]
        /\ forall body' post',
             body ++ U "};" ++ post = body' ++ U "};" ++ post' -> 10 ∉ body' ->
             (length body' <= length body)%nat.
Proof.
  unfold Re.match_.
  split.
  - intros Hm. destruct (Re.exec _ _ _ _ _) as [r|] eqn:He in Hm; [|discriminate].
    injection Hm as <-.
    apply exec_literal in He as (r1 & -> & He).
    cbn [fmap option_fmap option_map Re.exec] in He.
    apply exec_object in He as (body & post & -> & Hone & -> & Hmax).
    exists body, post. auto.
  - intros (body & post & -> & Hone & -> & Hmax).
    assert (He : Re.exec false
                   (lits A ++ Re.gopen :: lits (U "{")
                    ++ Re.rep Re.dot 1 None :: lits (U "}")
                    ++ Re.gclose :: lits (U ";") ++ [])
                   (A ++ U "{" ++ body ++ U "};" ++ post) None []
                 = Some ([U "{" ++ body ++ U "}"], post)).
    { apply exec_literal. eexists. split; [reflexivity|].
      cbn [fmap option_fmap option_map Re.exec].
      apply exec_object. exists body, post. auto. }
    rewrite He. reflexivity.
Qed.

Lemma search_Some (p : list Re.item) (s : str) (gs : list str) :
  Re.search false p s = Some gs
  <-> exists pre suf,
        s = pre ++ suf /\ Re.match_ false p suf = Some gs
        /\ forall pre1 pre2, pre = pre1 ++ pre2 -> pre2 <> [] ->
                             Re.match_ false p (pre2 ++ suf) = None.
Proof.
  induction s as [|x s IH]; cbn [Re.search].
  - destruct (Re.match_ false p []) as [gs'|] eqn:Hm.
    + split.
      * intros [= ->]. exists [], []. split; [reflexivity|].
        split; [assumption|]. intros [|] [|] E; try discriminate. congruence.
      * intros (pre & suf & E & Hs & _). symmetry in E.
        apply app_eq_nil in E as [-> ->]. congruence.
    + split; [discriminate|]. intros (pre & suf & E & Hs & _). symmetry in E.
      apply app_eq_nil in E as [-> ->]. congruence.
  - destruct (Re.match_ false p (x :: s)) as [gs'|] eqn:Hm.
    + split.
      * intros [= ->]. exists [], (x :: s). split; [reflexivity|].
        split; [assumption|]. intros [|] [|] E; try discriminate. congruence.
      * intros (pre & suf & E & Hs & Hfirst). destruct pre as [|y pre].
        -- simpl in E. subst suf. congruence.
        -- specialize (Hfirst [] (y :: pre) eq_refl ltac:(discriminate)).
           simpl in Hfirst, E. rewrite <- E in Hfirst. congruence.
    + rewrite IH. split.
      * intros (pre & suf & -> & Hs & Hfirst). exists (x :: pre), suf.
        split; [reflexivity|]. split; [assumption|].
        intros [|y pre1] pre2 E Hne.
        -- simpl in E. subst pre2. exact Hm.
        -- injection E as -> ->. eauto.
      * intros (pre & suf & E & Hs & Hfirst). destruct pre as [|y pre].
        -- simpl in E. subst suf. congruence.
        -- injection E as -> ->. exists pre, suf. split; [reflexivity|].
           split; [assumption|]. intros pre1 pre2 -> Hne.
           apply (Hfirst (y :: pre1) pre2); [reflexivity | assumption].
Qed.

Lemma search_None (p : list Re.item) (s : str) :
  Re.search false p s = None
  <-> forall pre suf, s = pre ++ suf -> Re.match_ false p suf = None.
Proof.
  induction s as [|x s IH]; cbn [Re.search].
  - destruct (Re.match_ false p []) as [gs'|] eqn:Hm.
    + split; [discriminate|]. intros Hn. specialize (Hn [] [] eq_refl). congruence.
    + split; [|reflexivity]. intros _ pre suf E. symmetry in E.
      apply app_eq_nil in E as [-> ->]. assumption.
  - destruct (Re.match_ false p (x :: s)) as [gs'|] eqn:Hm.
    + split; [discriminate|]. intros Hn. specialize (Hn [] (x :: s) eq_refl).
      congruence.
    + rewrite IH. split.
      * intros Hn [|y pre] suf E.
        -- simpl in E. subst suf. assumption.
        -- injection E as -> ->. eauto.
      * intros Hn pre suf ->. apply (Hn (x :: pre)). reflexivity.
Qed.

(** Where there is an assignment on one line, the pattern matches (with the
    longest body of that place). *)
Lemma assignment_match_None (A s : str) :
  Re.match_ false
    (lits A ++ Re.gopen :: lits (U "{")
     ++ Re.rep Re.dot 1 None :: lits (U "}") ++ Re.gclose :: lits (U ";") ++ []) s
    = None ->
  forall body post, one_line body -> s <> A ++ U "{" ++ body ++ U "};" ++ post.
Proof.
  intros Hm body post Hone ->.
  assert (Hex : exists r, Re.exec false
             (lits (U "{") ++ Re.rep Re.dot 1 None :: lits (U "}")
              ++ Re.gclose :: lits (U ";") ++ [])
             (U "{" ++ body ++ U "};" ++ post) (Some []) [] = Some r).
  { destruct (Re.exec _ _ _ _ _) as [r|] eqn:He; [eauto|]. exfalso.
    destruct (Re.try_down
      (fun n => Re.exec false
         (lits (U "}") ++ Re.gclose :: lits (U ";") ++ [])
         (drop n (body ++ U "};" ++ post))
         (Some ([] ++ U "{" ++ take n (body ++ U "};" ++ post))) [])
      1 (Re.run_length (Re.accepts false Re.dot) None
           (body ++ U "};" ++ post))) as [r|] eqn:Ht.
    - assert (Hx : Re.exec false
             (lits (U "{") ++ Re.rep Re.dot 1 None :: lits (U "}")
              ++ Re.gclose :: lits (U ";") ++ [])
             (U "{" ++ body ++ U "};" ++ post) (Some []) [] = Some r);
        [|congruence].
      apply exec_literal. eexists. split; [reflexivity|].
      cbn [fmap option_fmap option_map Re.exec]. exact Ht.
    - destruct Hone as [Hne Hnl].
      eapply try_down_None with (m := length body) in Ht.
      + rewrite drop_app_length, take_app_length in Ht.
        assert (Hc : Re.exec false
                 (lits (U "}") ++ Re.gclose :: lits (U ";") ++ [])
                 (U "};" ++ post) (Some (([] ++ U "{") ++ body)) []
               = Some ([(([] ++ U "{") ++ body) ++ U "}"], post))
          by (apply exec_closing; eauto).
        rewrite <- app_assoc in Hc. congruence.
      + split; [destruct body; [congruence | simpl; lia]|].
        apply run_length_spec. split.
        * rewrite length_app. lia.
        * rewrite take_app_length. by apply accepts_dot. }
  destruct Hex as [r Hex].
  unfold Re.match_ in Hm.
  assert (Hx : Re.exec false
             (lits A ++ Re.gopen :: lits (U "{")
              ++ Re.rep Re.dot 1 None :: lits (U "}")
              ++ Re.gclose :: lits (U ";") ++ [])
             (A ++ U "{" ++ body ++ U "};" ++ post) None [] = Some r).
  { apply exec_literal. exists (U "{" ++ body ++ U "};" ++ post).
    split; [reflexivity|].
    cbn [fmap option_fmap option_map Re.exec]. exact Hex. }
  rewrite Hx in Hm. discriminate.
Qed.

Lemma assignment_search (A html : str) :
  match Re.search false
          (lits A ++ Re.gopen :: lits (U "{")
           ++ Re.rep Re.dot 1 None :: lits (U "}")
           ++ Re.gclose :: lits (U ";") ++ []) html with
  | Some gs =>
      exists pre body post,
        gs = [U "{" ++ body ++ U "}"]
        /\ html = pre ++ A ++ U "{" ++ body ++ U "};" ++ post /\ one_line body
        /\ forall pre' body' post',
             html = pre' ++ A ++ U "{" ++ body' ++ U "};" ++ post' ->
             one_line body' ->
             (length pre <= length pre')%nat
             /\ (length pre' = length pre -> length body' <= length body)%nat
  | None => forall pre body post,
              one_line body ->
              html <> pre ++ A ++ U "{" ++ body ++ U "};" ++ post
  end.
Proof.
  destruct (Re.search false _ html) as [gs|] eqn:Hs.
  - apply search_Some in Hs as (pre & suf & -> & Hm & Hfirst).
    apply assignment_match in Hm as (body & post & -> & Hone & -> & Hmax).
    exists pre, body, post. split; [reflexivity|].
    split; [reflexivity|]. split; [assumption|].
    intros pre' body' post' E Hone'.
    destruct (Nat.le_gt_cases (length pre) (length pre')) as [Hle|Hgt].
    + split; [assumption|]. intros Hlen.
      assert (pre' = pre).
      { apply (f_equal (take (length pre))) in E.
        rewrite take_app_length in E. rewrite <- Hlen, take_app_length in E.
        congruence. }
      subst pre'. do 3 apply app_inv_head in E.
      apply (Hmax body' post'); [exact E | apply Hone'].
    + exfalso.
      assert (Hsplit : pre = pre' ++ drop (length pre') pre
                       /\ drop (length pre') pre <> []).
      { apply (f_equal (take (length pre'))) in E as Et.
        rewrite take_app_length in Et.
        rewrite take_app_le in Et by lia.
        split.
        - rewrite <- Et at 1. rewrite take_drop. reflexivity.
        - intros Hd. apply (f_equal length) in Hd. rewrite length_drop in Hd.
          simpl in Hd. lia. }
      destruct Hsplit as [Epre Hne].
      specialize (Hfirst pre' _ Epre Hne).
      rewrite Epre, <- app_assoc in E. apply app_inv_head in E.
      rewrite E in Hfirst.
      eapply assignment_match_None; [exact Hfirst | exact Hone' | reflexivity].
  - intros pre body post Hone E.
    eapply search_None in Hs; [|exact E].
    eapply assignment_match_None; [exact Hs | exact Hone | reflexivity].
Qed.

(** X2.  [extract_district_data] reads the object of the first assignment
    [var arDistrictLocations = {...};] of the page that stands on one line,
    taken up to the last [};] of that line; where the page has no such
    assignment the result is empty. *)
Theorem extract_district_data_first_line (html : str) :
  ((forall pre body post,
      one_line body -> html <> district_line pre body post) ->
   extract_district_data html = [])
  /\ (forall pre body post,
        first_longest html pre body post ->
        extract_district_data html
        = default [] (json_loads (U "{" ++ body ++ U "}")))
  /\ (forall pre body post,
        html = district_line pre body post -> one_line body ->
        exists pre' body' post', first_longest html pre' body' post').
Proof.
  unfold extract_district_data, first_longest, district_line.
  rewrite district_pattern_items.
  pose proof (assignment_search (U "var arDistrictLocations = ") html) as Hs.
  destruct (Re.search false _ html) as [gs|].
  - destruct Hs as (pre0 & body0 & post0 & -> & E0 & Hone0 & Hbest0).
    split.
    { intros Hn. exfalso. exact (Hn pre0 body0 post0 Hone0 E0). }
    split.
    + intros pre body post (E & Hone & Hbest).
      destruct (Hbest0 pre body post E Hone) as [Hp Hb].
      destruct (Hbest pre0 body0 post0 E0 Hone0) as [Hp' Hb'].
      assert (Hlen : length pre = length pre0) by lia.
      assert (pre = pre0).
      { rewrite E0 in E. apply (f_equal (take (length pre))) in E.
        rewrite take_app_length in E. rewrite Hlen, take_app_length in E.
        congruence. }
      subst pre. rewrite E0 in E. do 3 apply app_inv_head in E.
      assert (Hlb : length body = length body0) by lia.
      assert (body = body0).
      { apply (f_equal (take (length body))) in E.
        rewrite take_app_length in E. rewrite Hlb, take_app_length in E.
        congruence. }
      subst body. cbn [default]. destruct (json_loads _); reflexivity.
    + intros pre body post E Hone. exists pre0, body0, post0. auto.
  - split; [reflexivity|]. split.
    + intros pre body post (E & Hone & _). exfalso. exact (Hs pre body post Hone E).
    + intros pre body post E Hone. exfalso. exact (Hs pre body post Hone E).
Qed.

End RegexFacts.

(** ** Duplicates, rows and the two lists *)

Section DedupFacts.
Import CebParser.

Lemma keyed_spec (o : outage) :
  keyed o = true <-> o_date o <> [] /\ exists k, o_id o = Some k /\ k <> [].
Proof.
  unfold keyed. rewrite andb_true_iff, negb_true_iff, bool_decide_eq_false.
  split.
  - intros [Hd Hi]. split; [assumption|].
    destruct (o_id o) as [[|c k]|]; try discriminate. eexists; split; [reflexivity|].
    discriminate.
  - intros [Hd (k & -> & Hk)]. split; [assumption|]. destruct k; congruence.
Qed.

Lemma remove_duplicates_loop_added (outages : list outage) :
  forall seen,
  exists added,
    remove_duplicates_loop seen outages = seen ++ added
    /\ map snd added `sublist_of` outages
    /\ (forall k o, (k, o) ∈ added -> keyed o = true /\ o_id o = Some k)
    /\ (forall before o after k,
          outages = before ++ o :: after -> keyed o = true -> o_id o = Some k ->
          k ∉ map fst seen ->
          (forall o', o' ∈ before -> keyed o' = true -> o_id o' <> Some k) ->
          (k, o) ∈ added)
    /\ (forall o k, o ∈ outages -> keyed o = true -> o_id o = Some k ->
          k ∈ map fst (seen ++ added)).
Proof.
  induction outages as [|o rest IH]; intros seen.
  - exists []. rewrite app_nil_r. split; [reflexivity|].
    split; [constructor|]. split; [intros ? ? []%elem_of_nil|].
    split; [intros [|] ? ? ?; discriminate | intros ? ? []%elem_of_nil].
  - assert (Hskip : (keyed o = false
                     \/ exists k, o_id o = Some k /\ k ∈ map fst seen) ->
                    remove_duplicates_loop seen (o :: rest)
                    = remove_duplicates_loop seen rest).
    { intros Hs. simpl. unfold keyed in Hs.
      destruct (bool_decide (o_date o = [])); [reflexivity|].
      destruct (o_id o) as [k|]; [|reflexivity].
      destruct (bool_decide (k ≠ [] ∧ k ∉ map fst seen)) eqn:Hb; [|reflexivity].
      apply bool_decide_eq_true in Hb as [Hk Hn].
      destruct Hs as [Hs|(k' & [= <-] & Hin)]; [|contradiction].
      destruct k; [congruence | discriminate]. }
    destruct (keyed o) eqn:Hko.
    2:{ destruct (IH seen) as (added & E & Hsub & Hadded & Hfirst & Hall).
        exists added. rewrite Hskip by auto.
        split; [assumption|]. split; [apply sublist_cons; assumption|].
        split; [assumption|]. split.
        - intros [|o0 before] o1 after k E1 Hk1 Hi1 Hn Hb.
          + injection E1 as <- _. congruence.
          + injection E1 as <- E1. eapply Hfirst; eauto.
            intros o' Ho'. apply Hb. right. assumption.
        - intros o1 k [->|Hin]%elem_of_cons Hk1 Hi1; [congruence | eauto]. }
    apply keyed_spec in Hko as Hko'. destruct Hko' as [Hd (k & Hi & Hk)].
    destruct (decide (k ∈ map fst seen)) as [Hin|Hnin].
    { destruct (IH seen) as (added & E & Hsub & Hadded & Hfirst & Hall).
      exists added. rewrite Hskip by eauto.
      split; [assumption|]. split; [apply sublist_cons; assumption|].
      split; [assumption|]. split.
      - intros [|o0 before] o1 after k1 E1 Hk1 Hi1 Hn Hb.
        + injection E1 as <- _. congruence.
        + injection E1 as <- E1. eapply Hfirst; eauto.
          intros o' Ho'. apply Hb. right. assumption.
      - intros o1 k1 [->|Hin1]%elem_of_cons Hk1 Hi1; [|eauto].
        rewrite Hi in Hi1. injection Hi1 as <-. rewrite map_app.
        apply elem_of_app. left. assumption. }
    destruct (IH (seen ++ [(k, o)])) as (added & E & Hsub & Hadded & Hfirst & Hall).
    exists ((k, o) :: added).
    split.
    { simpl. rewrite bool_decide_eq_false_2 by assumption. rewrite Hi.
      rewrite bool_decide_eq_true_2 by auto. rewrite E, <- app_assoc. reflexivity. }
    split; [simpl; apply sublist_skip; assumption|].
    split.
    { intros k1 o1 [[= -> ->]|Hin]%elem_of_cons; [auto | eauto]. }
    split.
    + intros [|o0 before] o1 after k1 E1 Hk1 Hi1 Hn Hb.
      * injection E1 as <- _. rewrite Hi in Hi1. injection Hi1 as <-. left.
      * injection E1 as <- E1. right. eapply Hfirst; eauto.
        -- rewrite map_app, elem_of_app. intros [?|Hx]; [contradiction|].
           simpl in Hx. apply list_elem_of_singleton in Hx. subst k1.
           eapply Hb; [left | assumption | assumption].
        -- intros o' Ho'. apply Hb. right. assumption.
    + intros o1 k1 [->|Hin1]%elem_of_cons Hk1 Hi1.
      * rewrite Hi in Hi1. injection Hi1 as <-. rewrite map_app.
        apply elem_of_app. right. left.
      * replace (seen ++ (k, o) :: added) with ((seen ++ [(k, o)]) ++ added)
          by (rewrite <- app_assoc; reflexivity).
        eauto.
Qed.

Lemma remove_duplicates_loop_fresh (outages : list outage) :
  forall seen,
    (forall o, o ∈ outages -> keyed o = true) ->
    NoDup (map o_id outages) ->
    (forall o k, o ∈ outages -> o_id o = Some k -> k ∉ map fst seen) ->
    map snd (remove_duplicates_loop seen outages) = map snd seen ++ outages.
Proof.
  induction outages as [|o rest IH]; intros seen Hk Hnd Hfresh.
  - simpl. rewrite app_nil_r. reflexivity.
  - destruct (proj1 (keyed_spec o) (Hk o ltac:(left))) as [Hd (k & Hi & Hne)].
    simpl. rewrite bool_decide_eq_false_2 by assumption. rewrite Hi.
    rewrite bool_decide_eq_true_2
      by (split; [assumption | eapply Hfresh; [left | assumption]]).
    simpl in Hnd. apply NoDup_cons in Hnd as [Hnotin Hnd].
    rewrite IH.
    + rewrite map_app, <- app_assoc. reflexivity.
    + intros o' Ho'. apply Hk. right. assumption.
    + assumption.
    + intros o' k' Ho' Hi'. rewrite map_app, elem_of_app. intros [Hs|Hx].
      * eapply Hfresh; [right; exact Ho' | exact Hi' | exact Hs].
      * simpl in Hx. apply list_elem_of_singleton in Hx. subst k'.
        apply Hnotin. rewrite Hi, <- Hi'. apply list_elem_of_In, in_map.
        by apply list_elem_of_In.
Qed.

(** X3.  [remove_duplicates] keeps, in the order of its input, the first
    record of every identifier among the records that have a date and an
    identifier, and nothing else. *)
Theorem remove_duplicates_keeps_first (outages : list outage) :
  remove_duplicates outages `sublist_of` outages
  /\ (forall o, o ∈ remove_duplicates outages -> keyed o = true)
  /\ (forall before o after,
        outages = before ++ o :: after -> keyed o = true ->
        (forall o', o' ∈ before -> keyed o' = true -> o_id o' <> o_id o) ->
        o ∈ remove_duplicates outages)
  /\ (forall o, o ∈ outages -> keyed o = true ->
        exists o', o' ∈ remove_duplicates outages /\ o_id o' = o_id o)
  /\ (forall o o', o ∈ remove_duplicates outages ->
        o' ∈ remove_duplicates outages -> o_id o = o_id o' -> o = o').
Proof.
  unfold remove_duplicates.
  destruct (remove_duplicates_loop_added outages [])
    as (added & E & Hsub & Hadded & Hfirst & Hall).
  rewrite E. simpl.
  split; [assumption|].
  split.
  { intros o Ho. apply list_elem_of_In, in_map_iff in Ho as ([k o'] & <- & Hko).
    apply list_elem_of_In, Hadded in Hko as [Hk _]. exact Hk. }
  split.
  { intros before o after -> Hk Hb.
    destruct (proj1 (keyed_spec o) Hk) as [_ (k & Hi & _)].
    apply list_elem_of_In, in_map_iff. exists (k, o). split; [reflexivity|].
    apply list_elem_of_In. eapply Hfirst; eauto.
    - intros []%elem_of_nil.
    - intros o' Ho' Hk'. rewrite <- Hi. auto. }
  split.
  { intros o Ho Hk.
    destruct (proj1 (keyed_spec o) Hk) as [_ (k & Hi & _)].
    specialize (Hall o k Ho Hk Hi). simpl in Hall.
    apply list_elem_of_In, in_map_iff in Hall as ([k' o'] & Hk' & Hin).
    simpl in Hk'. subst k'. exists o'. split.
    - apply list_elem_of_In, in_map_iff. exists (k, o'). split; [reflexivity | assumption].
    - apply list_elem_of_In, Hadded in Hin as [_ ->]. congruence. }
  intros o o' Ho Ho' Hid.
  eapply (NoDup_map_inj o_id); [| exact Ho | exact Ho' | exact Hid].
  pose proof (remove_duplicates_spec outages) as [Hnd _].
  unfold remove_duplicates in Hnd. rewrite E in Hnd. exact Hnd.
Qed.

(** X4.  Removing duplicates a second time changes nothing. *)
Theorem remove_duplicates_idempotent (outages : list outage) :
  remove_duplicates (remove_duplicates outages) = remove_duplicates outages.
Proof.
  pose proof (remove_duplicates_spec outages) as [Hnd _].
  destruct (remove_duplicates_loop_added outages [])
    as (added & E & _ & Hadded & _).
  unfold remove_duplicates at 1.
  rewrite remove_duplicates_loop_fresh; [reflexivity | | assumption |].
  - intros o Ho. unfold remove_duplicates in Ho. rewrite E in Ho. simpl in Ho.
    apply list_elem_of_In, in_map_iff in Ho as ([k o'] & <- & Hko).
    apply list_elem_of_In, Hadded in Hko as [Hk _]. exact Hk.
  - intros o k _ _ []%elem_of_nil.
Qed.

End DedupFacts.

Section RowsFacts.
Context `{PyLib}.
Import CebParser.

Lemma process_outages_built (raw processed : list outage) :
  process_outages raw = Return processed ->
  Forall2 built_from (List.filter date_parses raw) processed.
Proof.
  revert processed. induction raw as [|row rest IH]; intros processed Hp.
  - injection Hp as <-. constructor.
  - cbn [process_outages] in Hp.
    bind_inv Hp. rename v into i, E into Hi.
    bind_inv Hp. rename v into times, E into Ht.
    bind_inv Hp. rename v into processed', E into Hrest.
    specialize (IH _ Hrest).
    cbn [List.filter]. unfold date_parses at 1. rewrite Ht.
    destruct times as [[f t]|].
    + injection Hp as <-. constructor; [|assumption].
      unfold built_from; cbn. repeat split; eauto.
    + injection Hp as <-. assumption.
Qed.

(** X5.  The records built for a district are, in the order of the rows, one
    for each row whose date is read: a row whose date is not read is left
    out and the others are still processed.  The records are built whenever
    the text of every row can be encoded and no date raises. *)
Theorem process_outages_rows (raw : list outage) :
  (forall processed,
     process_outages raw = Return processed ->
     Forall2 built_from (List.filter date_parses raw) processed)
  /\ ((forall row, row ∈ raw ->
         encodable row /\ forall e, parse_french_date (o_date row) <> Raise e) ->
      exists processed, process_outages raw = Return processed).
Proof.
  split; [intros processed; apply process_outages_built|].
  induction raw as [|row rest IH]; intros Hrows; [exists []; reflexivity|].
  destruct (Hrows row ltac:(left)) as [Henc Hdate].
  destruct IH as [processed Hrest].
  { intros r Hr. apply Hrows. right. exact Hr. }
  destruct (encode_utf8_total _ (json_str_scalar row Henc)) as [bs Hbs].
  cbn [process_outages]. unfold generate_outage_id. rewrite Hbs. cbn [rbind].
  destruct (parse_french_date (o_date row)) as [times|e] eqn:Ht;
    [|exfalso; exact (Hdate e eq_refl)].
  cbn [rbind]. rewrite Hrest. cbn [rbind].
  destruct times as [[f t]|]; eauto.
Qed.

(** The records of the dictionary come from rows of the tables. *)
Lemma process_districts_built (district_data : list (str * str)) :
  forall (acc obd : list (str * list outage)) (P : outage -> Prop),
    (forall d l o, (d, l) ∈ acc -> o ∈ l -> P o) ->
    process_districts district_data acc = Return obd ->
    forall d l o, (d, l) ∈ obd -> o ∈ l ->
      P o \/ exists district district_html row,
               (district, district_html) ∈ district_data
               /\ row ∈ parse_table_html district_html district
               /\ built_from row o.
Proof.
  induction district_data as [|[district district_html] rest IH];
    intros acc obd P Hacc Hp d l o Hin Ho.
  - injection Hp as <-. left. eauto.
  - cbn [process_districts] in Hp. bind_inv Hp. rename v into processed.
    apply process_outages_built in E.
    assert (Hacc' : forall d0 l0 o0,
              (d0, l0) ∈ dict_set acc district (remove_duplicates processed) ->
              o0 ∈ l0 ->
              P o0 \/ exists row,
                        row ∈ parse_table_html district_html district
                        /\ built_from row o0).
    { intros d0 l0 o0 Hin0 Ho0.
      apply dict_set_elem in Hin0 as [[-> ->]|Hin0]; [|left; eauto].
      right. apply remove_duplicates_spec in Ho0.
      apply list_elem_of_lookup in Ho0 as [n Hn].
      destruct (Forall2_lookup_r _ _ _ _ _ E Hn) as (row & Hrow & Hb).
      exists row. split; [|exact Hb].
      apply list_elem_of_lookup_2, list_elem_of_In, filter_In in Hrow as [Hrow _].
      by apply list_elem_of_In. }
    destruct (IH _ _ _ Hacc' Hp d l o Hin Ho)
      as [[HP|(row & Hrow & Hb)]|(d' & h' & row & Hd & Hrow & Hb)].
    + left. exact HP.
    + right. exists district, district_html, row. split; [by left | auto].
    + right. exists d', h', row. split; [by right | auto].
Qed.

(** X6.  Every record the pipeline returns was built from a row of the table
    of a district of the page: it has the four texts of the row, the
    fingerprint of the row as identifier, and the start and end read from
    the date of the row, written with [isoformat]. *)
Theorem parsed_records_come_from_rows (page : http_outcome) (now_wall : Z)
    (today future : list outage) :
  fetch_and_parse_outages page now_wall = Return (today, future) ->
  exists html,
    page = http_text html
    /\ forall o, o ∈ today ++ future ->
         exists district district_html row,
           (district, district_html) ∈ extract_district_data html
           /\ row ∈ parse_table_html district_html district
           /\ built_from row o.
Proof.
  unfold fetch_and_parse_outages. intros Hf.
  destruct page as [|html]; [discriminate|]. cbn [fetch_ceb_page rbind] in Hf.
  exists html. split; [reflexivity|].
  destruct (extract_district_data html) as [|kv data] eqn:Hd; [discriminate|].
  bind_inv Hf. rename v into obd, E into Hobd.
  unfold categorize_outages in Hf.
  apply categorize_loop_filter in Hf as [-> ->]. cbn [app].
  intros o Ho.
  assert (Hall : o ∈ concat (map snd obd)).
  { apply elem_of_app in Ho as [Ho|Ho];
      apply list_elem_of_In, filter_In in Ho as [Ho _];
      by apply list_elem_of_In. }
  apply by_district_in in Hall as (d & l & Hdl & Hol).
  destruct (process_districts_built _ _ _ (fun _ => False)
              ltac:(intros ? ? ? []%elem_of_nil) Hobd d l o Hdl Hol)
    as [[]|Hrow].
  exact Hrow.
Qed.

Lemma filter_sublist {A} (p : A -> bool) (l : list A) :
  List.filter p l `sublist_of` l.
Proof.
  induction l as [|x l IH]; simpl; [constructor|].
  destruct (p x); [apply sublist_skip | apply sublist_cons]; assumption.
Qed.

Lemma categorize_one_None now_wall (o : outage) :
  categorize_one now_wall o = Return None <-> start_of o = None.
Proof.
  unfold categorize_one, start_of.
  destruct (o_from o) as [[[|c s]|d]|]; try tauto.
  - split; [|discriminate]. intros Hc.
    bind_inv Hc. bind_inv Hc. discriminate.
  - split; [|discriminate]. intros Hc.
    bind_inv Hc. bind_inv Hc. discriminate.
Qed.

(** X7.  [categorize_outages] puts every record that has a start in exactly
    one of the two lists, leaves out the records that have none, and keeps
    the order of its input in both lists. *)
Theorem categorize_outages_partition (now_wall : Z)
    (outages_by_district : list (str * list outage))
    (today future : list outage) :
  categorize_outages now_wall outages_by_district = Return (today, future) ->
  let all_outages := concat (map snd outages_by_district) in
  today `sublist_of` all_outages /\ future `sublist_of` all_outages
  /\ (forall o, o ∈ today -> o ∉ future)
  /\ (forall o, o ∈ all_outages ->
        (o ∈ today \/ o ∈ future) <-> is_Some (start_of o))
  /\ (length today + length future
      = length (List.filter (fun o => bool_decide (is_Some (start_of o)))
                  all_outages))%nat.
Proof.
  intros Hc all_outages. unfold categorize_outages in Hc. fold all_outages in Hc.
  pose proof (categorize_loop_returns _ _ _ _ _ Hc) as Hret.
  apply categorize_loop_filter in Hc as [-> ->]. simpl.
  split; [apply filter_sublist|]. split; [apply filter_sublist|].
  split.
  { intros o [_ Ht]%list_elem_of_In%filter_In [_ Hf]%list_elem_of_In%filter_In.
    eapply today_xor_future; eassumption. }
  assert (Hcase : forall o, o ∈ all_outages ->
            (is_today now_wall o = true /\ is_future now_wall o = false
             /\ is_Some (start_of o))
            \/ (is_today now_wall o = false /\ is_future now_wall o = true
                /\ is_Some (start_of o))
            \/ (is_today now_wall o = false /\ is_future now_wall o = false
                /\ start_of o = None)).
  { intros o Ho. destruct (Hret o Ho) as [c Hco].
    unfold is_today, is_future. rewrite Hco.
    destruct c as [[|]|].
    - left. repeat split. destruct (start_of o) eqn:Hs; [eauto|].
      apply (categorize_one_None now_wall) in Hs. congruence.
    - right; left. repeat split. destruct (start_of o) eqn:Hs; [eauto|].
      apply (categorize_one_None now_wall) in Hs. congruence.
    - right; right. repeat split. by apply categorize_one_None in Hco. }
  split.
  { intros o Ho. rewrite !list_elem_of_In, !filter_In, <- !list_elem_of_In.
    destruct (Hcase o Ho) as [(Ht & Hf & Hs)|[(Ht & Hf & Hs)|(Ht & Hf & Hs)]];
      rewrite Ht, Hf; split; try tauto.
    - intros [[_ ?]|[_ ?]]; discriminate.
    - rewrite Hs. intros []%is_Some_None. }
  clear Hret. induction all_outages as [|o l IH]; [reflexivity|].
  assert (Hl : forall o, o ∈ l -> _) by (intros o' Ho'; apply (Hcase o'); right; exact Ho').
  specialize (IH Hl). cbn [List.filter].
  destruct (Hcase o ltac:(left)) as [(Ht & Hf & Hs)|[(Ht & Hf & Hs)|(Ht & Hf & Hs)]];
    rewrite Ht, Hf.
  - rewrite bool_decide_eq_true_2 by assumption. simpl. lia.
  - rewrite bool_decide_eq_true_2 by assumption. simpl. lia.
  - rewrite bool_decide_eq_false_2 by (rewrite Hs; intros []%is_Some_None).
    simpl. lia.
Qed.

End RowsFacts.

(** The sample page gives two records. *)
Lemma parsed_records_come_from_rows_witness :
  exists today future,
    @CebParser.fetch_and_parse_outages Sample.sample_lib
      (CebParser.http_text Sample.sample_page) sample_now
      = Return (today, future)
    /\ length (today ++ future) = 2%nat.
Proof.
  assert (Hf : exists today future,
             @CebParser.fetch_and_parse_outages Sample.sample_lib
               (CebParser.http_text Sample.sample_page) sample_now
               = Return (today, future)
             /\ length (today ++ future) = 2%nat)
    by (eexists _, _; vm_compute; split; reflexivity).
  destruct Hf as (today & future & Hf & Hlen). exists today, future.
  destruct (@parsed_records_come_from_rows Sample.sample_lib _ _ _ _ Hf)
    as (html & _ & _).
  split; [exact Hf | exact Hlen].
Defined.

(** The record of the sample page, and a row that has no start yet. *)
Lemma categorize_outages_partition_witness :
  @CebParser.categorize_outages Sample.sample_lib sample_now
    [(U "blackriver", [sample_parsed; sample_outage])]
  = Return ([sample_parsed], [])
  /\ (length [sample_parsed] + length (@nil CebParser.outage) = 1)%nat.
Proof.
  assert (Hc : @CebParser.categorize_outages Sample.sample_lib sample_now
                 [(U "blackriver", [sample_parsed; sample_outage])]
               = Return ([sample_parsed], [])) by (vm_compute; reflexivity).
  split; [exact Hc|].
  destruct (@categorize_outages_partition Sample.sample_lib sample_now _ _ _ Hc)
    as (_ & _ & _ & _ & Hlen).
  rewrite Hlen. vm_compute. reflexivity.
Defined.

(** ** A run: detection, then dispatch *)

Section RunFacts.
Context `{PyLib}.
Variable utcnow : nat -> Z.
Variable send_message : nat -> Z -> str -> Monitor.send_outcome.
Import Database Monitor.

Lemma new_outage_fields (i : str) (item : feed_item) (n : nat) (o : Outage) :
  new_outage utcnow i item n = Return o ->
  id o = i
  /\ required (f_locality item) = Return (locality o)
  /\ required (f_district item) = Return (district o)
  /\ streets o = nullable (f_streets item)
  /\ date_description o = nullable (f_date item)
  /\ (length (id o) <= 255 /\ length (locality o) <= 255
      /\ length (district o) <= 255)%nat
  /\ first_seen o = utcnow n.
Proof.
  unfold new_outage. intros Hnew.
  bind_inv Hnew. bind_inv Hnew. bind_inv Hnew. bind_inv Hnew.
  destruct (_ && _) eqn:Hw in Hnew; [|discriminate].
  injection Hnew as <-. cbn.
  apply andb_prop in Hw as [Hw Hw3]. apply andb_prop in Hw as [Hw1 Hw2].
  apply within_spec in Hw1, Hw2, Hw3. auto 10.
Qed.

Lemma process_one_new (item : feed_item) (w : world) (i : str) (o : Outage) :
  outages (store w) !! i = None ->
  outages (store (process_one utcnow item w).1) !! i = Some o ->
  f_id item = text i
  /\ new_outage utcnow i item (clock_reads w) = Return o
  /\ clock_reads (process_one utcnow item w).1 = S (S (clock_reads w)).
Proof.
  unfold process_one. intros Hn Ho.
  destruct (f_id item) as [| |[|c rest]] eqn:Hid; simpl in Ho; try congruence.
  destruct (outages (store w) !! (c :: rest)) as [existing|] eqn:Hex.
  - simpl in Ho. destruct (decide (i = c :: rest)) as [->|Hne]; [congruence|].
    rewrite lookup_insert_ne in Ho by congruence. congruence.
  - destruct (new_outage utcnow (c :: rest) item (clock_reads w)) as [o'|e] eqn:Hnew;
      simpl in Ho; [|congruence].
    destruct (decide (i = c :: rest)) as [->|Hne].
    + rewrite lookup_insert_eq in Ho. injection Ho as ->. auto.
    + rewrite lookup_insert_ne in Ho by congruence. congruence.
Qed.

Lemma process_loop_new_row (l : list feed_item) :
  forall (w : world) (acc : list str) (i : str) (o : Outage),
    outages (store w) !! i = None ->
    outages (store (process_loop utcnow l w acc).1) !! i = Some o ->
    exists item n o0,
      item ∈ l /\ f_id item = text i
      /\ (clock_reads w <= n
          /\ n + 2 <= clock_reads (process_loop utcnow l w acc).1)%nat
      /\ new_outage utcnow i item n = Return o0
      /\ same_but_last_checked o0 o.
Proof.
  induction l as [|item l IH]; intros w acc i o Hn Ho; simpl in *; [congruence|].
  pose proof (process_one_spec utcnow item w) as Hone.
  pose proof (process_one_new item w i) as Hnew.
  destruct (process_one utcnow item w) as [w1 new] eqn:Hp. simpl in Hone, Hnew.
  destruct Hone as (_ & Hreads1 & _).
  set (acc1 := match new with
               | Some outage_id => acc ++ [outage_id]
               | None => acc
               end) in *.
  destruct (process_loop_spec utcnow l w1 acc1) as (_ & Hreads2 & Hkeep2 & _).
  destruct (outages (store w1) !! i) as [o1|] eqn:Ho1.
  - destruct (Hnew o1 Hn eq_refl) as (Hid & Hrow & Hclock).
    destruct (Hkeep2 i o1 Ho1) as (o2 & Ho2 & Hs2 & _).
    assert (o2 = o) as -> by congruence.
    exists item, (clock_reads w), o1. split; [by left|]. split; [exact Hid|].
    split; [lia|]. auto.
  - destruct (IH w1 acc1 i o Ho1 Ho) as (it & n & o0 & Hin & Hid & Hc & Hrow & Hs).
    exists it, n, o0. split; [by right|]. split; [exact Hid|].
    split; [lia|]. auto.
Qed.

Lemma process_loop_new_ids (l : list feed_item) :
  forall (w : world) (acc : list str),
    exists added,
      (process_loop utcnow l w acc).2 = acc ++ added
      /\ NoDup added
      /\ forall i, i ∈ added
                   <-> outages (store w) !! i = None
                       /\ is_Some (outages (store (process_loop utcnow l w acc).1)
                                     !! i).
Proof.
  induction l as [|item l IH]; intros w acc; simpl.
  - exists []. rewrite app_nil_r. split; [reflexivity|]. split; [constructor|].
    intros i. split; [intros []%elem_of_nil|].
    intros [Hn [o Ho]]. congruence.
  - pose proof (process_one_spec utcnow item w) as Hone.
    destruct (process_one utcnow item w) as [w1 new] eqn:Hp. simpl in Hone.
    destruct Hone as (_ & _ & Hkeep1 & Hfresh1 & Hadd1 & Hnew1).
    set (acc1 := match new with
                 | Some outage_id => acc ++ [outage_id]
                 | None => acc
                 end).
    destruct (IH w1 acc1) as (added & E & Hnd & Hiff).
    destruct (process_loop_spec utcnow l w1 acc1) as (_ & _ & Hkeep2 & _).
    assert (Hlater : forall i, is_Some (outages (store w1) !! i) ->
              is_Some (outages (store (process_loop utcnow l w1 acc1).1) !! i)).
    { intros i [o1 Ho1]. destruct (Hkeep2 i o1 Ho1) as (o2 & Ho2 & _). eauto. }
    destruct new as [k|].
    + destruct (Hnew1 k eq_refl) as (Hk & Hid & Hne & Hok).
      specialize (Hadd1 k Hid Hne Hok).
      exists (k :: added). split; [rewrite E; unfold acc1; by rewrite <- app_assoc|].
      split.
      { constructor; [|exact Hnd]. intros Hin. apply Hiff in Hin as [Hin _].
        rewrite Hin in Hadd1. by apply is_Some_None in Hadd1. }
      intros i. rewrite elem_of_cons, Hiff. split.
      * intros [->|[Hn1 Hs]]; [auto|]. split; [|exact Hs].
        destruct (outages (store w) !! i) as [o|] eqn:Ho; [|reflexivity].
        destruct (Hkeep1 i o Ho) as (o' & Ho' & _). congruence.
      * intros [Hn Hs].
        destruct (outages (store w1) !! i) as [o1|] eqn:Ho1; [|auto].
        left. destruct (Hfresh1 i Hn ltac:(eauto)) as [Hk' _]. congruence.
    + exists added. split; [exact E|]. split; [exact Hnd|].
      intros i. rewrite Hiff. split.
      * intros [Hn1 Hs]. split; [|exact Hs].
        destruct (outages (store w) !! i) as [o|] eqn:Ho; [|reflexivity].
        destruct (Hkeep1 i o Ho) as (o' & Ho' & _). congruence.
      * intros [Hn Hs]. split; [|exact Hs].
        destruct (outages (store w1) !! i) as [o1|] eqn:Ho1; [|reflexivity].
        destruct (Hfresh1 i Hn ltac:(eauto)) as [Hk' _]. discriminate.
Qed.



Lemma get_users_subscribed_to (d : db) (locality_name : str) (u : Z) :
  u ∈ map fst (get_users_with_language_for_locality d locality_name)
  <-> subscribed_to d locality_name u.
Proof.
  unfold get_users_with_language_for_locality, subscribed_to. split.
  - intros Hin.
    apply list_elem_of_In, in_map_iff in Hin as ([u' lang] & <- & Hin).
    apply list_elem_of_In in Hin.
    apply list_elem_of_bind in Hin as (row & Hin & Hrow).
    apply list_elem_of_bind in Hin as (s & Hin & Hs).
    apply list_elem_of_bind in Hin as (loc & Hin & Hloc).
    destruct (_ && _) eqn:Hc in Hin; [|inversion Hin].
    apply list_elem_of_singleton in Hin. injection Hin as -> _.
    apply andb_prop in Hc as [Hc Hact]. apply andb_prop in Hc as [Hc Hname].
    apply andb_prop in Hc as [Hu Hl].
    apply bool_decide_eq_true in Hname, Hu, Hl.
    exists row, s, loc. simpl. auto 10.
  - intros (row & s & loc & Hrow & Hs & Hloc & Hu & Hact & Hsu & Hsl & Hname).
    apply list_elem_of_In, in_map_iff.
    exists (u, match language row with
               | Some (c :: lang) => c :: lang
               | _ => U "en"
               end).
    split; [reflexivity|]. apply list_elem_of_In.
    apply list_elem_of_bind. exists row. split; [|exact Hrow].
    apply list_elem_of_bind. exists s. split; [|exact Hs].
    apply list_elem_of_bind. exists loc. split; [|exact Hloc].
    rewrite !bool_decide_eq_true_2 by congruence. rewrite Hact. simpl.
    rewrite Hu. by left.
Qed.

Lemma subscribed_to_mono (d d' : db) (locality_name : str) (u : Z) :
  only_deactivated (users d) (users d') ->
  subscriptions d' = subscriptions d -> localities d' = localities d ->
  subscribed_to d' locality_name u -> subscribed_to d locality_name u.
Proof.
  intros Hu Hs Hl (row' & s & loc & Hrow & Hsin & Hloc & Hid & Hact & Hrest).
  rewrite Hs in Hsin. rewrite Hl in Hloc.
  apply list_elem_of_lookup in Hrow as [n Hn].
  unfold only_deactivated in Hu.
  destruct (Forall2_lookup_r _ _ _ _ _ Hu Hn) as (row & Hrow & Hid' & _ & Hact').
  exists row, s, loc. split; [eapply list_elem_of_lookup_2; exact Hrow|].
  split; [exact Hsin|]. split; [exact Hloc|].
  split; [congruence|]. split; [auto|]. exact Hrest.
Qed.

(** The calls of a dispatch: each is about a stored outage of the list, to
    a user the query lists for the locality of that outage. *)
Lemma send_notifications_calls (outage_ids : list str) :
  forall w : world,
    exists l,
      dispatched (active_in (users (store w))) w
        (_send_notifications utcnow send_message outage_ids w) l
      /\ (forall a, a ∈ l ->
            exists k o, k ∈ outage_ids /\ outages (store w) !! k = Some o
                        /\ a_outage a = id o
                        /\ subscribed_to (store w) (locality o) (a_user a)).
Proof.
  induction outage_ids as [|outage_id rest IH]; intros w; simpl.
  - exists []. split; [apply dispatched_refl|]. intros a Ha. inversion Ha.
  - destruct (outages (store w) !! outage_id) as [o|] eqn:Ho.
    + set (ul := get_users_with_language_for_locality (store w) (locality o)).
      destruct (notify_users_dispatched utcnow send_message o ul w)
        as (l1 & D1 & Hout1 & _).
      destruct (IH (notify_users utcnow send_message o ul w))
        as (l2 & D2 & Hout2).
      exists (l1 ++ l2). split.
      * eapply dispatched_trans.
        -- eapply dispatched_weaken; [|exact D1]. intros a _ Ha.
           eapply get_users_active. exact Ha.
        -- eapply dispatched_weaken; [|exact D2]. intros a _ Ha.
           eapply only_deactivated_active; [apply D1 | exact Ha].
      * intros a Ha. apply elem_of_app in Ha as [Ha|Ha].
        -- exists outage_id, o. split; [by left|]. split; [exact Ho|].
           split; [auto|]. apply get_users_subscribed_to.
           exact (d_targets _ _ _ _ D1 a Ha).
        -- destruct (Hout2 a Ha) as (k & o' & Hk & Ho' & Hid & Hsub).
           exists k, o'. split; [by right|].
           rewrite (d_outages _ _ _ _ D1) in Ho'. split; [exact Ho'|].
           split; [exact Hid|].
           eapply subscribed_to_mono; [apply D1 | apply D1 | apply D1 | exact Hsub].
    + destruct (IH w) as (l & D & Hout). exists l. split; [exact D|].
      intros a Ha. destruct (Hout a Ha) as (k & o' & Hk & Ho' & Hid & Hsub).
      exists k, o'. split; [by right|done].
Qed.

Lemma process_outages_frame (data : feed) (w : world) :
  let w1 := (_process_outages utcnow data w).1 in
  same_but_outages w w1
  /\ (clock_reads w <= clock_reads w1)%nat
  /\ (forall i o, outages (store w) !! i = Some o ->
        exists o', outages (store w1) !! i = Some o'
                   /\ same_but_last_checked o o').
Proof.
  unfold _process_outages.
  destruct (process_loop_spec utcnow
              (feed_get data (U "today") ++ feed_get data (U "future")) w [])
    as (Hsame & Hclock & Hkeep & _).
  split; [exact Hsame|]. split; [exact Hclock|].
  intros i o Ho. destruct (Hkeep i o Ho) as (o' & Ho' & Hs & _). eauto.
Qed.

(** The run as detection followed by a dispatch of the new identifiers. *)
Lemma check_for_outages_steps (response : feed_outcome) (w : world) :
  check_for_outages utcnow send_message response w = w
  \/ check_for_outages utcnow send_message response w
     = _send_notifications utcnow send_message
         (_process_outages utcnow (_fetch_outages response) w).2
         (_process_outages utcnow (_fetch_outages response) w).1.
Proof.
  unfold check_for_outages.
  destruct (_fetch_outages response) as [|kv data] eqn:Hf; [by left|]. right.
  destruct (_process_outages utcnow (kv :: data) w) as [w1 new]. simpl.
  destruct new; reflexivity.
Qed.

(** X10.  A run changes no locality and no subscription; it changes users
    only by marking some inactive; it removes no notification record and no
    stored outage, and changes nothing of a stored outage but its
    [last_checked]. *)
Theorem check_for_outages_frame (response : feed_outcome) (w : world) :
  let w' := check_for_outages utcnow send_message response w in
  localities (store w') = localities (store w)
  /\ subscriptions (store w') = subscriptions (store w)
  /\ only_deactivated (users (store w)) (users (store w'))
  /\ (forall k t, notifications_sent (store w) !! k = Some t ->
        notifications_sent (store w') !! k = Some t)
  /\ (forall i o, outages (store w) !! i = Some o ->
        exists o', outages (store w') !! i = Some o'
                   /\ same_but_last_checked o o')
  /\ (clock_reads w <= clock_reads w')%nat
  /\ exists l, sent_log w' = sent_log w ++ l.
Proof.
  intros w'. subst w'.
  destruct (check_for_outages_steps response w) as [->| ->].
  { split; [reflexivity|]. split; [reflexivity|].
    split; [apply only_deactivated_refl|]. split; [auto|].
    split; [intros i o Ho; exists o; split;
            [exact Ho | apply same_but_last_checked_refl]|].
    split; [lia|]. exists []. by rewrite app_nil_r. }
  destruct (process_outages_frame (_fetch_outages response) w)
    as ((Hu & Hl & Hs & Hn & Hlog) & Hclock & Hkeep).
  destruct (send_notifications_calls
              (_process_outages utcnow (_fetch_outages response) w).2
              (_process_outages utcnow (_fetch_outages response) w).1)
    as (l & D & _).
  split; [rewrite (d_localities _ _ _ _ D); exact Hl|].
  split; [rewrite (d_subscriptions _ _ _ _ D); exact Hs|].
  split; [rewrite <- Hu; apply D|].
  split; [intros k t Hk; apply (d_kept _ _ _ _ D); by rewrite Hn|].
  split; [intros i o Ho; rewrite (d_outages _ _ _ _ D); auto|].
  split; [pose proof (d_clock _ _ _ _ D); lia|].
  exists l. rewrite (d_log _ _ _ _ D), Hlog. reflexivity.
Qed.

(** X11.  Every call a run makes to the gateway is about an outage that was
    not stored before the run and is stored after it, and goes to a user
    who, before the run, was active and subscribed to a locality with the
    name of the locality of that outage. *)
Theorem run_calls_subscribers_of_new_outages (response : feed_outcome)
    (w : world) :
  let w' := check_for_outages utcnow send_message response w in
  exists l,
    sent_log w' = sent_log w ++ l
    /\ forall a, a ∈ l ->
         outages (store w) !! a_outage a = None
         /\ exists o, outages (store w') !! a_outage a = Some o
                      /\ id o = a_outage a
                      /\ subscribed_to (store w) (locality o) (a_user a).
Proof.
  intros w'. subst w'.
  destruct (check_for_outages_steps response w) as [->| ->].
  { exists []. split; [by rewrite app_nil_r|]. intros a []%elem_of_nil. }
  set (data := _fetch_outages response).
  destruct (process_outages_frame data w)
    as ((Hu & Hl & Hs & Hn & Hlog) & Hclock & Hkeep).
  destruct (process_loop_new_ids
              (feed_get data (U "today") ++ feed_get data (U "future")) w [])
    as (added & E & _ & Hiff).
  pose proof (process_loop_new_row
                (feed_get data (U "today") ++ feed_get data (U "future")) w [])
    as Hrow.
  fold (_process_outages utcnow data w) in E, Hiff, Hrow.
  destruct (send_notifications_calls (_process_outages utcnow data w).2
              (_process_outages utcnow data w).1) as (l & D & Hcalls).
  exists l. split; [rewrite (d_log _ _ _ _ D), Hlog; reflexivity|].
  intros a Ha. destruct (Hcalls a Ha) as (k & o & Hk & Ho & Hid & Hsub).
  rewrite E in Hk. simpl in Hk. apply Hiff in Hk as [Hnone _].
  destruct (Hrow k o Hnone Ho) as (item & n & o0 & _ & _ & _ & Hnew & Hsame).
  assert (Hido : id o = k).
  { destruct Hsame as [-> _]. apply new_outage_fields in Hnew. tauto. }
  rewrite Hid, Hido. split; [exact Hnone|]. exists o.
  split; [rewrite (d_outages _ _ _ _ D); exact Ho|]. split; [exact Hido|].
  destruct Hsub as (row & s & loc & Hrow' & Hsin & Hloc & Hrest).
  exists row, s, loc. rewrite <- Hu, <- Hs, <- Hl. auto.
Qed.

End RunFacts.


(** ** Subscriptions, accounts and languages *)

Section SubscriptionFacts.
Import Database.

Lemma is_pair_spec uid lid s :
  is_pair uid lid s = true <-> subscription_pair s = (uid, lid).
Proof.
  unfold is_pair, subscription_pair.
  rewrite andb_true_iff, !bool_decide_eq_true. split.
  - intros [-> ->]. reflexivity.
  - intros [= -> ->]. auto.
Qed.

Lemma is_subscribed_spec (d : db) (uid lid : Z) :
  is_subscribed d uid lid = true
  <-> (uid, lid) ∈ map subscription_pair (subscriptions d).
Proof.
  unfold is_subscribed.
  destruct (List.find _ _) as [s|] eqn:Hf.
  - apply find_some in Hf as [Hin Hp]. apply is_pair_spec in Hp.
    split; [|reflexivity]. intros _. rewrite <- Hp.
    apply list_elem_of_In, in_map, Hin.
  - split; [discriminate|]. intros Hin.
    apply list_elem_of_In, in_map_iff in Hin as (s & Hs & Hin).
    pose proof (find_none _ _ Hf s Hin) as Hn.
    apply is_pair_spec in Hs. congruence.
Qed.

Lemma is_subscribed_ext (d d' : db) :
  (forall p, p ∈ map subscription_pair (subscriptions d')
             <-> p ∈ map subscription_pair (subscriptions d)) ->
  forall u l, is_subscribed d' u l = is_subscribed d u l.
Proof.
  intros Hext u l. apply eq_true_iff_eq. rewrite !is_subscribed_spec. apply Hext.
Qed.

Lemma existsb_has_user (d : db) (uid : Z) :
  existsb (fun u => bool_decide (telegram_id u = uid)) (users d) = true
  <-> has_user d uid.
Proof.
  rewrite existsb_exists. unfold has_user.
  split; intros (row & Hin & Hid); exists row.
  - apply bool_decide_eq_true in Hid. split; [by apply list_elem_of_In | done].
  - split; [by apply list_elem_of_In | by apply bool_decide_eq_true].
Qed.

Lemma existsb_has_locality (d : db) (lid : Z) :
  existsb (fun l => bool_decide (locality_id l = lid)) (localities d) = true
  <-> has_locality d lid.
Proof.
  rewrite existsb_exists. unfold has_locality.
  split; intros (row & Hin & Hid); exists row.
  - apply bool_decide_eq_true in Hid. split; [by apply list_elem_of_In | done].
  - split; [by apply list_elem_of_In | by apply bool_decide_eq_true].
Qed.

Lemma with_subscriptions_same (d : db) :
  with_subscriptions d (subscriptions d) = d.
Proof. destruct d; reflexivity. Qed.

(** [add_subscription] where the two rows exist. *)
Lemma add_subscription_ok (d : db) (uid lid : Z) :
  has_user d uid -> has_locality d lid ->
  exists d',
    add_subscription d uid lid = Return (d', negb (is_subscribed d uid lid))
    /\ is_subscribed d' uid lid = true
    /\ (forall u l, (u, l) <> (uid, lid) ->
          is_subscribed d' u l = is_subscribed d u l)
    /\ (unique_subscriptions d -> unique_subscriptions d')
    /\ same_but_subscriptions d d'
    /\ (is_subscribed d uid lid = true -> d' = d).
Proof.
  unfold add_subscription.
  pose proof (is_subscribed_spec d uid lid) as Hspec.
  unfold is_subscribed in *.
  destruct (List.find (is_pair uid lid) (subscriptions d)) as [s|] eqn:Hf.
  - intros _ _. exists d. simpl.
    split; [reflexivity|]. rewrite Hf.
    split; [reflexivity|]. split; [reflexivity|]. split; [auto|].
    split; [repeat split | reflexivity].
  - intros Hu%existsb_has_user Hl%existsb_has_locality. rewrite Hu, Hl. simpl.
    eexists. split; [reflexivity|].
    assert (Hnew : forall p,
              p ∈ map subscription_pair
                    (subscriptions d ++ [mk_Subscription uid lid])
              <-> p ∈ map subscription_pair (subscriptions d) \/ p = (uid, lid)).
    { intros p. rewrite map_app, elem_of_app. simpl.
      rewrite list_elem_of_singleton. reflexivity. }
    split.
    { change (is_subscribed
                (with_subscriptions d
                   (subscriptions d ++ [mk_Subscription uid lid])) uid lid
              = true).
      apply is_subscribed_spec. simpl. apply Hnew. by right. }
    split.
    { intros u l Hne.
      change (is_subscribed
                (with_subscriptions d
                   (subscriptions d ++ [mk_Subscription uid lid])) u l
              = is_subscribed d u l).
      apply eq_true_iff_eq. rewrite !is_subscribed_spec. simpl.
      rewrite Hnew. split; [intros [?|?]; [done | contradiction] | auto]. }
    split.
    { unfold unique_subscriptions. simpl. intros Hnd.
      rewrite map_app. apply NoDup_app. split; [exact Hnd|].
      split; [|apply NoDup_singleton].
      intros p Hp Hq. simpl in Hq. apply list_elem_of_singleton in Hq. subst p.
      apply Hspec in Hp. discriminate. }
    split; [repeat split | discriminate].
Qed.

(** X12.  [add_subscription], for a user and a locality that have their rows:
    it answers whether the pair was not yet subscribed, after it the pair is
    subscribed and every other pair is as before, no pair is stored twice,
    and a pair that was already subscribed leaves the database as it was.
    Where a row is missing and the pair is not subscribed, the commit
    fails. *)
Theorem add_subscription_adds (d : db) (uid lid : Z) :
  (has_user d uid -> has_locality d lid ->
   exists d',
     add_subscription d uid lid = Return (d', negb (is_subscribed d uid lid))
     /\ is_subscribed d' uid lid = true
     /\ (forall u l, (u, l) <> (uid, lid) ->
           is_subscribed d' u l = is_subscribed d u l)
     /\ (unique_subscriptions d -> unique_subscriptions d')
     /\ same_but_subscriptions d d'
     /\ (is_subscribed d uid lid = true -> d' = d))
  /\ (is_subscribed d uid lid = false ->
      ~ (has_user d uid /\ has_locality d lid) ->
      add_subscription d uid lid = Raise OtherError).
Proof.
  split; [apply add_subscription_ok|].
  unfold add_subscription, is_subscribed.
  destruct (List.find (is_pair uid lid) (subscriptions d)) as [s|] eqn:Hf;
    [discriminate|].
  intros _ Hno.
  destruct (existsb _ (users d)) eqn:Hu; [|reflexivity].
  destruct (existsb _ (localities d)) eqn:Hl; [|reflexivity].
  exfalso. apply Hno. split.
  - by apply existsb_has_user.
  - by apply existsb_has_locality.
Qed.

Lemma delete_first_pairs uid lid (ss : list Subscription) :
  NoDup (map subscription_pair ss) ->
  forall p, p ∈ map subscription_pair (delete_first (is_pair uid lid) ss)
            <-> p ∈ map subscription_pair ss /\ p <> (uid, lid).
Proof.
  induction ss as [|s ss IH]; simpl; intros Hnd p.
  - rewrite elem_of_nil. tauto.
  - apply NoDup_cons in Hnd as [Hnotin Hnd].
    destruct (is_pair uid lid s) eqn:Hp.
    + apply is_pair_spec in Hp. rewrite elem_of_cons, Hp. split.
      * intros Hin. split; [by right|]. intros ->. rewrite Hp in Hnotin.
        contradiction.
      * intros [[->|Hin] Hne]; [contradiction | exact Hin].
    + assert (Hne : subscription_pair s <> (uid, lid)).
      { intros Hs%is_pair_spec. congruence. }
      simpl. rewrite !elem_of_cons, IH by exact Hnd. split.
      * intros [->|[Hin Hq]]; [auto | auto].
      * intros [[->|Hin] Hq]; [by left | right; auto].
Qed.

Lemma delete_first_NoDup uid lid (ss : list Subscription) :
  NoDup (map subscription_pair ss) ->
  NoDup (map subscription_pair (delete_first (is_pair uid lid) ss)).
Proof.
  induction ss as [|s ss IH]; simpl; intros Hnd; [constructor|].
  apply NoDup_cons in Hnd as [Hnotin Hnd].
  destruct (is_pair uid lid s); [exact Hnd|].
  simpl. apply NoDup_cons. split; [|auto].
  intros Hin. apply delete_first_pairs in Hin as [Hin _]; [|exact Hnd].
  contradiction.
Qed.

(** X13.  [remove_subscription], when no pair is stored twice: it answers
    whether the pair was subscribed, after it the pair is not subscribed and
    every other pair is as before. *)
Theorem remove_subscription_removes (d : db) (uid lid : Z) :
  unique_subscriptions d ->
  (remove_subscription d uid lid).2 = is_subscribed d uid lid
  /\ is_subscribed (remove_subscription d uid lid).1 uid lid = false
  /\ (forall u l, (u, l) <> (uid, lid) ->
        is_subscribed (remove_subscription d uid lid).1 u l
        = is_subscribed d u l)
  /\ unique_subscriptions (remove_subscription d uid lid).1
  /\ same_but_subscriptions d (remove_subscription d uid lid).1
  /\ (is_subscribed d uid lid = false -> (remove_subscription d uid lid).1 = d).
Proof.
  intros Hnd. unfold remove_subscription.
  assert (Hsub : is_subscribed d uid lid
                 = match List.find (is_pair uid lid) (subscriptions d) with
                   | Some _ => true
                   | None => false
                   end) by reflexivity.
  destruct (List.find (is_pair uid lid) (subscriptions d)) as [s|] eqn:Hf;
    rewrite Hsub; cbn [fst snd].
  - split; [reflexivity|].
    split.
    { apply not_true_is_false. rewrite is_subscribed_spec. simpl.
      rewrite delete_first_pairs by exact Hnd. tauto. }
    split.
    { intros u l Hne. apply eq_true_iff_eq. rewrite !is_subscribed_spec. simpl.
      rewrite delete_first_pairs by exact Hnd. tauto. }
    split; [apply delete_first_NoDup; exact Hnd|].
    split; [repeat split | discriminate].
  - split; [reflexivity|]. split; [exact Hsub|].
    split; [reflexivity|]. split; [exact Hnd|]. split; [repeat split | reflexivity].
Qed.

Lemma delete_first_app_new uid lid (ss : list Subscription) :
  List.find (is_pair uid lid) ss = None ->
  delete_first (is_pair uid lid) (ss ++ [mk_Subscription uid lid]) = ss.
Proof.
  induction ss as [|s ss IH]; simpl.
  - intros _. unfold is_pair. simpl. rewrite !bool_decide_eq_true_2 by reflexivity.
    reflexivity.
  - destruct (is_pair uid lid s); [discriminate|]. intros Hf. by rewrite IH.
Qed.

(** X14.  Subscribing to a locality and removing that subscription gives back
    the database as it was before. *)
Theorem subscribe_then_unsubscribe (d d' : db) (uid lid : Z) :
  add_subscription d uid lid = Return (d', true) ->
  remove_subscription d' uid lid = (d, true).
Proof.
  unfold add_subscription, remove_subscription.
  destruct (List.find (is_pair uid lid) (subscriptions d)) as [s|] eqn:Hf;
    [discriminate|].
  destruct (_ && _); [|discriminate]. intros [= <-]. simpl.
  destruct (List.find _ (subscriptions d ++ _)) as [s|] eqn:Hf'.
  - rewrite delete_first_app_new by exact Hf. destruct d; reflexivity.
  - exfalso. pose proof (find_none _ _ Hf' (mk_Subscription uid lid)) as Hn.
    rewrite in_app_iff in Hn. specialize (Hn ltac:(right; by left)).
    unfold is_pair in Hn. simpl in Hn.
    rewrite !bool_decide_eq_true_2 in Hn by reflexivity. discriminate.
Qed.

Lemma filter_split_length {A} (p : A -> bool) (l : list A) :
  length l
  = (length (List.filter (fun x => negb (p x)) l) + length (List.filter p l))%nat.
Proof.
  induction l as [|x l IH]; [reflexivity|].
  simpl. destruct (p x); simpl; lia.
Qed.

Lemma filter_filter_same {A} (p : A -> bool) (l : list A) :
  List.filter p (List.filter p l) = List.filter p l.
Proof.
  induction l as [|x l IH]; [reflexivity|].
  simpl. destruct (p x) eqn:Hp; [simpl; rewrite Hp, IH; reflexivity | exact IH].
Qed.

Lemma filter_filter_neg {A} (p : A -> bool) (l : list A) :
  List.filter p (List.filter (fun x => negb (p x)) l) = [].
Proof.
  induction l as [|x l IH]; [reflexivity|].
  simpl. destruct (p x) eqn:Hp; simpl; [exact IH | rewrite Hp; exact IH].
Qed.

(** X15.  [remove_all_subscriptions] leaves the user subscribed to nothing
    and the other users as they were; the number it returns is the number of
    rows that went away, and a second call removes nothing. *)
Theorem remove_all_subscriptions_removes (d : db) (uid : Z) :
  (forall l, is_subscribed (remove_all_subscriptions d uid).1 uid l = false)
  /\ (forall u l, u <> uid ->
        is_subscribed (remove_all_subscriptions d uid).1 u l
        = is_subscribed d u l)
  /\ length (subscriptions d)
     = (length (subscriptions (remove_all_subscriptions d uid).1)
        + (remove_all_subscriptions d uid).2)%nat
  /\ ((remove_all_subscriptions d uid).2 = 0%nat
      <-> forall l, is_subscribed d uid l = false)
  /\ remove_all_subscriptions (remove_all_subscriptions d uid).1 uid
     = ((remove_all_subscriptions d uid).1, 0%nat)
  /\ same_but_subscriptions d (remove_all_subscriptions d uid).1
  /\ (unique_subscriptions d ->
      unique_subscriptions (remove_all_subscriptions d uid).1).
Proof.
  unfold remove_all_subscriptions. cbn [fst snd].
  set (keep := fun s => negb (bool_decide (user_id s = uid))).
  set (gone := fun s => bool_decide (user_id s = uid)).
  assert (Hpairs : forall p,
            p ∈ map subscription_pair (List.filter keep (subscriptions d))
            <-> p ∈ map subscription_pair (subscriptions d) /\ p.1 <> uid).
  { intros p. rewrite !list_elem_of_In, !in_map_iff. split.
    - intros (s & <- & [Hin Hk]%filter_In). split; [eauto|].
      unfold keep in Hk. apply negb_true_iff, bool_decide_eq_false in Hk. exact Hk.
    - intros [(s & <- & Hin) Hne]. exists s. split; [reflexivity|].
      apply filter_In. split; [exact Hin|]. unfold keep.
      apply negb_true_iff, bool_decide_eq_false. exact Hne. }
  split.
  { intros l. apply not_true_is_false. rewrite is_subscribed_spec. simpl.
    rewrite Hpairs. simpl. tauto. }
  split.
  { intros u l Hne. apply eq_true_iff_eq. rewrite !is_subscribed_spec. simpl.
    rewrite Hpairs. simpl. tauto. }
  split.
  { simpl. apply filter_split_length. }
  split.
  { split.
    - intros Hz l. apply not_true_is_false. rewrite is_subscribed_spec.
      intros Hin. apply list_elem_of_In, in_map_iff in Hin as (s & Hs & Hin).
      assert (Hg : In s (List.filter gone (subscriptions d))).
      { apply filter_In. split; [exact Hin|]. unfold gone.
        apply bool_decide_eq_true. injection Hs as -> _. reflexivity. }
      destruct (List.filter gone (subscriptions d)); [destruct Hg | discriminate].
    - intros Hno. destruct (List.filter gone (subscriptions d)) as [|s ss] eqn:Hg;
        [reflexivity|]. exfalso.
      assert (Hin : In s (List.filter gone (subscriptions d)))
        by (rewrite Hg; by left).
      apply filter_In in Hin as [Hin Hs]. unfold gone in Hs.
      apply bool_decide_eq_true in Hs.
      specialize (Hno (subscribed_locality s)).
      apply not_true_iff_false in Hno. apply Hno. apply is_subscribed_spec.
      rewrite <- Hs. apply list_elem_of_In.
      apply (in_map subscription_pair) in Hin. exact Hin. }
  split.
  { simpl. unfold with_subscriptions. simpl.
    rewrite filter_filter_same.
    rewrite (filter_filter_neg gone). reflexivity. }
  split; [repeat split|].
  unfold unique_subscriptions. simpl. apply NoDup_map_filter.
Qed.

End SubscriptionFacts.

(** The subscription of the scenario is removed. *)
Lemma remove_subscription_removes_witness :
  Database.is_subscribed
    (Database.remove_subscription (Monitor.store Scenario.start) 7 1).1 7 1
  = false.
Proof.
  refine (proj1 (proj2 (remove_subscription_removes
                          (Monitor.store Scenario.start) 7 1 _))).
  unfold unique_subscriptions. vm_compute. apply NoDup_singleton.
Defined.

(** Subscribing again, and taking it back. *)
Lemma subscribe_then_unsubscribe_witness :
  Database.remove_subscription Visitor.resubscribed 7 1
  = (Monitor.store Visitor.inactive, true).
Proof.
  apply subscribe_then_unsubscribe. vm_compute. reflexivity.
Defined.

Section AccountFacts.
Context `{PyLib}.
Import Database.

Lemma find_user_Some (d : db) (uid : Z) (row : User) :
  find_user d uid = Some row -> row ∈ users d /\ telegram_id row = uid.
Proof.
  unfold find_user. intros [Hin Hid]%find_some.
  apply bool_decide_eq_true in Hid. split; [by apply list_elem_of_In | exact Hid].
Qed.

Lemma find_user_None (d : db) (uid : Z) :
  find_user d uid = None <-> ~ has_user d uid.
Proof.
  unfold find_user, has_user. split.
  - intros Hf (row & Hin & Hid). apply list_elem_of_In in Hin.
    pose proof (find_none _ _ Hf row Hin) as Hn.
    apply bool_decide_eq_false in Hn. contradiction.
  - intros Hno. destruct (List.find _ _) as [row|] eqn:Hf; [|reflexivity].
    exfalso. apply find_some in Hf as [Hin Hid].
    apply bool_decide_eq_true in Hid. apply Hno. exists row.
    split; [by apply list_elem_of_In | exact Hid].
Qed.

Lemma find_user_unique (d : db) (row : User) :
  unique_users d -> row ∈ users d -> find_user d (telegram_id row) = Some row.
Proof.
  unfold unique_users. intros Hnd Hin.
  destruct (find_user d (telegram_id row)) as [row'|] eqn:Hf.
  - apply find_user_Some in Hf as [Hin' Hid]. f_equal.
    eapply (NoDup_map_inj telegram_id); eauto.
  - apply find_user_None in Hf. exfalso. apply Hf. exists row. auto.
Qed.

Lemma find_app_new {A} (p : A -> bool) (l : list A) (x : A) :
  List.find p (l ++ [x])
  = match List.find p l with
    | Some y => Some y
    | None => if p x then Some x else None
    end.
Proof.
  induction l as [|y l IH]; simpl; [reflexivity|].
  destruct (p y); [reflexivity | exact IH].
Qed.

Lemma startswith_take (p s : str) :
  startswith p s = true -> take (length p) s = p.
Proof.
  revert s. induction p as [|c p IH]; intros s; simpl; [reflexivity|].
  destruct s as [|x s]; [discriminate|].
  intros [Hc Hp]%andb_prop. apply N.eqb_eq in Hc. subst x.
  simpl. f_equal. apply IH, Hp.
Qed.

(** X16.  [get_or_create_user] returns the row of the user and gives no
    identity a second row.  For a user who has a row, that row is returned
    with its language and its [is_active] flag as stored, whatever the
    language code of the call; no row is added, and the language and the
    [is_active] flag of every user are as before (of the columns of
    [users], only [username] and [updated_at] of that row, which are not
    held, may be rewritten).  Otherwise one active row is added, whose
    language is ["en"] when the lower-cased language code of the account
    starts with [en], and ["fr"] in every other case.  The rows of the
    other users and the other tables are left as they were. *)
Theorem get_or_create_user_creates_once (d : db) (uid : Z)
    (username language_code : option str) :
  find_user (get_or_create_user d uid username language_code).1 uid
  = Some (get_or_create_user d uid username language_code).2
  /\ (forall row, find_user d uid = Some row ->
        (get_or_create_user d uid username language_code).2 = row
        /\ map telegram_id
             (users (get_or_create_user d uid username language_code).1)
           = map telegram_id (users d)
        /\ (forall u,
              get_user_language
                (get_or_create_user d uid username language_code).1 u
              = get_user_language d u)
        /\ (forall u,
              active_in
                (users (get_or_create_user d uid username language_code).1) u
              <-> active_in (users d) u))
  /\ (find_user d uid = None ->
      exists lang,
        get_or_create_user d uid username language_code
        = (with_users d (users d ++ [mk_User uid (Some lang) true]),
           mk_User uid (Some lang) true)
        /\ (lang = U "en" \/ lang = U "fr")
        /\ (lang = U "en"
            <-> exists code, language_code = Some code
                             /\ startswith (U "en") (lower code) = true))
  /\ (unique_users d ->
      unique_users (get_or_create_user d uid username language_code).1)
  /\ (forall u, u <> uid ->
        find_user (get_or_create_user d uid username language_code).1 u
        = find_user d u)
  /\ localities (get_or_create_user d uid username language_code).1
     = localities d
  /\ subscriptions (get_or_create_user d uid username language_code).1
     = subscriptions d
  /\ outages (get_or_create_user d uid username language_code).1 = outages d
  /\ notifications_sent (get_or_create_user d uid username language_code).1
     = notifications_sent d.
Proof.
  unfold get_or_create_user.
  destruct (find_user d uid) as [row|] eqn:Hf.
  - cbn [fst snd]. split; [exact Hf|].
    split; [intros ? [= <-]; repeat split; tauto|].
    split; [discriminate|]. split; [auto|]. repeat split.
  - set (lang := match language_code with
                 | Some (c :: code) =>
                     if startswith (U "en") (lower (c :: code))
                        || startswith (U "fr") (lower (c :: code))
                     then take 2 (lower (c :: code))
                     else U "fr"
                 | _ => U "fr"
                 end).
    cbn [fst snd].
    assert (Hlang : (lang = U "en" \/ lang = U "fr")
                    /\ (lang = U "en"
                        <-> exists code, language_code = Some code
                                         /\ startswith (U "en") (lower code) = true)).
    { unfold lang. destruct language_code as [[|c code]|].
      - split; [by right|]. split; [discriminate|].
        intros (code & [= <-] & Hs). discriminate.
      - destruct (startswith (U "en") (lower (c :: code))) eqn:Hen.
        + apply startswith_take in Hen as Ht. cbn [orb].
          change (length (U "en")) with 2%nat in Ht. rewrite Ht.
          split; [by left|]. split; [eauto|reflexivity].
        + cbn [orb].
          destruct (startswith (U "fr") (lower (c :: code))) eqn:Hfr.
          * apply startswith_take in Hfr as Ht.
            change (length (U "fr")) with 2%nat in Ht. rewrite Ht.
            split; [by right|]. split; [discriminate|].
            intros (code' & [= <-] & Hs). congruence.
          * split; [by right|]. split; [discriminate|].
            intros (code' & [= <-] & Hs). congruence.
      - split; [by right|]. split; [discriminate|].
        intros (code & [=] & _). }
    split.
    { unfold find_user in *. simpl. rewrite find_app_new, Hf. simpl.
      rewrite bool_decide_eq_true_2 by reflexivity. reflexivity. }
    split; [discriminate|].
    split; [intros _; exists lang; split; [reflexivity | exact Hlang]|].
    split.
    { unfold unique_users. simpl. intros Hnd. rewrite map_app.
      apply NoDup_app. split; [exact Hnd|]. split; [|apply NoDup_singleton].
      intros u Hu Hu'. simpl in Hu'. apply list_elem_of_singleton in Hu'. subst u.
      apply find_user_None in Hf. apply Hf.
      apply list_elem_of_In, in_map_iff in Hu as (row & Hid & Hin).
      exists row. split; [by apply list_elem_of_In | exact Hid]. }
    split; [|repeat split].
    intros u Hne. unfold find_user. simpl. rewrite find_app_new. simpl.
    rewrite bool_decide_eq_false_2 by congruence.
    destruct (List.find _ (users d)); reflexivity.
Qed.

Lemma bind_map_fst {A B C} (l : list A) (f : A -> list (B * C)) :
  map fst (l ≫= f) = l ≫= (fun x => map fst (f x)).
Proof.
  induction l as [|x l IH]; [reflexivity|].
  cbn [mbind list_bind] in *. rewrite map_app, IH. reflexivity.
Qed.

Lemma bind_ext_in {A B} (l : list A) (f g : A -> list B) :
  (forall x, f x = g x) -> l ≫= f = l ≫= g.
Proof.
  intros Hfg. induction l as [|x l IH]; [reflexivity|].
  cbn [mbind list_bind] in *. rewrite Hfg, IH. reflexivity.
Qed.

(** X17.  The two queries of the dispatcher select the same users, in
    whatever order each lists them: a user is in the answer of one exactly
    when it is in the answer of the other, that is when it is active and
    has a subscription to a locality with the name asked for.  The language
    the second query gives is never empty and, identities being unique, it
    is the one [get_user_language] answers for that user. *)
Theorem subscriber_queries_agree (d : db) (locality_name : str) :
  (forall u,
     u ∈ get_users_subscribed_to_locality d locality_name
     <-> exists lang,
           (u, lang) ∈ get_users_with_language_for_locality d locality_name)
  /\ (forall u, u ∈ get_users_subscribed_to_locality d locality_name
                <-> subscribed_to d locality_name u)
  /\ (forall u lang,
        (u, lang) ∈ get_users_with_language_for_locality d locality_name ->
        lang <> []
        /\ (unique_users d -> lang = get_user_language d u))
  /\ (unique_users d ->
      forall u, u ∈ get_users_subscribed_to_locality d locality_name ->
                (u, get_user_language d u)
                ∈ get_users_with_language_for_locality d locality_name).
Proof.
  assert (Heq : get_users_subscribed_to_locality d locality_name
                = map fst (get_users_with_language_for_locality d locality_name)).
  { unfold get_users_subscribed_to_locality, get_users_with_language_for_locality.
    rewrite bind_map_fst. apply bind_ext_in. intros u.
    rewrite bind_map_fst. apply bind_ext_in. intros s.
    rewrite bind_map_fst. apply bind_ext_in. intros l.
    destruct (_ && _); reflexivity. }
  assert (Hpair : forall u,
            u ∈ get_users_subscribed_to_locality d locality_name
            <-> exists lang,
                  (u, lang)
                  ∈ get_users_with_language_for_locality d locality_name).
  { intros u. rewrite Heq, list_elem_of_fmap. split.
    - intros ([u' lang] & -> & Hin). eauto.
    - intros (lang & Hin). exists (u, lang). auto. }
  assert (Hlang : forall u lang,
            (u, lang) ∈ get_users_with_language_for_locality d locality_name ->
            lang <> []
            /\ (unique_users d -> lang = get_user_language d u)).
  { intros u lang Hin.
    unfold get_users_with_language_for_locality in Hin.
    apply list_elem_of_bind in Hin as (row & Hin & Hrow).
    apply list_elem_of_bind in Hin as (s & Hin & Hs).
    apply list_elem_of_bind in Hin as (loc & Hin & Hloc).
    destruct (_ && _) eqn:Hc in Hin; [|inversion Hin].
    apply list_elem_of_singleton in Hin. injection Hin as -> ->.
    split.
    - destruct (language row) as [[|c l]|]; [vm_compute| |vm_compute];
        discriminate.
    - intros Hnd. unfold get_user_language.
      rewrite (find_user_unique d row Hnd Hrow). reflexivity. }
  split; [exact Hpair|]. split.
  { intros u. rewrite Heq. apply get_users_subscribed_to. }
  split; [exact Hlang|].
  intros Hnd u Hu. apply Hpair in Hu as (lang & Hin).
  destruct (Hlang u lang Hin) as [_ Hl]. rewrite <- (Hl Hnd). exact Hin.
Qed.

Lemma set_language_find (us : list User) (uid : Z) (lang : str) (row : User) :
  List.find (fun u => bool_decide (telegram_id u = uid)) us = Some row ->
  List.find (fun u => bool_decide (telegram_id u = uid)) (set_language us uid lang)
  = Some (mk_User (telegram_id row) (Some lang) (is_active row)).
Proof.
  induction us as [|u us IH]; simpl; [discriminate|].
  destruct (bool_decide (telegram_id u = uid)) eqn:Hu.
  - intros [= <-]. simpl. rewrite Hu. reflexivity.
  - intros Hf. simpl. rewrite Hu. auto.
Qed.

Lemma set_language_find_other (us : list User) (uid u : Z) (lang : str) :
  u <> uid ->
  List.find (fun r => bool_decide (telegram_id r = u)) (set_language us uid lang)
  = List.find (fun r => bool_decide (telegram_id r = u)) us.
Proof.
  intros Hne. induction us as [|r us IH]; simpl; [reflexivity|].
  destruct (bool_decide (telegram_id r = uid)) eqn:Hr.
  - apply bool_decide_eq_true in Hr. simpl.
    rewrite !bool_decide_eq_false_2 by congruence. reflexivity.
  - simpl. destruct (bool_decide (telegram_id r = u)); [reflexivity | exact IH].
Qed.

Lemma set_language_active (us : list User) (uid : Z) (lang : str) (u : Z) :
  active_in (set_language us uid lang) u <-> active_in us u.
Proof.
  unfold active_in. induction us as [|r us IH]; simpl; [reflexivity|].
  destruct (bool_decide (telegram_id r = uid)) eqn:Hr.
  - split; intros (row & Hin & Hid & Hact);
      apply elem_of_cons in Hin as [->|Hin].
    + exists r. split; [by left | auto].
    + exists row. split; [by right | auto].
    + eexists. split; [by left | auto].
    + exists row. split; [by right | auto].
  - split; intros (row & Hin & Hid & Hact);
      apply elem_of_cons in Hin as [->|Hin].
    + exists r. split; [by left | auto].
    + destruct (proj1 IH) as (row' & ? & ? & ?); [eauto|].
      exists row'. split; [by right | auto].
    + exists r. split; [by left | auto].
    + destruct (proj2 IH) as (row' & ? & ? & ?); [eauto|].
      exists row'. split; [by right | auto].
Qed.

(** X18.  After [set_user_language] has stored a language of at most two
    characters for a user who has a row, [get_user_language] answers that
    language (["en"] for the empty string); the language of the other users
    and the [is_active] flags are as before.  For a user without a row
    nothing is stored, and [get_user_language] answers ["en"]. *)
Theorem set_user_language_round_trip (d : db) (uid : Z) (lang : str) :
  (find_user d uid = None ->
   set_user_language d uid lang = Return (d, false)
   /\ get_user_language d uid = U "en")
  /\ (is_Some (find_user d uid) -> (length lang <= 2)%nat ->
      exists d',
        set_user_language d uid lang = Return (d', true)
        /\ get_user_language d' uid
           = match lang with [] => U "en" | _ => lang end
        /\ (forall u, u <> uid -> get_user_language d' u = get_user_language d u)
        /\ (forall u, active_in (users d') u <-> active_in (users d) u)
        /\ localities d' = localities d /\ subscriptions d' = subscriptions d
        /\ outages d' = outages d
        /\ notifications_sent d' = notifications_sent d).
Proof.
  unfold set_user_language, get_user_language. split.
  - intros ->. split; reflexivity.
  - intros [row Hrow] Hlen. rewrite Hrow.
    apply Nat.leb_le in Hlen. rewrite Hlen.
    eexists. split; [reflexivity|].
    split.
    { unfold find_user in *. simpl. erewrite set_language_find by exact Hrow.
      simpl. destruct lang; reflexivity. }
    split.
    { intros u Hne. unfold find_user. simpl.
      rewrite set_language_find_other by exact Hne. reflexivity. }
    split; [intros u; simpl; apply set_language_active|].
    repeat split.
Qed.

End AccountFacts.

(** ** Accounts and runs together *)

Section AccountsAndRuns.
Context `{PyLib}.
Variable utcnow : nat -> Z.
Variable send_message : nat -> Z -> str -> Monitor.send_outcome.
Import Database Monitor.

(** The calls of a run, from the state it starts in. *)
Lemma check_for_outages_calls (response : feed_outcome) (w : world) :
  exists l,
    sent_log (check_for_outages utcnow send_message response w)
    = sent_log w ++ l
    /\ forall a, a ∈ l ->
         active_in (users (store w)) (a_user a)
         /\ exists name, subscribed_to (store w) name (a_user a).
Proof.
  destruct (check_for_outages_steps utcnow send_message response w) as [->| ->].
  { exists []. split; [by rewrite app_nil_r|]. intros a []%elem_of_nil. }
  destruct (process_outages_frame utcnow (_fetch_outages response) w)
    as ((Hu & Hl & Hs & Hn & Hlog) & _).
  destruct (send_notifications_calls utcnow send_message
              (_process_outages utcnow (_fetch_outages response) w).2
              (_process_outages utcnow (_fetch_outages response) w).1)
    as (l & D & Hcalls).
  exists l. split; [rewrite (d_log _ _ _ _ D), Hlog; reflexivity|].
  intros a Ha. split.
  - rewrite <- Hu. exact (d_targets _ _ _ _ D a Ha).
  - destruct (Hcalls a Ha) as (k & o & _ & _ & _ & Hsub).
    exists (locality o).
    destruct Hsub as (row & s & loc & Hrow' & Hsin & Hloc & Hrest).
    exists row, s, loc. rewrite <- Hu, <- Hs, <- Hl. auto.
Qed.

(** X19.  After [remove_all_subscriptions], a run makes no call to that
    user. *)
Theorem unsubscribed_user_is_not_called (response : feed_outcome) (w : world)
    (uid : Z) :
  let w0 := with_store w (remove_all_subscriptions (store w) uid).1 in
  exists l,
    sent_log (check_for_outages utcnow send_message response w0)
    = sent_log w ++ l
    /\ forall a, a ∈ l -> a_user a <> uid.
Proof.
  intros w0.
  destruct (check_for_outages_calls response w0) as (l & Hlog & Hcalls).
  exists l. split; [exact Hlog|].
  intros a Ha Hid. destruct (Hcalls a Ha) as [_ (name & Hsub)].
  destruct Hsub as (row & s & loc & _ & Hsin & _ & _ & _ & Hsu & _).
  simpl in Hsin. apply list_elem_of_In, filter_In in Hsin as [_ Hkeep].
  apply negb_true_iff, bool_decide_eq_false in Hkeep. congruence.
Qed.

(** X20.  Nothing the user does makes a row active again: for a user whose row
    was marked inactive, after [get_or_create_user] and [add_subscription]
    the row is still inactive, and a run makes no call to that user. *)
Theorem inactive_user_stays_silent (response : feed_outcome) (w : world)
    (uid lid : Z) (username language_code : option str) (d' : db) (added : bool) :
  has_user (store w) uid -> ~ active_in (users (store w)) uid ->
  add_subscription
    (get_or_create_user (store w) uid username language_code).1 uid lid
  = Return (d', added) ->
  ~ active_in (users d') uid
  /\ exists l,
       sent_log (check_for_outages utcnow send_message response
                   (with_store w d'))
       = sent_log w ++ l
       /\ forall a, a ∈ l -> a_user a <> uid.
Proof.
  intros Hu Hinactive Hadd.
  assert (Husers : users d' = users (store w)).
  { destruct (find_user (store w) uid) as [row|] eqn:Hf.
    - unfold get_or_create_user in Hadd. rewrite Hf in Hadd. simpl in Hadd.
      unfold add_subscription in Hadd.
      destruct (List.find _ _); [injection Hadd as <- _; reflexivity|].
      destruct (_ && _); [injection Hadd as <- _; reflexivity | discriminate].
    - apply find_user_None in Hf. contradiction. }
  split; [rewrite Husers; exact Hinactive|].
  destruct (check_for_outages_calls response (with_store w d'))
    as (l & Hlog & Hcalls).
  exists l. split; [exact Hlog|].
  intros a Ha Hid. destruct (Hcalls a Ha) as [Hact _].
  simpl in Hact. rewrite Husers, Hid in Hact. contradiction.
Qed.

Hypothesis always_delivered : forall n chat_id outage_id,
  send_message n chat_id outage_id = delivered.





End AccountsAndRuns.

(** The subscriber who blocked the bot subscribes again. *)
Lemma inactive_user_stays_silent_witness :
  ~ active_in (Database.users Visitor.resubscribed) 7.
Proof.
  refine (proj1 (@inactive_user_stays_silent Sample.sample_lib Scenario.clock
                   Scenario.reliable (Monitor.feed_document Scenario.snapshot)
                   Visitor.inactive 7 1 None None Visitor.resubscribed true
                   _ _ _)).
  - exists (Database.mk_User 7 (Some (U "fr")) false).
    split; [apply list_elem_of_here | reflexivity].
  - intros (row & Hin & _ & Hact). simpl in Hin.
    apply list_elem_of_singleton in Hin. subst row. discriminate.
  - vm_compute. reflexivity.
Defined.


(** ** Pages, keyboard rows and the database URL *)

Section PagingFacts.
Import Config Handlers.
#[local] Open Scope Z_scope.
Context {A : Type}.

Lemma slice_page (l : list A) (p : Z) :
  0 <= p -> 10 * p < Z.of_nat (length l) ->
  slice l (p * 10) (p * 10 + 10) = take 10 (drop (10 * Z.to_nat p) l).
Proof.
  intros Hp Hlt. unfold slice.
  destruct (Z.ltb_spec (p * 10 + 10) 0); [lia|].
  destruct (Z.ltb_spec (p * 10) 0); [lia|].
  replace (Z.to_nat (Z.min (p * 10) (Z.of_nat (length l))))
    with (10 * Z.to_nat p)%nat by lia.
  destruct (Z.le_gt_cases (p * 10 + 10) (Z.of_nat (length l))).
  - f_equal. lia.
  - rewrite !take_ge; [reflexivity | rewrite length_drop; lia..].
Qed.

Lemma concat_pages (l : list A) (k : nat) :
  concat (map (fun p => take 10 (drop (10 * p) l)) (seq 0 k)) = take (10 * k) l.
Proof.
  induction k as [|k IH]; [reflexivity|].
  rewrite seq_S, map_app, concat_app, IH. simpl. rewrite app_nil_r.
  rewrite take_take_drop. f_equal. lia.
Qed.

Lemma show_localities_view (localities : list A) (page : Z) :
  localities <> [] ->
  let total := (Z.of_nat (length localities) - 1) / 10 + 1 in
  let shown := Z.max 0 (Z.min page (total - 1)) in
  show_localities localities page
  = Some (mk_page_view shown total
            (take 10 (drop (10 * Z.to_nat shown) localities))
            (if 0 <? shown then Some (shown - 1) else None)
            (if shown <? total - 1 then Some (shown + 1) else None))
  /\ 0 <= shown < total
  /\ 10 * shown < Z.of_nat (length localities)
  /\ Z.of_nat (length localities) <= 10 * total.
Proof.
  intros Hne total shown.
  assert (Hlen : 1 <= Z.of_nat (length localities))
    by (destruct localities; [congruence | simpl; lia]).
  pose proof (Z.div_mod (Z.of_nat (length localities) - 1) 10 ltac:(lia)) as Hd.
  pose proof (Z.mod_pos_bound (Z.of_nat (length localities) - 1) 10 ltac:(lia)).
  assert (0 <= (Z.of_nat (length localities) - 1) / 10)
    by (apply Z.div_pos; lia).
  assert (Hs : 0 <= shown < total) by (unfold shown, total; lia).
  assert (Hlt : 10 * shown < Z.of_nat (length localities))
    by (unfold shown, total in *; lia).
  split; [|split; [exact Hs|split; [exact Hlt | unfold total; lia]]].
  unfold show_localities. destruct localities as [|x l]; [congruence|].
  cbv zeta. unfold LOCALITIES_PER_PAGE. fold total. fold shown.
  rewrite slice_page by lia. reflexivity.
Qed.

(** X22.  The pages of a district show every locality once: each page has
    between one and ten localities, and the pages from the first to the
    last, one after the other, are the list of the district. *)
Theorem show_localities_pages_cover (localities : list A) :
  localities <> [] ->
  exists total : nat,
    (forall page,
       exists v, show_localities localities page = Some v
                 /\ total_pages v = Z.of_nat total
                 /\ 0 <= shown_page v < Z.of_nat total
                 /\ (1 <= length (page_localities v) <= 10)%nat)
    /\ concat (map (fun p => from_option page_localities []
                               (show_localities localities (Z.of_nat p)))
                 (seq 0 total))
       = localities.
Proof.
  intros Hne.
  set (total := (Z.of_nat (length localities) - 1) / 10 + 1).
  exists (Z.to_nat total). split.
  - intros page.
    destruct (show_localities_view localities page Hne) as (Hv & Hs & Hlt & Hle).
    fold total in Hv, Hs, Hlt, Hle.
    eexists. split; [exact Hv|]. cbn [total_pages shown_page page_localities].
    split; [lia|]. split; [lia|].
    rewrite length_take, length_drop. lia.
  - transitivity (take (10 * Z.to_nat total) localities).
    2:{ apply take_ge.
        destruct (show_localities_view localities 0 Hne) as (_ & _ & _ & Hle).
        fold total in Hle. lia. }
    rewrite <- concat_pages. f_equal. apply map_ext_in.
    intros p Hp%in_seq.
    destruct (show_localities_view localities (Z.of_nat p) Hne)
      as (Hv & Hs & _).
    fold total in Hv, Hs. rewrite Hv. cbn [from_option page_localities].
    do 3 f_equal. lia.
Qed.

(** X23.  The page shown is the page asked for, brought into the range of the
    pages; the "previous" button is there except on the first page and the
    "next" button except on the last, and each leads to a page that is
    shown as asked. *)
Theorem show_localities_navigation (localities : list A) (page : Z)
    (v : page_view A) :
  show_localities localities page = Some v ->
  shown_page v = Z.max 0 (Z.min page (total_pages v - 1))
  /\ 0 <= shown_page v < total_pages v
  /\ (previous_page v = None <-> shown_page v = 0)
  /\ (next_page v = None <-> shown_page v = total_pages v - 1)
  /\ (forall q, previous_page v = Some q ->
        q = shown_page v - 1
        /\ exists v', show_localities localities q = Some v'
                      /\ shown_page v' = q)
  /\ (forall q, next_page v = Some q ->
        q = shown_page v + 1
        /\ exists v', show_localities localities q = Some v'
                      /\ shown_page v' = q)
  /\ show_localities localities (shown_page v) = Some v.
Proof.
  intros Hshow.
  assert (Hne : localities <> []) by (intros ->; discriminate).
  destruct (show_localities_view localities page Hne) as (Hv & Hs & _).
  rewrite Hv in Hshow. injection Hshow as <-.
  cbn [total_pages shown_page page_localities previous_page next_page].
  set (total := (Z.of_nat (length localities) - 1) / 10 + 1) in *.
  set (shown := Z.max 0 (Z.min page (total - 1))) in *.
  assert (Hat : forall q, 0 <= q < total ->
            exists v', show_localities localities q = Some v'
                       /\ shown_page v' = q).
  { intros q Hq.
    destruct (show_localities_view localities q Hne) as (Hvq & _).
    fold total in Hvq. eexists. split; [exact Hvq|].
    cbn [shown_page]. lia. }
  split; [reflexivity|]. split; [exact Hs|].
  split; [destruct (Z.ltb_spec 0 shown); split; (discriminate || lia || auto)|].
  split; [destruct (Z.ltb_spec shown (total - 1)); split;
          (discriminate || lia || auto)|].
  split.
  { intros q. destruct (Z.ltb_spec 0 shown); [|discriminate].
    intros [= <-]. split; [reflexivity | apply Hat; lia]. }
  split.
  { intros q. destruct (Z.ltb_spec shown (total - 1)); [|discriminate].
    intros [= <-]. split; [reflexivity | apply Hat; lia]. }
  destruct (show_localities_view localities shown Hne) as (Hvs & _).
  fold total in Hvs. rewrite Hvs.
  replace (Z.max 0 (Z.min shown (total - 1))) with shown by lia.
  reflexivity.
Qed.

Lemma district_rows_spec (districts : list A) :
  forall (keyboard : list (list A)) (row : list A),
    (length row < 2)%nat ->
    exists rows,
      district_rows districts keyboard row = keyboard ++ rows
      /\ concat rows = row ++ districts
      /\ Forall (fun r => (1 <= length r <= 2)%nat) rows
      /\ forall i r, rows !! i = Some r -> (S i < length rows)%nat ->
                     length r = 2%nat.
Proof.
  induction districts as [|d rest IH]; intros keyboard row Hrow.
  - cbn [district_rows]. destruct row as [|x row].
    + exists []. rewrite !app_nil_r. split; [reflexivity|].
      split; [reflexivity|]. split; [constructor|].
      intros i r Hi. rewrite lookup_nil in Hi. discriminate.
    + exists [x :: row]. split; [reflexivity|].
      split; [simpl; rewrite !app_nil_r; reflexivity|].
      split; [constructor; [simpl in *; lia | constructor]|].
      intros i r Hi Hlt. simpl in Hlt. lia.
  - cbn [district_rows]. unfold DISTRICTS_PER_ROW.
    destruct (Nat.eqb_spec (length (row ++ [d])) 2) as [Hfull|Hnot].
    + destruct (IH (keyboard ++ [row ++ [d]]) [] ltac:(simpl; lia))
        as (rows & E & Hc & Hall & Hlast).
      exists ((row ++ [d]) :: rows).
      split; [rewrite E, <- app_assoc; reflexivity|].
      split; [simpl; rewrite Hc, <- app_assoc; reflexivity|].
      split; [constructor; [lia | exact Hall]|].
      intros [|i] r Hi Hlt; simpl in Hi.
      * injection Hi as <-. exact Hfull.
      * apply (Hlast i r Hi). simpl in Hlt. lia.
    + rewrite length_app in Hnot. simpl in Hnot.
      destruct (IH keyboard (row ++ [d])
                  ltac:(rewrite length_app; simpl; lia))
        as (rows & E & Hc & Hall & Hlast).
      exists rows. split; [exact E|].
      split; [rewrite Hc, <- app_assoc; reflexivity|]. auto.
Qed.

(** X24.  The keyboard of the districts has every district once, in order, in
    rows of two buttons; only the last row may have a single button, and no
    row is empty. *)
Theorem district_rows_layout (districts : list A) :
  concat (district_rows districts [] []) = districts
  /\ Forall (fun r => (1 <= length r <= 2)%nat) (district_rows districts [] [])
  /\ forall i r, district_rows districts [] [] !! i = Some r ->
                 (S i < length (district_rows districts [] []))%nat ->
                 length r = 2%nat.
Proof.
  destruct (district_rows_spec districts [] [] ltac:(simpl; lia))
    as (rows & E & Hc & Hall & Hlast).
  rewrite E. simpl. auto.
Qed.

End PagingFacts.

(** Twenty-five localities are shown on three pages. *)
Lemma show_localities_pages_cover_witness :
  exists total : nat,
    concat (map (fun p => from_option Handlers.page_localities []
                            (Handlers.show_localities Visitor.twenty_five
                               (Z.of_nat p)))
              (seq 0 total))
    = Visitor.twenty_five.
Proof.
  destruct (show_localities_pages_cover Visitor.twenty_five) as (total & _ & Hc).
  - discriminate.
  - exists total. exact Hc.
Defined.

(** A page far beyond the last one is shown as the last one. *)
Lemma show_localities_navigation_witness :
  exists v, Handlers.show_localities Visitor.twenty_five 7 = Some v
            /\ Handlers.shown_page v = 2%Z
            /\ Handlers.next_page v = None.
Proof.
  assert (Hv : exists v, Handlers.show_localities Visitor.twenty_five 7 = Some v
                         /\ Handlers.total_pages v = 3%Z)
    by (eexists; split; vm_compute; reflexivity).
  destruct Hv as (v & Hv & Ht). exists v. split; [exact Hv|].
  destruct (show_localities_navigation Visitor.twenty_five 7 v Hv)
    as (Hshown & _ & _ & Hnext & _).
  rewrite Ht in Hshown, Hnext. split; [exact Hshown|].
  apply Hnext. rewrite Hshown. reflexivity.
Defined.

Section ConfigFacts.
Import Config.




End ConfigFacts.

(** ** The selection of localities and its confirmation *)

Section SelectionFacts.
Context `{PyLib}.
Import Database Handlers.

Lemma add_selected_saves (uid : Z) (ids : list Z) :
  NoDup ids ->
  forall (d : db) (n : nat),
    has_user d uid -> (forall l, l ∈ ids -> has_locality d l) ->
    exists d',
      add_selected d uid ids n
      = (d', Return (n + length (List.filter
                                   (fun l => negb (is_subscribed d uid l)) ids))%nat)
      /\ (forall l, l ∈ ids -> is_subscribed d' uid l = true)
      /\ (forall u l, u <> uid \/ l ∉ ids ->
            is_subscribed d' u l = is_subscribed d u l)
      /\ (unique_subscriptions d -> unique_subscriptions d')
      /\ same_but_subscriptions d d'.
Proof.
  induction 1 as [|lid rest Hnotin Hnd IH]; intros d n Hu Hl.
  - exists d. cbn [add_selected List.filter length]. rewrite Nat.add_0_r.
    split; [reflexivity|]. split; [intros l []%elem_of_nil|].
    split; [reflexivity|]. split; [auto | repeat split].
  - destruct (add_subscription_ok d uid lid Hu (Hl lid ltac:(left)))
      as (d1 & Hadd & Hsub1 & Hother1 & Huniq1 & Hsame1 & _).
    assert (Hu1 : has_user d1 uid).
    { destruct Hu as (row & Hin & Hid). exists row.
      destruct Hsame1 as (-> & _). auto. }
    assert (Hl1 : forall l, l ∈ rest -> has_locality d1 l).
    { intros l Hin. destruct (Hl l ltac:(right; exact Hin)) as (loc & Hloc & Hid).
      exists loc. destruct Hsame1 as (_ & -> & _). auto. }
    destruct (IH d1 (if negb (is_subscribed d uid lid) then S n else n) Hu1 Hl1)
      as (d' & Hrest & Hsub & Hother & Huniq & Hsame).
    exists d'. cbn [add_selected]. rewrite Hadd, Hrest.
    split.
    { f_equal. f_equal. cbn [List.filter].
      assert (Hf : List.filter (fun l => negb (is_subscribed d1 uid l)) rest
                   = List.filter (fun l => negb (is_subscribed d uid l)) rest).
      { apply filter_ext_in. intros l Hin. rewrite Hother1; [reflexivity|].
        intros [= ->]. apply Hnotin. by apply list_elem_of_In. }
      rewrite Hf. destruct (negb (is_subscribed d uid lid)); simpl; lia. }
    split.
    { intros l [->|Hin]%elem_of_cons; [|auto].
      rewrite Hother by (right; exact Hnotin). exact Hsub1. }
    split.
    { intros u l Hne. rewrite Hother, Hother1; [reflexivity| |].
      - intros [= -> ->]. destruct Hne as [Hne|Hne]; [congruence|].
        apply Hne. by left.
      - destruct Hne as [Hne|Hne]; [by left|]. right. intros Hin. apply Hne.
        by right. }
    split; [auto|].
    destruct Hsame1 as (? & ? & ? & ?), Hsame as (? & ? & ? & ?).
    repeat split; congruence.
Qed.

(** X26.  Confirming a selection whose localities all have a row: the user
    has a row afterwards and is subscribed to every locality of the
    selection; the subscriptions of the other users, and those of the user
    to other localities, are as before; the answer counts the localities of
    the selection the user was not subscribed to, and says "already
    subscribed" when there is none; the selection of the user is
    discarded. *)
Theorem confirm_subscriptions_saves (state : selection) (d : db) (uid : Z)
    (username language_code : option str) (chosen : gset Z) :
  state !! uid = Some chosen -> chosen <> ∅ ->
  (forall l, l ∈ chosen -> has_locality d l) ->
  exists d',
    let added_count :=
      length (List.filter (fun l => negb (is_subscribed d uid l))
                (elements chosen)) in
    confirm_subscriptions state d uid username language_code
    = (delete uid state, d',
       Return (if (0 <? added_count)%nat then subscriptions_saved added_count
               else already_subscribed))
    /\ has_user d' uid
    /\ (forall l, l ∈ chosen -> is_subscribed d' uid l = true)
    /\ (forall u l, u <> uid \/ l ∉ chosen ->
          is_subscribed d' u l = is_subscribed d u l)
    /\ (unique_subscriptions d -> unique_subscriptions d')
    /\ localities d' = localities d.
Proof.
  intros Hstate Hne Hloc.
  unfold confirm_subscriptions. rewrite Hstate.
  rewrite bool_decide_eq_false_2 by exact Hne.
  set (d1 := (get_or_create_user d uid username language_code).1).
  assert (Hd1 : subscriptions d1 = subscriptions d /\ localities d1 = localities d
                /\ has_user d1 uid).
  { unfold d1, get_or_create_user.
    destruct (find_user d uid) as [row|] eqn:Hf; cbn [fst].
    - split; [reflexivity|]. split; [reflexivity|].
      apply find_user_Some in Hf as [Hin Hid]. exists row. auto.
    - split; [reflexivity|]. split; [reflexivity|].
      eexists. split; [simpl; apply elem_of_app; right; apply list_elem_of_here|].
      reflexivity. }
  destruct Hd1 as (Hs1 & Hl1 & Hu1).
  assert (Hsub1 : forall u l, is_subscribed d1 u l = is_subscribed d u l).
  { intros u l. unfold is_subscribed. rewrite Hs1. reflexivity. }
  destruct (add_selected_saves uid (elements chosen) (NoDup_elements chosen)
              d1 0 Hu1)
    as (d' & Hadd & Hsub & Hother & Huniq & Hsame).
  { intros l Hin%elem_of_elements.
    destruct (Hloc l Hin) as (loc & Hin' & Hid). exists loc.
    rewrite Hl1. auto. }
  exists d'. cbn zeta. rewrite Hadd. cbn [Nat.add].
  assert (Hf : List.filter (fun l => negb (is_subscribed d1 uid l))
                 (elements chosen)
               = List.filter (fun l => negb (is_subscribed d uid l))
                   (elements chosen)).
  { apply filter_ext. intros l. rewrite Hsub1. reflexivity. }
  rewrite Hf. split; [reflexivity|].
  split.
  { destruct Hu1 as (row & Hin & Hid). exists row.
    destruct Hsame as (-> & _). auto. }
  split; [intros l Hin; apply Hsub; by apply elem_of_elements|].
  split.
  { intros u l Hne'. rewrite Hother, Hsub1; [reflexivity|].
    destruct Hne' as [?|Hn]; [by left|]. right.
    intros Hin%elem_of_elements. contradiction. }
  split.
  { intros Hnd. apply Huniq. unfold unique_subscriptions. rewrite Hs1. exact Hnd. }
  destruct Hsame as (_ & -> & _). exact Hl1.
Qed.

(** X27.  Ticking a locality puts it in the selection of the user when it was
    not there and takes it out when it was; the other localities and the
    other users stay as they were, and ticking twice gives back the
    selection. *)
Theorem toggle_locality_twice (state : selection) (uid lid : Z) :
  let chosen := default ∅ (state !! uid) in
  (exists chosen',
     toggle_locality state uid lid !! uid = Some chosen'
     /\ (lid ∈ chosen' <-> lid ∉ chosen)
     /\ forall l, l <> lid -> (l ∈ chosen' <-> l ∈ chosen))
  /\ (forall u, u <> uid -> toggle_locality state uid lid !! u = state !! u)
  /\ toggle_locality (toggle_locality state uid lid) uid lid
     = <[uid := chosen]> state.
Proof.
  intros chosen. unfold toggle_locality. fold chosen.
  destruct (decide (lid ∈ chosen)) as [Hin|Hnotin].
  - rewrite (bool_decide_eq_true_2 _ Hin).
    split.
    { eexists. split; [apply lookup_insert_eq|].
      split; [rewrite elem_of_difference, elem_of_singleton; tauto|].
      intros l Hl. rewrite elem_of_difference, elem_of_singleton. tauto. }
    split; [intros u Hu; apply lookup_insert_ne; congruence|].
    rewrite lookup_insert_eq. cbn [from_option Datatypes.id].
    rewrite bool_decide_eq_false_2;
      [|rewrite elem_of_difference, elem_of_singleton; tauto].
    rewrite insert_insert_eq. f_equal.
    apply set_eq. intros l.
    rewrite elem_of_union, elem_of_difference, elem_of_singleton.
    destruct (decide (l = lid)) as [->|]; tauto.
  - rewrite (bool_decide_eq_false_2 _ Hnotin).
    split.
    { eexists. split; [apply lookup_insert_eq|].
      split; [rewrite elem_of_union, elem_of_singleton; tauto|].
      intros l Hl. rewrite elem_of_union, elem_of_singleton. tauto. }
    split; [intros u Hu; apply lookup_insert_ne; congruence|].
    rewrite lookup_insert_eq. cbn [from_option Datatypes.id].
    rewrite bool_decide_eq_true_2;
      [|rewrite elem_of_union, elem_of_singleton; tauto].
    rewrite insert_insert_eq. f_equal.
    apply set_eq. intros l.
    rewrite elem_of_difference, elem_of_union, elem_of_singleton.
    destruct (decide (l = lid)) as [->|]; tauto.
Qed.

End SelectionFacts.

(** The subscriber who came back confirms TAMARIN. *)
Lemma confirm_subscriptions_saves_witness :
  exists d',
    Database.is_subscribed d' 7 1 = true
    /\ Database.localities d' = Database.localities (Monitor.store Visitor.inactive).
Proof.
  destruct (@confirm_subscriptions_saves Sample.sample_lib Visitor.ticked
              (Monitor.store Visitor.inactive) 7 None None {[ 1%Z ]})
    as (d' & _ & _ & Hsub & _ & _ & Hloc).
  - reflexivity.
  - apply non_empty_singleton_L.
  - intros l ->%elem_of_singleton.
    exists (Database.mk_Locality 1 (U "TAMARIN") 1).
    split; [apply list_elem_of_here | reflexivity].
  - exists d'. split; [apply Hsub; by apply elem_of_singleton | exact Hloc].
Defined.
